(** * guessnumber.py: the round engine, attempt budget, proximity hints and
      best-score store, embedded in Rocq.

    Python ints are [Z]; Python floats are IEEE 754 binary64 values, taken
    from the Standard Library's [SpecFloat]; exceptions are an explicit
    error result; the console is a list of input events and a list of
    printed messages; the score file is a value of type [file]. *)

From Stdlib Require Import ZArith List Bool Ascii String Lia.
From Stdlib Require Import SpecFloat.
Import ListNotations.
Local Open Scope Z_scope.

(** ** Exceptions and fallible results *)

Inductive exn : Set :=
| ValueError | OverflowError | TypeError | AttributeError
| EOFError | KeyboardInterrupt.

Inductive result (A : Type) : Type :=
| Ok (a : A)
| Raise (e : exn).
Arguments Ok {A} a.
Arguments Raise {A} e.

Definition bind {A B : Type} (r : result A) (k : A -> result B) : result B :=
  match r with
  | Ok a => k a
  | Raise e => Raise e
  end.

Notation "x <- r ;; k" := (bind r (fun x => k))
  (at level 61, r at next level, right associativity).

(** ** Python floats *)

Module Float.

Definition prec : Z := 53.
Definition emax : Z := 1024.

(** [float(n)] for an int [n], as the int operand of [0.01 * R] is
    converted: nearest binary64, ties to even, [OverflowError] when the
    int does not fit. *)
Definition of_int (n : Z) : result spec_float :=
  match binary_normalize prec emax n 0 false with
  | S754_infinity _ => Raise OverflowError
  | x => Ok x
  end.

Definition mul (x y : spec_float) : spec_float := SFmul prec emax x y.

(** [int(x)]: truncation toward zero. *)
Definition to_int (x : spec_float) : result Z :=
  match x with
  | S754_zero _ => Ok 0
  | S754_finite s m e =>
      Ok (cond_Zopp s (if 0 <=? e then Zpos m * 2 ^ e else Zpos m / 2 ^ (- e)))
  | S754_infinity _ => Raise OverflowError
  | S754_nan => Raise ValueError
  end.

(** The literals [0.01], [0.03] and [0.07]: 0x1.47ae147ae147bp-7,
    0x1.eb851eb851eb8p-6 and 0x1.1eb851eb851ecp-4. *)
Definition c001 : spec_float := S754_finite false 0x147ae147ae147b (-59).
Definition c003 : spec_float := S754_finite false 0x1eb851eb851eb8 (-58).
Definition c007 : spec_float := S754_finite false 0x11eb851eb851ec (-56).

(** [c * n] for a float [c] and an int [n]. *)
Definition mul_int (c : spec_float) (n : Z) : result spec_float :=
  x <- of_int n ;; Ok (mul c x).

End Float.

(** ** math.ceil(math.log2(R)) *)

(** [n / 2^k] rounded to the nearest integer, ties to even. *)
Definition round_half_even (n k : Z) : Z :=
  let q := n / 2 ^ k in
  let r := n mod 2 ^ k in
  match 2 * r ?= 2 ^ k with
  | Lt => q
  | Gt => q + 1
  | Eq => if Z.even q then q else q + 1
  end.

(** The value [math.log2] works on: the positive int [R] rounded to a
    53-bit significand, ties to even (PyLong_AsDouble, and _PyLong_Frexp
    beyond the double range). It is the value of [Float.of_int R] wherever
    that is defined ([of_int_to_double]). *)
Definition to_double (R : Z) : Z :=
  let k := Z.log2 R + 1 - 53 in
  if k <=? 0 then R else round_half_even R k * 2 ^ k.

(** [math.ceil(math.log2(R))] for an int [R], as the exact ceiling of
    [log2] of that double: [math.log2] raises [ValueError] on [R <= 0].
    The rounding of the C library's [log2] is left out here and kept in
    [math_ceil_log2] below; the two agree on every range of up to [2^48]
    values ([math_ceil_log2_exact]) and differ past it
    ([rounded_log2_short]). *)
Definition ceil_log2 (R : Z) : result Z :=
  if R <=? 0 then Raise ValueError else Ok (Z.log2_up (to_double R)).

(** ** Attempt budget *)

Definition compute_attempts (min_v max_v : Z) (difficulty : string)
    (attempts_override : option Z) : result Z :=
  match attempts_override with
  | Some a => Ok (Z.max 1 a)
  | None =>
      let R := max_v - min_v + 1 in
      base <- ceil_log2 R ;;
      if (difficulty =? "easy")%string then Ok (base + 2)
      else if (difficulty =? "normal")%string then Ok (base + 1)
      else Ok base
  end.

(** ** math.ceil(math.log2(R)), with the rounding of log2 *)

(** [math.ceil(x)] on a float: the least int not below it. *)
Definition math_ceil (x : spec_float) : result Z :=
  match x with
  | S754_zero _ => Ok 0
  | S754_finite s m e =>
      Ok (if 0 <=? e then cond_Zopp s (Zpos m * 2 ^ e)
          else if s then - (Zpos m / 2 ^ (- e))
          else - ((- Zpos m) / 2 ^ (- e)))
  | S754_infinity _ => Raise OverflowError
  | S754_nan => Raise ValueError
  end.

(** [_PyLong_Frexp]: a positive int as [x * 2^e] with [0.5 <= x < 1], [x]
    rounded to 53 bits, ties to even. *)
Definition frexp (R : Z) : spec_float * Z :=
  let bits := Z.log2 R + 1 in
  let x := binary_normalize Float.prec Float.emax R (- bits) false in
  if SFeqb x (S754_finite false (2 ^ 52) (-52))
  then (S754_finite false (2 ^ 52) (-53), bits + 1)
  else (x, bits).

Section Libm.

(** The C library's [log2] on doubles. *)
Variable log2 : spec_float -> spec_float.

(** [math.log2(R)] for an int [R] (loghelper): [log2] of [float(R)], and
    [log2(x) + log2(2.0) * e] on the parts of [frexp] when the int does not
    fit a float. *)
Definition math_log2 (R : Z) : result spec_float :=
  if R <=? 0 then Raise ValueError
  else
    match Float.of_int R with
    | Ok x => Ok (log2 x)
    | Raise _ =>
        let '(x, e) := frexp R in
        Ok (SFadd Float.prec Float.emax (log2 x)
              (Float.mul (log2 (S754_finite false (2 ^ 52) (-51)))
                 (binary_normalize Float.prec Float.emax e 0 false)))
    end.

Definition math_ceil_log2 (R : Z) : result Z :=
  y <- math_log2 R ;; math_ceil y.

(** [compute_attempts] over that [math.log2]. *)
Definition compute_attempts_libm (min_v max_v : Z) (difficulty : string)
    (attempts_override : option Z) : result Z :=
  match attempts_override with
  | Some a => Ok (Z.max 1 a)
  | None =>
      let R := max_v - min_v + 1 in
      base <- math_ceil_log2 R ;;
      if (difficulty =? "easy")%string then Ok (base + 2)
      else if (difficulty =? "normal")%string then Ok (base + 1)
      else Ok base
  end.

End Libm.

(** What is asked of the C library at the double of a positive int [R]
    that fits one exactly: at a power of two the result [y] is the exact
    exponent; elsewhere [y = m * 2^e] is a binary64 number less than one
    unit in its last place away from [log2(R)], that is
    [2^(y - 2^e) < R < 2^(y + 2^e)], written on integers by raising both
    sides to the power [2^(-e)]. *)
Definition log2_accurate (R : Z) (y : spec_float) : Prop :=
  if R =? 2 ^ Z.log2 R then Float.of_int (Z.log2 R) = Ok y
  else
    match y with
    | S754_finite false m e =>
        bounded Float.prec Float.emax m e = true
        /\ e < 0
        /\ 2 ^ (Zpos m - 1) < R ^ (2 ^ (- e)) < 2 ^ (Zpos m + 1)
    | _ => False
    end.

(** ** Proximity hints *)

Inductive tier : Set := VeryHot | Hot | Warm | Cold.

(** [max(1, int(c * R))] *)
Definition threshold (c : spec_float) (R : Z) : result Z :=
  x <- Float.mul_int c R ;;
  t <- Float.to_int x ;;
  Ok (Z.max 1 t).

Definition proximity_label (guess secret min_v max_v : Z) : result tier :=
  let R := max_v - min_v + 1 in
  let d := Z.abs (guess - secret) in
  t1 <- threshold Float.c001 R ;;
  if d <=? t1 then Ok VeryHot else
  t3 <- threshold Float.c003 R ;;
  if d <=? t3 then Ok Hot else
  t7 <- threshold Float.c007 R ;;
  if d <=? t7 then Ok Warm else
  Ok Cold.

(** ** Score *)

Definition score_formula (attempts_total attempts_used : Z) : Z :=
  let base := 100 in
  let remaining := Z.max 0 (attempts_total - attempts_used) in
  let bonus := 10 * remaining in
  base + bonus.


(** ** Console *)

(** What the player's terminal delivers to [input()]: a line of text, or
    Ctrl-C; the end of the list is the end of input. *)
Inductive console : Type :=
| Line (raw : string)
| CtrlC.

(** What the program prints. The texts come from the language table; the
    message keeps the key and the values formatted into it. *)
Inductive message : Set :=
| Title
| Intro (min_v max_v attempts : Z)
| HelpProximity
| HelpQuiet
| Prompt (n : Z)
| InvalidInt
| OutOfRange (min_v max_v : Z)
| TooLow
| TooHigh
| Proximity (t : tier)
| Remaining (n : Z)
| Win (used : Z) (plural : bool)
| Lose (secret : Z).

(** ** JSON values, as [json.load] returns them *)

#[warnings="-register-all"]
Inductive json : Type :=
| JNull
| JBool (b : bool)
| JInt (n : Z)
| JFloat (x : spec_float)
| JStr (s : string)
| JList (l : list json)
| JObj (kv : list (string * json)).

(** The score file at [score_path]. *)
Inductive file : Type :=
| Missing                (* os.path.exists is false *)
| Unreadable             (* open raises *)
| Corrupt                (* json.load raises *)
| Holds (j : json).

Record store : Type := {
  content : file;
  writable : bool        (* open(path, "w") succeeds *)
}.

(** ** Command line *)

Record config : Type := {
  min_v : Z;
  max_v : Z;
  difficulty : string;
  attempts : option Z;
  proximity : bool;
  quiet : bool;
  version : bool
}.

(** How the guessing loop ends. [Spinning] is the loop cut short by the
    iteration bound of [guess_loop]; [play_round] never meets it
    ([play_round_finishes]). *)
Inductive loop_end : Type :=
| Exited (won : bool) (used : Z)
| Aborted (e : exn)
| Spinning.

(** How a round ends: [play_round] returns its triple or lets an
    exception through. *)
Inductive outcome : Type :=
| Returned (won : bool) (used : Z) (score : Z)
| Raised (e : exn)
| Unfinished.

(** How [main] begins: it leaves with a status before any round, an
    exception escapes, or the session starts. *)
Inductive diagnostic : Set := VersionText | ConfigErrorRange | ConfigErrorAttempts.

Inductive startup : Type :=
| Exit (printed : diagnostic) (status : Z)
| Uncaught (e : exn)
| Start (attempts_total : Z).

Section Game.

(** Python's [int(text.strip())] on a string: [None] when the stripped text
    is empty or [int] raises ValueError. *)
Variable int_of_str : string -> option Z.

(** [random.Random] and its [randint(a, b)]. *)
Variable rng : Type.
Variable randint : Z -> Z -> rng -> result (Z * rng).

Definition pick_secret (min_v max_v : Z) (g : rng) : result (Z * rng) :=
  randint min_v max_v g.

(** *** Reading a guess *)

(** One value of [read_int]: the lines read are consumed, a rejected line
    prints its message and consumes no attempt. *)
Fixpoint read_int (prompt : Z) (min_v max_v : Z) (inputs : list console)
    : list message * result Z * list console :=
  match inputs with
  | [] => ([Prompt prompt], Raise EOFError, [])
  | CtrlC :: rest => ([Prompt prompt], Raise KeyboardInterrupt, rest)
  | Line raw :: rest =>
      match int_of_str raw with
      | None =>
          let '(out, r, rest') := read_int prompt min_v max_v rest in
          (Prompt prompt :: InvalidInt :: out, r, rest')
      | Some val =>
          if (val <? min_v) || (val >? max_v) then
            let '(out, r, rest') := read_int prompt min_v max_v rest in
            (Prompt prompt :: OutOfRange min_v max_v :: out, r, rest')
          else ([Prompt prompt], Ok val, rest)
      end
  end.

(** *** Best score *)

Definition load_score (s : store) : option json :=
  match content s with
  | Missing => None
  | Unreadable => None
  | Corrupt => None
  | Holds j => Some j
  end.

(** [writable] stands for a write that goes through, [open(path, "w")]
    and [json.dump] both. A refused write is swallowed and leaves the
    store as it is, which is what a failing [open] does; a [json.dump]
    that fails after [open] has emptied the file is not modelled, and no
    statement is made about the file after a refused write. *)
Definition save_score (obj : json) (s : store) : store :=
  if writable s then {| content := Holds obj; writable := writable s |}
  else s.

(** Truth value of a JSON value, for [load_score(path) or {}]. *)
Definition truthy (j : json) : bool :=
  match j with
  | JNull => false
  | JBool b => b
  | JInt n => negb (n =? 0)
  | JFloat (S754_zero _) => false
  | JFloat _ => true
  | JStr s => negb (s =? "")%string
  | JList l => match l with [] => false | _ => true end
  | JObj kv => match kv with [] => false | _ => true end
  end.

(** [d.get(key)] on the dict [json.load] builds: the last pair with the
    key, [None] without one. *)
Fixpoint dict_get (key : string) (kv : list (string * json)) : option json :=
  match kv with
  | [] => None
  | (k, v) :: rest =>
      match dict_get key rest with
      | Some v' => Some v'
      | None => if (k =? key)%string then Some v else None
      end
  end.

(** [int(v)] on a value read from the file. *)
Definition py_int (v : json) : result Z :=
  match v with
  | JNull => Raise TypeError
  | JBool b => Ok (if b then 1 else 0)
  | JInt n => Ok n
  | JFloat x => Float.to_int x
  | JStr s => match int_of_str s with Some n => Ok n | None => Raise ValueError end
  | JList _ => Raise TypeError
  | JObj _ => Raise TypeError
  end.

(** [prev_obj.get("best_score")], with [None] and JSON null both Python's
    None. *)
Definition get_best_score (prev_obj : json) : result (option json) :=
  match prev_obj with
  | JObj kv =>
      match dict_get "best_score" kv with
      | Some JNull => Ok None
      | other => Ok other
      end
  | _ => Raise AttributeError
  end.

Definition update_and_store_score (now : Z) (new_score min_v max_v : Z)
    (s : store) : result (bool * option json * Z) * store :=
  let prev_obj :=
    match load_score s with
    | Some j => if truthy j then j else JObj []
    | None => JObj []
    end in
  let obj := JObj [("best_score"%string, JInt new_score);
                   ("best_range"%string, JList [JInt min_v; JInt max_v]);
                   ("timestamp"%string, JInt now)] in
  match get_best_score prev_obj with
  | Raise e => (Raise e, s)
  | Ok None => (Ok (true, None, new_score), save_score obj s)
  | Ok (Some v) =>
      match py_int v with
      | Raise e => (Raise e, s)
      | Ok p =>
          if new_score >? p
          then (Ok (true, Some v, new_score), save_score obj s)
          else (Ok (false, Some v, p), s)
      end
  end.

(** *** One round *)

Section Round.

Variable cfg : config.
Variables secret attempts_total : Z.

(** The loop body once a guess is read: the state [(won, used)] it
    leaves, [won] meaning the [break]. *)
Definition loop_body (used guess : Z) : list message * result (bool * Z) :=
  if guess =? secret then ([], Ok (true, used))
  else
    let direction := if guess <? secret then TooLow else TooHigh in
    let hint :=
      if proximity cfg then
        prox <- proximity_label guess secret (min_v cfg) (max_v cfg) ;;
        Ok [Proximity prox]
      else Ok [] in
    match hint with
    | Raise e => ([direction], Raise e)
    | Ok h =>
        let used := used + 1 in
        let remaining := attempts_total - used in
        (direction :: h ++ [Remaining remaining], Ok (false, used))
    end.

(** [while used < attempts_total: ...], at most [fuel] passes. *)
Fixpoint guess_loop (fuel : nat) (used : Z) (inputs : list console)
    : list message * loop_end :=
  if used <? attempts_total then
    match fuel with
    | O => ([], Spinning)
    | S fuel =>
        let '(out, r, rest) :=
          read_int (used + 1) (min_v cfg) (max_v cfg) inputs in
        match r with
        | Raise e => (out, Aborted e)
        | Ok guess =>
            let '(out', r') := loop_body used guess in
            match r' with
            | Raise e => (out ++ out', Aborted e)
            | Ok (true, used) => (out ++ out', Exited true used)
            | Ok (false, used) =>
                let '(out'', fin) := guess_loop fuel used rest in
                (out ++ out' ++ out'', fin)
            end
        end
    end
  else ([], Exited false used).

End Round.

Definition play_round (cfg : config) (g : rng) (inputs : list console)
    : list message * outcome :=
  match pick_secret (min_v cfg) (max_v cfg) g with
  | Raise e => ([], Raised e)
  | Ok (secret, _) =>
      match compute_attempts (min_v cfg) (max_v cfg) (difficulty cfg) (attempts cfg) with
      | Raise e => ([], Raised e)
      | Ok attempts_total =>
          let intro :=
            if negb (quiet cfg) then
              [Title; Intro (min_v cfg) (max_v cfg) attempts_total]
              ++ (if proximity cfg then [HelpProximity] else [])
              ++ (if quiet cfg then [HelpQuiet] else [])
            else [] in
          let '(out, fin) :=
            guess_loop cfg secret attempts_total (Z.to_nat attempts_total) 0 inputs in
          match fin with
          | Spinning => (intro ++ out, Unfinished)
          | Aborted e => (intro ++ out, Raised e)
          | Exited true used =>
              let plural := negb (used =? 1) in
              let shown := if used =? 0 then 1 else used in
              let score := score_formula attempts_total shown in
              (intro ++ out ++ [Win shown plural],
               Returned true (if used =? 0 then 1 else used) score)
          | Exited false used =>
              (intro ++ out ++ [Lose secret],
               Returned false (if used =? 0 then 0 else used) 0)
          end
      end
  end.

(** *** main, up to the session loop *)

Definition main_startup (args : config) : startup :=
  if version args then Exit VersionText 0
  else if negb (min_v args <? max_v args) then Exit ConfigErrorRange 2
  else
    match compute_attempts (min_v args) (max_v args) (difficulty args) (attempts args) with
    | Raise e => Uncaught e
    | Ok attempts => if attempts <? 1 then Exit ConfigErrorAttempts 2 else Start attempts
    end.

End Game.

(** ** A concrete environment, for evaluating the definitions *)

Module Sample.

(** Decimal literals with an optional minus sign. *)
Fixpoint digits (s : string) (acc : Z) : option Z :=
  match s with
  | EmptyString => Some acc
  | String c s' =>
      let n := Z.of_nat (Ascii.nat_of_ascii c) in
      if (48 <=? n) && (n <=? 57) then digits s' (10 * acc + (n - 48)) else None
  end.

Definition int_of_str (s : string) : option Z :=
  match s with
  | EmptyString => None
  | String "-"%char EmptyString => None
  | String "-"%char s' => option_map Z.opp (digits s' 0)
  | _ => digits s 0
  end.

(** A scripted random source: [randint] hands out the next value of the
    script. *)
Definition rng : Type := list Z.

Definition randint (a b : Z) (g : rng) : result (Z * rng) :=
  match g with
  | x :: g' => Ok (x, g')
  | [] => Ok (a, [])
  end.

Definition cfg (lo hi : Z) (level : string) (prox : bool) : config :=
  {| min_v := lo; max_v := hi; difficulty := level; attempts := None;
     proximity := prox; quiet := false; version := false |}.

End Sample.

(** ** Colour *)

(** [supports_color(stream)]. The stream is [None] when it has no
    [isatty] attribute, else the answer of its [isatty()]. *)
Definition supports_color (stream : option bool) (os_name : string) : bool :=
  match stream with
  | None => false
  | Some isatty =>
      if negb isatty then false
      else if (os_name =? "nt")%string then true
      else true
  end.

Definition esc : string := String (Ascii.ascii_of_nat 27) "[".

(** The [styles] dict of [paint]. *)
Definition styles (style : string) : option string :=
  if (style =? "red")%string then Some (esc ++ "31m")%string
  else if (style =? "green")%string then Some (esc ++ "32m")%string
  else if (style =? "yellow")%string then Some (esc ++ "33m")%string
  else if (style =? "blue")%string then Some (esc ++ "34m")%string
  else if (style =? "bold")%string then Some (esc ++ "1m")%string
  else if (style =? "reset")%string then Some (esc ++ "0m")%string
  else None.

Definition paint (text style : string) (enable : bool) : string :=
  if negb enable then text
  else
    ((match styles style with Some code => code | None => EmptyString end)
     ++ text ++ (esc ++ "0m"))%string.

(** ** Command line, in full *)

(** What [parser.parse_args()] hands back: an option left out is [None]
    or [false]. *)
Record namespace : Type := {
  ns_difficulty : string;
  ns_min_v : option Z;
  ns_max_v : option Z;
  ns_attempts : option Z;
  ns_proximity : bool;
  ns_seed : option Z;
  ns_no_score : bool;
  ns_lang : string;
  ns_no_color : bool;
  ns_quiet : bool;
  ns_version : bool
}.

(** The arguments [main] works with: those of a round, and the rest. *)
Record arguments : Type := {
  settings : config;
  seed : option Z;
  no_score : bool;
  lang : string;
  no_color : bool
}.

(** [parse_args], from the parsed options on: without both bounds the
    range is the preset of the difficulty. *)
Definition parse_args (ns : namespace) : arguments :=
  let bounds :=
    match ns_min_v ns, ns_max_v ns with
    | Some lo, Some hi => (lo, hi)
    | _, _ =>
        if (ns_difficulty ns =? "easy")%string then (1, 50)
        else if (ns_difficulty ns =? "normal")%string then (1, 100)
        else (1, 1000)
    end in
  {| settings :=
       {| min_v := fst bounds; max_v := snd bounds; difficulty := ns_difficulty ns;
          attempts := ns_attempts ns; proximity := ns_proximity ns;
          quiet := ns_quiet ns; version := ns_version ns |};
     seed := ns_seed ns;
     no_score := ns_no_score ns;
     lang := ns_lang ns;
     no_color := ns_no_color ns |}.

(** [color_on] of [main]. *)
Definition color_on (stdout : option bool) (os_name : string) (args : arguments) : bool :=
  supports_color stdout os_name && negb (no_color args) && negb (quiet (settings args)).

(** ** Yes or no *)

(** A character, as its code point. *)
Definition code (c : ascii) : Z := Z.of_N (N_of_ascii c).

(** [set("sSyYsíSÍ")] and [set("yY")]; [set("nNnoNO")] and [set("nN")]. *)
Definition YES_CHARS (lang : string) : option (list Z) :=
  if (lang =? "es")%string then
    Some [code "s"; code "S"; code "y"; code "Y"; code "s"; 237; code "S"; 205]
  else if (lang =? "en")%string then Some [code "y"; code "Y"]
  else None.

Definition NO_CHARS (lang : string) : option (list Z) :=
  if (lang =? "es")%string then
    Some [code "n"; code "N"; code "n"; code "o"; code "N"; code "O"]
  else if (lang =? "en")%string then Some [code "n"; code "N"]
  else None.

(** [table.get(lang, table["en"])] *)
Definition chars_for (table : string -> option (list Z)) (lang : string) : list Z :=
  match table lang with
  | Some chars => chars
  | None => match table "en"%string with Some chars => chars | None => [] end
  end.

(** [ch in chars] *)
Definition char_in (ch : Z) (chars : list Z) : bool := existsb (Z.eqb ch) chars.

(** What [main] prints around the rounds. *)
Inductive printed : Type :=
| Diagnostic (d : diagnostic)
| InRound (m : message)
| Score (score : Z)
| NewRecord (prev : option json) (now : Z)
| PlayAgain
| Goodbye
| AbortedByUser
| InputEnded
| UnexpectedError (e : exn).

(** How [main] ends: it returns a status or lets an exception through.
    [Endless] is the session cut short by the iteration bound of
    [session]. *)
Inductive ending : Type :=
| Status (code : Z)
| Escapes (e : exn)
| Endless.

(** [except Exception]: KeyboardInterrupt is a BaseException only. *)
Definition is_Exception (e : exn) : bool :=
  match e with
  | KeyboardInterrupt => false
  | _ => true
  end.

Section Session.

Variable int_of_str : string -> option Z.
Variable rng : Type.
Variable randint : Z -> Z -> rng -> result (Z * rng).

(** The first character of [resp.strip()]: [None] when the stripped text
    is empty. *)
Variable first_char : string -> option Z.

(** [int(time.time())] during the n-th round of the session. *)
Variable clock : nat -> Z.

(** [ask_yes_no]: the prompts printed, the answer, the input left. *)
Fixpoint ask_yes_no {A : Type} (prompt : A) (default_yes : bool) (lang : string)
    (inputs : list console) : list A * bool * list console :=
  let yes_set := chars_for YES_CHARS lang in
  let no_set := chars_for NO_CHARS lang in
  match inputs with
  | [] => ([prompt], false, [])
  | CtrlC :: rest => ([prompt], false, rest)
  | Line resp :: rest =>
      match first_char resp with
      | None => ([prompt], default_yes, rest)
      | Some ch =>
          if char_in ch yes_set then ([prompt], true, rest)
          else if char_in ch no_set then ([prompt], false, rest)
          else
            let '(out, answer, rest') := ask_yes_no prompt default_yes lang rest in
            (prompt :: out, answer, rest')
      end
  end.

(** The guessing loop of [guess_loop], with the input it leaves unread. *)
Fixpoint guess_loop_io (cfg : config) (secret attempts_total : Z) (fuel : nat)
    (used : Z) (inputs : list console) : list message * loop_end * list console :=
  if used <? attempts_total then
    match fuel with
    | O => ([], Spinning, inputs)
    | S fuel =>
        let '(out, r, rest) :=
          read_int int_of_str (used + 1) (min_v cfg) (max_v cfg) inputs in
        match r with
        | Raise e => (out, Aborted e, rest)
        | Ok guess =>
            let '(out', r') := loop_body cfg secret attempts_total used guess in
            match r' with
            | Raise e => (out ++ out', Aborted e, rest)
            | Ok (true, used) => (out ++ out', Exited true used, rest)
            | Ok (false, used) =>
                let '(out'', fin, rest') :=
                  guess_loop_io cfg secret attempts_total fuel used rest in
                (out ++ out' ++ out'', fin, rest')
            end
        end
    end
  else ([], Exited false used, inputs).

(** [play_round] within a session: its messages and outcome
    ([play_round_io_round]), the input it leaves unread and the generator
    after the secret is drawn. *)
Definition play_round_io (cfg : config) (g : rng) (inputs : list console)
    : list message * outcome * list console * rng :=
  match pick_secret rng randint (min_v cfg) (max_v cfg) g with
  | Raise e => ([], Raised e, inputs, g)
  | Ok (secret, g') =>
      match compute_attempts (min_v cfg) (max_v cfg) (difficulty cfg) (attempts cfg) with
      | Raise e => ([], Raised e, inputs, g')
      | Ok attempts_total =>
          let intro :=
            if negb (quiet cfg) then
              [Title; Intro (min_v cfg) (max_v cfg) attempts_total]
              ++ (if proximity cfg then [HelpProximity] else [])
              ++ (if quiet cfg then [HelpQuiet] else [])
            else [] in
          let '(out, fin, rest) :=
            guess_loop_io cfg secret attempts_total (Z.to_nat attempts_total) 0 inputs in
          match fin with
          | Spinning => (intro ++ out, Unfinished, rest, g')
          | Aborted e => (intro ++ out, Raised e, rest, g')
          | Exited true used =>
              let plural := negb (used =? 1) in
              let shown := if used =? 0 then 1 else used in
              let score := score_formula attempts_total shown in
              (intro ++ out ++ [Win shown plural],
               Returned true (if used =? 0 then 1 else used) score, rest, g')
          | Exited false used =>
              (intro ++ out ++ [Lose secret],
               Returned false (if used =? 0 then 0 else used) 0, rest, g')
          end
      end
  end.

(** The score of a won round, shown and recorded: the messages, the
    exception of the update if any, and the store afterwards. *)
Definition report_score (now : Z) (args : arguments) (score : Z) (s : store)
    : list printed * result unit * store :=
  let '(r, s') :=
    update_and_store_score int_of_str now score
      (min_v (settings args)) (max_v (settings args)) s in
  match r with
  | Raise e => ([Score score], Raise e, s')
  | Ok (is_record, prev, now) =>
      (Score score :: (if is_record then [NewRecord prev now] else []), Ok tt, s')
  end.

(** [while True: ...] of [main], inside its [try]; at most [fuel]
    rounds. *)
Fixpoint session (fuel : nat) (round : nat) (args : arguments) (g : rng) (s : store)
    (inputs : list console) : list printed * ending * store :=
  match fuel with
  | O => ([], Endless, s)
  | S fuel =>
      let '(out, res, rest, g') := play_round_io (settings args) g inputs in
      let shown := map InRound out in
      match res with
      | Unfinished => (shown, Endless, s)
      | Raised KeyboardInterrupt => (shown ++ [AbortedByUser], Status 130, s)
      | Raised EOFError => (shown ++ [InputEnded], Status 1, s)
      | Raised e =>
          if is_Exception e then (shown ++ [UnexpectedError e], Status 1, s)
          else (shown, Escapes e, s)
      | Returned won used score =>
          let '(out1, r, s1) :=
            if won && negb (no_score args)
            then report_score (clock round) args score s
            else ([], Ok tt, s) in
          match r with
          | Raise e =>
              if is_Exception e
              then (shown ++ out1 ++ [UnexpectedError e], Status 1, s1)
              else (shown ++ out1, Escapes e, s1)
          | Ok _ =>
              let '(prompts, again, rest') :=
                ask_yes_no PlayAgain true (lang args) rest in
              if negb again then
                (shown ++ out1 ++ prompts
                 ++ (if negb (quiet (settings args)) then [Goodbye] else []),
                 Status 0, s1)
              else
                let '(out2, fin, s2) := session fuel (S round) args g' s1 rest' in
                (shown ++ out1 ++ prompts ++ out2, fin, s2)
          end
      end
  end.

(** [main]: [ns] is what the option parser returns, [g] the generator
    made from the seed, [s] the score file, [inputs] the terminal. *)
Definition main (ns : namespace) (g : rng) (s : store) (inputs : list console)
    : list printed * ending * store :=
  let args := parse_args ns in
  match main_startup (settings args) with
  | Exit d status => ([Diagnostic d], Status status, s)
  | Uncaught e => ([], Escapes e, s)
  | Start _ => session (S (List.length inputs)) 0 args g s inputs
  end.

End Session.

(** A terminal for evaluating the session. *)
Module SampleSession.

(** Leading ASCII blanks skipped, then the first byte. *)
Fixpoint first_char (s : string) : option Z :=
  match s with
  | EmptyString => None
  | String c s' =>
      let n := code c in
      if (n =? 32) || ((9 <=? n) && (n <=? 13)) then first_char s' else Some n
  end.

Definition clock (round : nat) : Z := 1000 + Z.of_nat round.

Definition options (lo hi : option Z) (level : string) : namespace :=
  {| ns_difficulty := level; ns_min_v := lo; ns_max_v := hi; ns_attempts := None;
     ns_proximity := false; ns_seed := None; ns_no_score := false;
     ns_lang := "en"; ns_no_color := false; ns_quiet := false;
     ns_version := false |}.

End SampleSession.

(** A C library for evaluating the definitions: glibc's [log2] at the
    doubles 50.0, 100.0 and 1000.0, and elsewhere the exponent of the
    double, which is its [log2] at every power of two. *)
Module SampleLibm.

Definition log2 (x : spec_float) : spec_float :=
  match Float.to_int x with
  | Ok n =>
      if n =? 50 then S754_finite false 0x16934f0979a371 (-50)
      else if n =? 100 then S754_finite false 0x1a934f0979a371 (-50)
      else if n =? 1000 then S754_finite false 0x13ee7b471b3a95 (-49)
      else binary_normalize Float.prec Float.emax (Z.log2 n) 0 false
  | Raise _ => x
  end.

End SampleLibm.


(** ** Vocabulary of the statements *)

(** The record [update_and_store_score] writes. *)
Definition record_of (now new_score lo hi : Z) : json :=
  JObj [("best_score"%string, JInt new_score);
        ("best_range"%string, JList [JInt lo; JInt hi]);
        ("timestamp"%string, JInt now)].

(** [R = max - min + 1] *)
Definition range_size (cfg : config) : Z := max_v cfg - min_v cfg + 1.

(** An input event [read_int] turns down: text that is no integer, or an
    integer outside the range. *)
Definition rejected (int_of_str : string -> option Z) (lo hi : Z) (c : console) : Prop :=
  match c with
  | Line raw =>
      match int_of_str raw with
      | None => True
      | Some v => v < lo \/ hi < v
      end
  | CtrlC => False
  end.

(** A line [read_int] accepts as a guess other than the secret. *)
Definition miss (int_of_str : string -> option Z) (lo hi secret : Z) (c : console) : Prop :=
  match c with
  | Line raw => exists v, int_of_str raw = Some v /\ lo <= v <= hi /\ v <> secret
  | CtrlC => False
  end.

(** The remaining-attempts figures among the printed messages. *)
Fixpoint remainings (out : list message) : list Z :=
  match out with
  | [] => []
  | Remaining n :: out' => n :: remainings out'
  | _ :: out' => remainings out'
  end.

(** [r - 1, r - 2, ..., r - n] *)
Fixpoint countdown (r : Z) (n : nat) : list Z :=
  match n with
  | O => []
  | S n' => (r - 1) :: countdown (r - 1) n'
  end.

(** Messages other than the proximity hints. *)
Definition plain (m : message) : bool :=
  match m with
  | Proximity _ => false
  | HelpProximity => false
  | _ => true
  end.

Definition with_proximity (b : bool) (cfg : config) : config :=
  {| min_v := min_v cfg; max_v := max_v cfg; difficulty := difficulty cfg;
     attempts := attempts cfg; proximity := b; quiet := quiet cfg;
     version := version cfg |}.

(** The tiers of the claim, with exact thresholds [floor(p * R / 100)]. *)
Definition exact_tier (d R : Z) : tier :=
  if d <=? Z.max 1 (R / 100) then VeryHot
  else if d <=? Z.max 1 (3 * R / 100) then Hot
  else if d <=? Z.max 1 (7 * R / 100) then Warm
  else Cold.

(** The shift record of [SpecFloat] after [j] right shifts of [M]: the
    quotient, the last bit shifted out and whether anything below it was
    set. *)
Definition shifted (M j : Z) : shr_record :=
  if j =? 0 then Build_shr_record M false false
  else Build_shr_record (M / 2 ^ j) (Z.testbit M (j - 1)) (negb (M mod 2 ^ (j - 1) =? 0)).

(** [N * 2^e] rounded to binary64, nearest even: what [SpecFloat]'s
    [binary_round_aux] computes on an exact positive input
    ([binary_round_aux_spec]). *)
Definition round_to_float (sx : bool) (N e : Z) : spec_float :=
  let k := Z.max (Z.log2 N + 1 + e - 53) (-1074) - e in
  let m := if k <=? 0 then N else round_half_even N k in
  let e' := if k <=? 0 then e else e + k in
  if m =? 0 then S754_zero sx
  else if m =? 2 ^ 53 then
    (if e' + 1 <=? 971 then S754_finite sx (2 ^ 52)%positive (e' + 1) else S754_infinity sx)
  else if e' <=? 971 then S754_finite sx (Z.to_pos m) e' else S754_infinity sx.

(** How hot a tier is. *)
Definition heat (t : tier) : Z :=
  match t with
  | VeryHot => 3
  | Hot => 2
  | Warm => 1
  | Cold => 0
  end.

(** The messages of the intro block of a round. *)
Definition intro_message (m : message) : bool :=
  match m with
  | Title => true
  | Intro _ _ _ => true
  | HelpProximity => true
  | HelpQuiet => true
  | _ => false
  end.

Definition with_quiet (b : bool) (cfg : config) : config :=
  {| min_v := min_v cfg; max_v := max_v cfg; difficulty := difficulty cfg;
     attempts := attempts cfg; proximity := proximity cfg; quiet := b;
     version := version cfg |}.

Definition quiet_arguments (b : bool) (args : arguments) : arguments :=
  {| settings := with_quiet b (settings args); seed := seed args;
     no_score := no_score args; lang := lang args; no_color := no_color args |}.

(** The style [play_round] paints a message in, if it paints it. *)
Definition style_of (m : message) : option string :=
  match m with
  | Title => Some "bold"%string
  | HelpProximity => Some "blue"%string
  | TooLow => Some "yellow"%string
  | TooHigh => Some "yellow"%string
  | Win _ _ => Some "green"%string
  | Lose _ => Some "red"%string
  | _ => None
  end.

(** The line printed for a message: its text from the language table,
    painted where [play_round] paints it. *)
Definition line (text : message -> string) (color_on : bool) (m : message) : string :=
  match style_of m with
  | Some style => paint (text m) style color_on
  | None => text m
  end.

(** The best score a store holds as an int. *)
Definition stored_best (s : store) : option Z :=
  match content s with
  | Holds (JObj kv) =>
      match dict_get "best_score" kv with
      | Some (JInt b) => Some b
      | _ => None
      end
  | _ => None
  end.

(** A store [load_score] and [get_best_score] find no record in: no
    usable file, a falsy value, or a dict without a [best_score] other
    than null. *)
Definition no_record (s : store) : Prop :=
  match content s with
  | Holds j =>
      truthy j = false
      \/ exists kv, j = JObj kv
           /\ (dict_get "best_score" kv = None \/ dict_get "best_score" kv = Some JNull)
  | _ => True
  end.

(** A session of wins scored one after the other: the store after the
    updates, [None] if one of them raises. *)
Fixpoint record_wins (int_of_str : string -> option Z) (lo hi : Z)
    (wins : list (Z * Z)) (s : store) : option store :=
  match wins with
  | [] => Some s
  | (now, score) :: wins' =>
      match update_and_store_score int_of_str now score lo hi s with
      | (Ok _, s') => record_wins int_of_str lo hi wins' s'
      | (Raise _, _) => None
      end
  end.

(** The largest of [x] and the scores in [l]. *)
Definition best_of (x : Z) (l : list (Z * Z)) : Z :=
  fold_left (fun b w => Z.max b (snd w)) l x.

(** An answer [ask_yes_no] asks again on: text that starts with a character
    of neither set. *)
Definition undecided (first_char : string -> option Z) (lang : string) (c : console) : Prop :=
  match c with
  | Line resp =>
      exists ch, first_char resp = Some ch
        /\ char_in ch (chars_for YES_CHARS lang) = false
        /\ char_in ch (chars_for NO_CHARS lang) = false
  | CtrlC => False
  end.

(** Bounds [l * 2^e <= v <= u * 2^e] of a power, kept to [p] bits: one
    squaring, and [R^(2^n)] by [n] squarings. *)
Definition square_bounds (p : Z) (b : Z * Z * Z) : Z * Z * Z :=
  let '(l, u, e) := b in
  let s := Z.max 0 (Z.log2 (u * u) + 1 - p) in
  (l * l / 2 ^ s, (if s =? 0 then u * u else u * u / 2 ^ s + 1), 2 * e + s).

Fixpoint power_bounds (p R : Z) (n : nat) : Z * Z * Z :=
  match n with
  | O => (R, R, 0)
  | S n' => square_bounds p (power_bounds p R n')
  end.

(** Whether the bounds of [R^(2^(-e))] to [p] bits put it strictly
    between [2^(m-1)] and [2^(m+1)]. *)
Definition within_ulp_check (p R m e : Z) : bool :=
  let '(l, u, x) := power_bounds p R (Z.to_nat (- e)) in
  (0 <=? m - 1 - x) && (2 ^ (m - 1 - x) <? l) && (u <? 2 ^ (m + 1 - x)).

(** * Properties *)

(** ** Binary64 rounding *)

Lemma digits2_pos_size (p : positive) : digits2_pos p = Pos.size p.
Proof. induction p; simpl; congruence. Qed.

Lemma digits2_pos_log2 (p : positive) : Zpos (digits2_pos p) = Z.log2 (Zpos p) + 1.
Proof. rewrite digits2_pos_size. destruct p; simpl; lia. Qed.

Lemma Zdigits2_log2 (n : Z) : 0 < n -> Zdigits2 n = Z.log2 n + 1.
Proof. destruct n; try lia. intros _. apply digits2_pos_log2. Qed.

Lemma shr_1_nonneg (m : Z) (r s : bool) :
  0 <= m -> shr_1 (Build_shr_record m r s) = Build_shr_record (m / 2) (Z.odd m) (r || s).
Proof.
  intros Hm. rewrite <- Z.div2_div.
  destruct m as [|p|p]; [reflexivity | | lia]. destruct p; reflexivity.
Qed.

Lemma mod_pow2_split (M j : Z) :
  0 < j -> M mod 2 ^ j = M mod 2 ^ (j - 1) + 2 ^ (j - 1) * (if Z.testbit M (j - 1) then 1 else 0).
Proof.
  intros Hj. replace (2 ^ j) with (2 ^ (j - 1) * 2).
  2:{ replace j with (j - 1 + 1) at 2 by lia. rewrite Z.pow_add_r by lia. reflexivity. }
  rewrite Z.rem_mul_r by lia. f_equal. f_equal.
  rewrite <- Z.testbit_spec' by lia.
  destruct (Z.testbit M (j - 1)); reflexivity.
Qed.

Lemma shr_1_shifted (M j : Z) :
  0 <= M -> 0 <= j -> shr_1 (shifted M j) = shifted M (j + 1).
Proof.
  intros HM Hj. unfold shifted.
  destruct (j =? 0) eqn:E0.
  - assert (j = 0) by lia. subst j. simpl (0 + 1 =? 0). cbv iota.
    rewrite shr_1_nonneg by assumption.
    change (0 + 1 - 1) with 0. change (0 + 1) with 1.
    rewrite Z.pow_1_r, Z.pow_0_r, Z.mod_1_r, Z.bit0_odd. reflexivity.
  - destruct (j + 1 =? 0) eqn:E1; [lia|].
    rewrite shr_1_nonneg by (apply Z.div_pos; lia).
    replace (j + 1 - 1) with j by lia.
    f_equal.
    + rewrite Z.div_div by lia. f_equal. rewrite Z.pow_add_r by lia. reflexivity.
    + rewrite Z.testbit_odd, Z.shiftr_div_pow2 by lia. reflexivity.
    + rewrite (mod_pow2_split M j) by lia.
      pose proof (Z.mod_pos_bound M (2 ^ (j - 1)) ltac:(lia)).
      pose proof (Z.pow_pos_nonneg 2 (j - 1) ltac:(lia) ltac:(lia)).
      destruct (Z.testbit M (j - 1)); simpl.
      * symmetry. apply negb_true_iff, Z.eqb_neq. lia.
      * rewrite Z.mul_0_r, Z.add_0_r. reflexivity.
Qed.

Lemma iter_shr_1_shifted (M : Z) (p : positive) :
  0 <= M -> forall j, 0 <= j -> iter_pos shr_1 p (shifted M j) = shifted M (j + Zpos p).
Proof.
  intros HM. induction p as [p IH|p IH|]; intros j Hj; simpl.
  - rewrite shr_1_shifted, !IH by lia. f_equal; lia.
  - rewrite !IH by lia. f_equal; lia.
  - now apply shr_1_shifted.
Qed.

Lemma round_shifted (M k : Z) :
  0 <= M -> 0 < k ->
  round_nearest_even (shr_m (shifted M k)) (loc_of_shr_record (shifted M k))
  = round_half_even M k.
Proof.
  intros HM Hk. unfold shifted, round_half_even.
  destruct (k =? 0) eqn:E0; [lia|]. simpl shr_m.
  rewrite (mod_pow2_split M k) by lia.
  pose proof (Z.mod_pos_bound M (2 ^ (k - 1)) ltac:(lia)) as Hb.
  assert (H2 : 2 ^ k = 2 * 2 ^ (k - 1)).
  { replace k with (k - 1 + 1) at 1 by lia. rewrite Z.pow_add_r by lia. simpl (2 ^ 1). lia. }
  destruct (Z.testbit M (k - 1)); destruct (Z.eqb_spec (M mod 2 ^ (k - 1)) 0) as [Es|Es];
    cbv beta iota delta [loc_of_shr_record round_nearest_even negb].
  - replace (_ ?= _) with Eq; [reflexivity|]. symmetry. apply Z.compare_eq_iff. lia.
  - replace (_ ?= _) with Gt; [reflexivity|]. symmetry. apply Z.compare_gt_iff. lia.
  - replace (_ ?= _) with Lt; [reflexivity|]. symmetry. apply Z.compare_lt_iff. lia.
  - replace (_ ?= _) with Lt; [reflexivity|]. symmetry. apply Z.compare_lt_iff. lia.
Qed.

Lemma round_half_even_bounds (n k : Z) :
  n / 2 ^ k <= round_half_even n k <= n / 2 ^ k + 1.
Proof.
  unfold round_half_even. destruct (_ ?= _); [destruct (Z.even _)| |]; lia.
Qed.

Lemma round_half_even_le (n k b : Z) :
  0 <= k -> n < 2 ^ k * b -> round_half_even n k <= b.
Proof.
  intros Hk Hn. pose proof (round_half_even_bounds n k).
  assert (n / 2 ^ k < b); [|lia].
  apply Z.div_lt_upper_bound; lia.
Qed.

Lemma shr_noop (mrs : shr_record) (e k : Z) : k <= 0 -> shr mrs e k = (mrs, e).
Proof. destruct k; try reflexivity. lia. Qed.

Lemma shr_exact (N e k : Z) :
  0 <= N -> 0 < k ->
  shr (Build_shr_record N false false) e k = (shifted N k, e + k).
Proof.
  intros HN Hk. destruct k as [|q|q]; try lia. unfold shr.
  change (Build_shr_record N false false) with (shifted N 0).
  rewrite iter_shr_1_shifted by lia. reflexivity.
Qed.

Lemma binary_round_aux_spec (sx : bool) (p : positive) (e : Z) :
  binary_round_aux 53 1024 sx (Zpos p) e loc_Exact = round_to_float sx (Zpos p) e.
Proof.
  unfold binary_round_aux, round_to_float, shr_fexp, fexp.
  change (emin 53 1024) with (-1074).
  rewrite Zdigits2_log2 by lia.
  set (N := Zpos p). assert (HN : 0 < N) by (unfold N; lia).
  set (k := Z.max (Z.log2 N + 1 + e - 53) (-1074) - e).
  pose proof (Z.log2_spec N HN) as Hlog.
  change (shr_record_of_loc N loc_Exact) with (Build_shr_record N false false).
  destruct (Z.leb_spec k 0) as [Hk|Hk].
  - rewrite shr_noop by assumption.
    change (round_nearest_even _ _) with N.
    rewrite Zdigits2_log2 by lia. fold k.
    change (shr_record_of_loc N loc_Exact) with (Build_shr_record N false false).
    rewrite shr_noop by assumption. simpl shr_m.
    assert (N < 2 ^ 53).
    { eapply Z.lt_le_trans; [apply Hlog|]. apply Z.pow_le_mono_r; lia. }
    destruct (Z.eqb_spec N 0); [lia|]. destruct (Z.eqb_spec N (2 ^ 53)); [lia|].
    reflexivity.
  - rewrite shr_exact by lia. rewrite round_shifted by lia.
    set (m := round_half_even N k).
    assert (Hm : 0 <= m <= 2 ^ 53).
    { split.
      - pose proof (round_half_even_bounds N k). pose proof (Z.div_pos N (2 ^ k)). lia.
      - apply round_half_even_le; [lia|].
        eapply Z.lt_le_trans; [apply Hlog|]. rewrite <- Z.pow_add_r by lia.
        apply Z.pow_le_mono_r; lia. }
    change (shr_record_of_loc m loc_Exact) with (Build_shr_record m false false).
    destruct (Z.eqb_spec m 0) as [H0|H0].
    + rewrite H0. rewrite shr_noop by (simpl Zdigits2; lia). reflexivity.
    + rewrite Zdigits2_log2 by lia.
      destruct (Z.eqb_spec m (2 ^ 53)) as [H1|H1].
      * rewrite H1. rewrite Z.log2_pow2 by lia.
        replace (Z.max (53 + 1 + (e + k) - 53) (-1074) - (e + k)) with 1 by lia.
        reflexivity.
      * assert (Z.log2 m < 53) by (apply Z.log2_lt_pow2; lia).
        rewrite shr_noop by lia. simpl shr_m.
        destruct m; try lia. reflexivity.
Qed.

Lemma round_half_even_near (n k : Z) :
  0 < k ->
  2 * (2 ^ k * round_half_even n k) <= 2 * n + 2 ^ k
  /\ 2 * n <= 2 * (2 ^ k * round_half_even n k) + 2 ^ k.
Proof.
  intros Hk. unfold round_half_even.
  pose proof (Z.pow_pos_nonneg 2 k ltac:(lia) ltac:(lia)) as HK.
  pose proof (Z.div_mod n (2 ^ k) ltac:(lia)) as Hdm.
  pose proof (Z.mod_pos_bound n (2 ^ k) HK) as Hr.
  destruct (Z.compare_spec (2 * (n mod 2 ^ k)) (2 ^ k)) as [E|E|E];
    [destruct (Z.even _)| |]; lia.
Qed.

(** A rounded product or conversion is a zero, a finite float within the
    binary64 bounds, or an overflow. *)
Lemma round_to_float_cases (sx : bool) (N e : Z) :
  0 < N ->
  round_to_float sx N e = S754_zero sx
  \/ round_to_float sx N e = S754_infinity sx
  \/ exists m e', round_to_float sx N e = S754_finite sx m e'
                  /\ Zpos m < 2 ^ 53 /\ e' <= 971.
Proof.
  intros HN. unfold round_to_float.
  set (k := Z.max (Z.log2 N + 1 + e - 53) (-1074) - e).
  pose proof (Z.log2_spec N HN) as Hlog.
  set (m := if k <=? 0 then N else round_half_even N k).
  assert (Hm : 0 <= m <= 2 ^ 53).
  { unfold m. destruct (Z.leb_spec k 0).
    - split; [lia|]. apply Z.lt_le_incl.
      eapply Z.lt_le_trans; [apply Hlog|]. apply Z.pow_le_mono_r; lia.
    - split.
      + pose proof (round_half_even_bounds N k). pose proof (Z.div_pos N (2 ^ k)). lia.
      + apply round_half_even_le; [lia|].
        eapply Z.lt_le_trans; [apply Hlog|]. rewrite <- Z.pow_add_r by lia.
        apply Z.pow_le_mono_r; lia. }
  destruct (Z.eqb_spec m 0); [now left|]. right.
  destruct (Z.eqb_spec m (2 ^ 53)).
  - destruct (Z.leb_spec ((if k <=? 0 then e else e + k) + 1) 971); [right|now left].
    eexists _, _. split; [reflexivity|]. split; [reflexivity | lia].
  - destruct (Z.leb_spec (if k <=? 0 then e else e + k) 971); [right|now left].
    eexists _, _. split; [reflexivity|]. split; [|lia].
    rewrite Z2Pos.id by lia. lia.
Qed.

(** No overflow when the exponent leaves room for the digits. *)
Lemma round_to_float_fits (sx : bool) (N e : Z) :
  0 < N -> N < 2 ^ 106 -> e <= 915 ->
  round_to_float sx N e <> S754_infinity sx.
Proof.
  intros HN Hlt He. unfold round_to_float.
  set (k := Z.max (Z.log2 N + 1 + e - 53) (-1074) - e).
  assert (Z.log2 N < 106) by (apply Z.log2_lt_pow2; lia).
  assert (Hk : (if k <=? 0 then e else e + k) <= 968).
  { destruct (Z.leb_spec k 0); lia. }
  destruct (_ =? 0); [discriminate|].
  destruct (_ =? 2 ^ 53).
  - destruct (Z.leb_spec ((if k <=? 0 then e else e + k) + 1) 971); [discriminate | lia].
  - destruct (Z.leb_spec (if k <=? 0 then e else e + k) 971); [discriminate | lia].
Qed.

(** ** Float operations of the hints *)

Lemma of_int_cases (n : Z) (x : spec_float) :
  Float.of_int n = Ok x ->
  (exists s, x = S754_zero s)
  \/ exists s m e, x = S754_finite s m e /\ Zpos m < 2 ^ 53 /\ e <= 971.
Proof.
  unfold Float.of_int, binary_normalize, binary_round, Float.prec, Float.emax.
  destruct n as [|p|p].
  - intros H; inversion H. left; exists false; reflexivity.
  - destruct (shl_align _ _ _) as [mz ez]. rewrite binary_round_aux_spec.
    destruct (round_to_float_cases false (Zpos mz) ez ltac:(lia))
      as [-> | [-> | [m [e [-> Hb]]]]]; intros H; inversion H.
    + left; exists false; reflexivity.
    + right; exists false, m, e. split; [reflexivity | exact Hb].
  - destruct (shl_align _ _ _) as [mz ez]. rewrite binary_round_aux_spec.
    destruct (round_to_float_cases true (Zpos mz) ez ltac:(lia))
      as [-> | [-> | [m [e [-> Hb]]]]]; intros H; inversion H.
    + left; exists true; reflexivity.
    + right; exists true, m, e. split; [reflexivity | exact Hb].
Qed.

(** A constant below 1 times a finite float is a zero or a finite float:
    [int] of it is defined. *)
Lemma to_int_mul_defined (cm : positive) (ce : Z) (x : spec_float) :
  Zpos cm < 2 ^ 53 -> ce <= -56 ->
  ((exists s, x = S754_zero s)
   \/ exists s m e, x = S754_finite s m e /\ Zpos m < 2 ^ 53 /\ e <= 971) ->
  exists t, Float.to_int (Float.mul (S754_finite false cm ce) x) = Ok t.
Proof.
  intros Hcm Hce [[s ->] | [s [m [e [-> [Hm He]]]]]].
  - exists 0. reflexivity.
  - unfold Float.mul, SFmul, Float.prec, Float.emax. rewrite binary_round_aux_spec.
    assert (HN : Zpos (cm * m) < 2 ^ 106).
    { rewrite Pos2Z.inj_mul. change (2 ^ 106) with (2 ^ 53 * 2 ^ 53).
      apply Z.mul_lt_mono_nonneg; lia. }
    pose proof (round_to_float_fits (xorb false s) (Zpos (cm * m)) (ce + e)
                  ltac:(lia) HN ltac:(lia)) as Hfit.
    destruct (round_to_float_cases (xorb false s) (Zpos (cm * m)) (ce + e) ltac:(lia))
      as [-> | [E | [m' [e' [-> _]]]]].
    + exists 0. reflexivity.
    + contradiction.
    + eexists. unfold Float.to_int. reflexivity.
Qed.

Lemma threshold_defined (cm : positive) (ce : Z) (R : Z) (x : spec_float) :
  Zpos cm < 2 ^ 53 -> ce <= -56 ->
  Float.of_int R = Ok x ->
  exists t, threshold (S754_finite false cm ce) R = Ok t.
Proof.
  intros Hcm Hce Hx. unfold threshold, Float.mul_int. rewrite Hx. cbn [bind].
  destruct (to_int_mul_defined cm ce x Hcm Hce (of_int_cases R x Hx)) as [t ->].
  cbn [bind]. eexists; reflexivity.
Qed.

(** The hint is computed whenever the range size converts to a float. *)
Lemma proximity_label_defined (guess secret lo hi : Z) (x : spec_float) :
  Float.of_int (hi - lo + 1) = Ok x ->
  exists t, proximity_label guess secret lo hi = Ok t.
Proof.
  intros Hx. unfold proximity_label.
  destruct (threshold_defined 0x147ae147ae147b (-59) _ x ltac:(lia) ltac:(lia) Hx) as [t1 H1].
  destruct (threshold_defined 0x1eb851eb851eb8 (-58) _ x ltac:(lia) ltac:(lia) Hx) as [t3 H3].
  destruct (threshold_defined 0x11eb851eb851ec (-56) _ x ltac:(lia) ltac:(lia) Hx) as [t7 H7].
  unfold Float.c001, Float.c003, Float.c007. rewrite H1. cbn [bind].
  destruct (_ <=? t1); [eexists; reflexivity|]. rewrite H3. cbn [bind].
  destruct (_ <=? t3); [eexists; reflexivity|]. rewrite H7. cbn [bind].
  destruct (_ <=? t7); eexists; reflexivity.
Qed.

(** The float literals are the doubles nearest to 1/100, 3/100 and 7/100:
    the quotients IEEE division returns. *)
Lemma literals_nearest :
  Float.of_int 1 = Ok (S754_finite false 4503599627370496 (-52))
  /\ SFdiv 53 1024 (S754_finite false 1 0) (S754_finite false 100 0) = Float.c001
  /\ SFdiv 53 1024 (S754_finite false 3 0) (S754_finite false 100 0) = Float.c003
  /\ SFdiv 53 1024 (S754_finite false 7 0) (S754_finite false 100 0) = Float.c007.
Proof. repeat split; vm_compute; reflexivity. Qed.

(** ** Exact thresholds on ranges of fewer than 2^49 values *)

Lemma iter_xO_pow2 (m d : positive) : Zpos (Pos.iter xO m d) = Zpos m * 2 ^ Zpos d.
Proof.
  induction d as [|d IH] using Pos.peano_ind.
  - simpl. lia.
  - rewrite Pos.iter_succ, Pos2Z.inj_xO, IH, Pos2Z.inj_succ, Z.pow_succ_r by lia. ring.
Qed.

(** [float(R)] is exact below [2^53]: the significand is [R] shifted to 53
    bits. *)
Lemma of_int_small (R : Z) :
  1 <= R < 2 ^ 53 ->
  Float.of_int R
  = Ok (S754_finite false (Z.to_pos (R * 2 ^ (52 - Z.log2 R))) (Z.log2 R - 52)).
Proof.
  intros HR. destruct R as [|p|p]; try lia.
  assert (Hlog : 0 <= Z.log2 (Zpos p) < 53).
  { split; [apply Z.log2_nonneg | apply Z.log2_lt_pow2; lia]. }
  unfold Float.of_int, binary_normalize, binary_round, Float.prec, Float.emax.
  assert (Hal : shl_align p 0 (fexp 53 1024 (Zpos (digits2_pos p) + 0))
                = (Z.to_pos (Zpos p * 2 ^ (52 - Z.log2 (Zpos p))), Z.log2 (Zpos p) - 52)).
  { unfold shl_align, fexp. change (emin 53 1024) with (-1074).
    rewrite digits2_pos_log2.
    replace (Z.max (Z.log2 (Zpos p) + 1 + 0 - 53) (-1074) - 0)
      with (Z.log2 (Zpos p) - 52) by lia.
    replace (Z.max (Z.log2 (Zpos p) + 1 + 0 - 53) (-1074))
      with (Z.log2 (Zpos p) - 52) by lia.
    destruct (Z.log2 (Zpos p) - 52) as [|d|d] eqn:E; try lia.
    - replace (52 - Z.log2 (Zpos p)) with 0 by lia.
      rewrite Z.pow_0_r, Z.mul_1_r. reflexivity.
    - replace (52 - Z.log2 (Zpos p)) with (Zpos d) by lia.
      rewrite <- iter_xO_pow2. reflexivity. }
  rewrite Hal, binary_round_aux_spec.
  set (s := 52 - Z.log2 (Zpos p)).
  assert (Hpow : 0 < 2 ^ s) by (apply Z.pow_pos_nonneg; lia).
  rewrite Z2Pos.id by lia.
  unfold round_to_float.
  assert (HlogN : Z.log2 (Zpos p * 2 ^ s) = 52).
  { rewrite Z.log2_mul_pow2 by lia. lia. }
  rewrite HlogN.
  replace (Z.max (52 + 1 + (Z.log2 (Zpos p) - 52) - 53) (-1074) - (Z.log2 (Zpos p) - 52))
    with 0 by lia.
  change (0 <=? 0) with true. cbv iota.
  assert (HN : Zpos p * 2 ^ s < 2 ^ 53).
  { apply Z.log2_lt_pow2; lia. }
  destruct (Z.eqb_spec (Zpos p * 2 ^ s) 0); [lia|].
  destruct (Z.eqb_spec (Zpos p * 2 ^ s) (2 ^ 53)); [lia|].
  destruct (Z.leb_spec (Z.log2 (Zpos p) - 52) 971); [|lia].
  reflexivity.
Qed.

(** The arithmetic of the rounded product: with [A / T] the constant,
    [B] the significand of [R], [m] the rounded significand of the product
    and [S] the weight of its integer part, truncation gives
    [floor(p * R / 100)]. *)
Lemma trunc_round_exact (A B K S T P2 p d R q m : Z) :
  0 < A -> 0 < K -> 0 < S -> 0 < P2 -> 0 < T -> 0 <= R ->
  B = R * P2 -> S * K = P2 * T ->
  100 * A = p * T + d ->
  2 * (K * m) <= 2 * (A * B) + K ->
  2 * (A * B) <= 2 * (K * m) + K ->
  A * B < K * 2 ^ 53 -> K <= 2 ^ 53 -> B < 2 ^ 53 -> 2 ^ 60 <= P2 * T ->
  d <= 50 -> (- (2 * d)) * 2 ^ 53 <= 100 * A ->
  100 * q <= p * R < 100 * q + 100 ->
  m / S = q.
Proof.
  intros HA HK HS HP HT HR HB HSK HAT Hup Hlo HN HK53 HB53 H60 Hd Hd' Hq.
  assert (E : P2 * T * (p * R) = 100 * (A * B) - d * B).
  { subst B. 
    replace (P2 * T * (p * R)) with ((p * T) * (R * P2)) by ring.
    replace (p * T) with (100 * A - d) by lia. ring. }
  assert (H1 : 0 < 100 * K + 2 * d * B).
  { destruct (Z_le_gt_dec 0 d) as [Hd0|Hd0].
    - assert (0 <= d * B) by (apply Z.mul_nonneg_nonneg; subst B; nia). lia.
    - assert (X : (- (2 * d)) * (A * B) < 100 * A * K).
      { eapply Z.lt_le_trans with ((- (2 * d)) * (K * 2 ^ 53)).
        - apply Z.mul_lt_mono_pos_l; lia.
        - replace (- (2 * d) * (K * 2 ^ 53)) with (K * (- (2 * d) * 2 ^ 53)) by ring.
          replace (100 * A * K) with (K * (100 * A)) by ring.
          apply Z.mul_le_mono_nonneg_l; lia. }
      replace (- (2 * d) * (A * B)) with (A * (- (2 * d) * B)) in X by ring.
      replace (100 * A * K) with (A * (100 * K)) in X by ring.
      apply Z.mul_lt_mono_pos_l in X; lia. }
  assert (H2 : 100 * K + 2 * d * B < 2 * (P2 * T)).
  { assert (d * B <= 50 * 2 ^ 53).
    { destruct (Z_le_gt_dec 0 d).
      - apply Z.mul_le_mono_nonneg; subst B; nia.
      - assert (d * B <= 0) by (subst B; nia). lia. }
    lia. }
  assert (L : S * q <= m).
  { assert (X : 100 * (2 * K * (S * q)) < 100 * (2 * K * (m + 1))).
    { replace (100 * (2 * K * (S * q))) with (2 * (S * K) * (100 * q)) by ring.
      rewrite HSK.
      assert (2 * (P2 * T) * (100 * q) <= 2 * (P2 * T * (p * R))).
      { replace (2 * (P2 * T) * (100 * q)) with (2 * (P2 * T) * (100 * q)) by ring.
        replace (2 * (P2 * T * (p * R))) with (2 * (P2 * T) * (p * R)) by ring.
        apply Z.mul_le_mono_nonneg_l; lia. }
      nia. }
    apply Z.mul_lt_mono_pos_l in X; [|lia].
    apply Z.mul_lt_mono_pos_l in X; [|lia]. lia. }
  assert (U : m < S * (q + 1)).
  { assert (X : 100 * (2 * K * m) < 100 * (2 * K * (S * (q + 1)))).
    { replace (100 * (2 * K * (S * (q + 1)))) with (2 * (S * K) * (100 * q + 100)) by ring.
      rewrite HSK.
      assert (2 * (P2 * T) * (p * R + 1) <= 2 * (P2 * T) * (100 * q + 100)).
      { apply Z.mul_le_mono_nonneg_l; lia. }
      nia. }
    apply Z.mul_lt_mono_pos_l in X; [|lia].
    apply Z.mul_lt_mono_pos_l in X; [|lia]. lia. }
  symmetry. apply Z.div_unique with (m - S * q); lia.
Qed.

Lemma threshold_exact (cm : positive) (ce p d R : Z) :
  2 ^ 52 <= Zpos cm < 2 ^ 53 -> -60 <= ce <= -56 ->
  100 * Zpos cm = p * 2 ^ (- ce) + d ->
  d <= 50 -> (- (2 * d)) * 2 ^ 53 <= 100 * Zpos cm ->
  1 <= R < 2 ^ 49 ->
  threshold (S754_finite false cm ce) R = Ok (Z.max 1 (p * R / 100)).
Proof.
  intros Hcm Hce Hc Hd Hd' HR.
  unfold threshold, Float.mul_int. rewrite of_int_small by lia. cbn [bind].
  unfold Float.mul, SFmul, Float.prec, Float.emax. rewrite binary_round_aux_spec.
  assert (Hlog : 0 <= Z.log2 R <= 48).
  { split; [apply Z.log2_nonneg|].
    assert (Z.log2 R < 49) by (apply Z.log2_lt_pow2; lia). lia. }
  set (s := 52 - Z.log2 R). assert (Hs : 4 <= s <= 52) by lia.
  replace (Z.log2 R - 52) with (- s) by lia.
  assert (HP2 : 0 < 2 ^ s) by (apply Z.pow_pos_nonneg; lia).
  set (B := R * 2 ^ s).
  assert (HlogB : Z.log2 B = 52).
  { unfold B. rewrite Z.log2_mul_pow2 by lia. lia. }
  assert (HB : 2 ^ 52 <= B < 2 ^ 53).
  { pose proof (Z.log2_spec B ltac:(unfold B; lia)) as H. rewrite HlogB in H. exact H. }
  rewrite Pos2Z.inj_mul, Z2Pos.id by lia. cbn [xorb].
  set (N := Zpos cm * B).
  assert (HN : 2 ^ 104 <= N < 2 ^ 106).
  { unfold N. split.
    - change (2 ^ 104) with (2 ^ 52 * 2 ^ 52). apply Z.mul_le_mono_nonneg; lia.
    - change (2 ^ 106) with (2 ^ 53 * 2 ^ 53). apply Z.mul_lt_mono_nonneg; lia. }
  assert (HlogN : 104 <= Z.log2 N < 106).
  { split.
    - replace 104 with (Z.log2 (2 ^ 104)) by (apply Z.log2_pow2; lia).
      apply Z.log2_le_mono; lia.
    - apply Z.log2_lt_pow2; lia. }
  unfold round_to_float.
  set (k := Z.log2 N - 52).
  replace (Z.max (Z.log2 N + 1 + (ce + - s) - 53) (-1074) - (ce + - s)) with k by lia.
  assert (Hk : 52 <= k <= 53) by lia.
  destruct (Z.leb_spec k 0) as [?|_]; [lia|].
  set (m := round_half_even N k).
  assert (HK : 0 < 2 ^ k) by (apply Z.pow_pos_nonneg; lia).
  pose proof (Z.log2_spec N ltac:(lia)) as HspecN.
  assert (HNK : 2 ^ k * 2 ^ 52 <= N < 2 ^ k * 2 ^ 53).
  { rewrite <- !Z.pow_add_r by lia.
    replace (k + 52) with (Z.log2 N) by lia.
    replace (k + 53) with (Z.succ (Z.log2 N)) by lia. exact HspecN. }
  pose proof (round_half_even_bounds N k) as Hmb.
  pose proof (round_half_even_near N k ltac:(lia)) as [Hup Hlo]. fold m in Hmb, Hup, Hlo.
  assert (Hm : 2 ^ 52 <= m <= 2 ^ 53).
  { split.
    - assert (2 ^ 52 <= N / 2 ^ k); [|lia]. apply Z.div_le_lower_bound; [exact HK | apply HNK].
    - apply round_half_even_le; lia. }
  set (e' := ce + - s + k). assert (He' : e' <= -3) by lia.
  set (S := 2 ^ (- e')).
  assert (HS : 0 < S) by (apply Z.pow_pos_nonneg; lia).
  assert (HT : 0 < 2 ^ (- ce)) by (apply Z.pow_pos_nonneg; lia).
  assert (HSK : S * 2 ^ k = 2 ^ s * 2 ^ (- ce)).
  { unfold S. rewrite <- !Z.pow_add_r by lia. f_equal. lia. }
  assert (HK53 : 2 ^ k <= 2 ^ 53) by (apply Z.pow_le_mono_r; lia).
  assert (H60 : 2 ^ 60 <= 2 ^ s * 2 ^ (- ce)).
  { rewrite <- Z.pow_add_r by lia. apply Z.pow_le_mono_r; lia. }
  assert (Hdiv : 100 * (p * R / 100) <= p * R < 100 * (p * R / 100) + 100).
  { split.
    - apply Z.mul_div_le; lia.
    - pose proof (Z.mul_succ_div_gt (p * R) 100 ltac:(lia)). lia. }
  assert (Hq : m / S = p * R / 100).
  { apply (trunc_round_exact (Zpos cm) B (2 ^ k) S (2 ^ (- ce)) (2 ^ s) p d R
             (p * R / 100) m
             ltac:(lia) HK HS HP2 HT ltac:(lia) eq_refl HSK Hc Hup Hlo
             (proj2 HNK) HK53 (proj2 HB) H60 Hd Hd' Hdiv). }
  destruct (Z.eqb_spec m 0) as [?|_]; [lia|].
  destruct (Z.eqb_spec m (2 ^ 53)) as [Hc53|Hc53].
  - destruct (Z.leb_spec (e' + 1) 971) as [_|?]; [|lia].
    unfold Float.to_int. destruct (Z.leb_spec 0 (e' + 1)) as [?|_]; [lia|].
    cbn [bind cond_Zopp]. rewrite <- Hq, Hc53.
    assert (Hcarry : Zpos (2 ^ 52) / 2 ^ (- (e' + 1)) = 2 ^ 53 / S).
    { unfold S. replace (- e') with (1 + (- (e' + 1))) by lia.
      rewrite Z.pow_add_r by lia.
      change (2 ^ 53) with (2 ^ 1 * Zpos (2 ^ 52)).
      rewrite Z.div_mul_cancel_l; [reflexivity | | lia].
      apply Z.pow_nonzero; lia. }
    now rewrite Hcarry.
  - destruct (Z.leb_spec e' 971) as [_|?]; [|lia].
    unfold Float.to_int. destruct (Z.leb_spec 0 e') as [?|_]; [lia|].
    cbn [bind cond_Zopp]. rewrite Z2Pos.id by lia. fold S. now rewrite Hq.
Qed.

Lemma threshold_001 (R : Z) :
  1 <= R < 2 ^ 49 -> threshold Float.c001 R = Ok (Z.max 1 (R / 100)).
Proof.
  intros HR. unfold Float.c001.
  rewrite (threshold_exact _ _ 1 12 R) by (try reflexivity; lia).
  now rewrite Z.mul_1_l.
Qed.

Lemma threshold_003 (R : Z) :
  1 <= R < 2 ^ 49 -> threshold Float.c003 R = Ok (Z.max 1 (3 * R / 100)).
Proof.
  intros HR. unfold Float.c003.
  now rewrite (threshold_exact _ _ 3 (-32) R) by (try reflexivity; lia).
Qed.

Lemma threshold_007 (R : Z) :
  1 <= R < 2 ^ 49 -> threshold Float.c007 R = Ok (Z.max 1 (7 * R / 100)).
Proof.
  intros HR. unfold Float.c007.
  now rewrite (threshold_exact _ _ 7 48 R) by (try reflexivity; lia).
Qed.

(** ** Proximity tiers *)

(** C5, as stated for every range, fails: on a range of 914793674309657
    values [0.07 * R] rounds up to the next integer, and a guess at that
    distance is reported warm where the exact threshold makes it cold. *)
Lemma proximity_label_inexact :
  proximity_label 64035557201677 1 1 914793674309657
  <> Ok (exact_tier (Z.abs (64035557201677 - 1)) (914793674309657 - 1 + 1)).
Proof. vm_compute. discriminate. Qed.

(** C5 (amended): on a range of fewer than 2^49 values the label is
    VeryHot iff [d <= max(1, floor(R/100))], else Hot iff
    [d <= max(1, floor(3R/100))], else Warm iff [d <= max(1, floor(7R/100))],
    else Cold, with [R = max - min + 1] and [d = |guess - secret|]. *)
Theorem proximity_label_tiers (guess secret lo hi : Z)
    (Hrange : lo < hi) (Hsize : hi - lo + 1 < 2 ^ 49) :
  proximity_label guess secret lo hi
  = Ok (exact_tier (Z.abs (guess - secret)) (hi - lo + 1)).
Proof.
  unfold proximity_label, exact_tier.
  rewrite threshold_001, threshold_003, threshold_007 by lia. cbn [bind].
  destruct (_ <=? Z.max 1 ((hi - lo + 1) / 100)); [reflexivity|].
  destruct (_ <=? Z.max 1 (3 * (hi - lo + 1) / 100)); [reflexivity|].
  destruct (_ <=? Z.max 1 (7 * (hi - lo + 1) / 100)); reflexivity.
Qed.

Lemma proximity_label_tiers_witness :
  proximity_label 40 47 1 100 = Ok (exact_tier (Z.abs (40 - 47)) (100 - 1 + 1)).
Proof. apply (proximity_label_tiers 40 47 1 100); [lia | vm_compute; reflexivity]. Defined.

(** ** Attempt budget *)

Lemma to_double_small (R : Z) : R < 2 ^ 53 -> to_double R = R.
Proof.
  intros HR. unfold to_double.
  destruct (Z.leb_spec (Z.log2 R + 1 - 53) 0) as [_|H]; [reflexivity|].
  destruct (Z.le_gt_cases R 0) as [H0|H0].
  - rewrite Z.log2_nonpos in H by assumption. lia.
  - assert (Z.log2 R < 53) by (apply Z.log2_lt_pow2; lia). lia.
Qed.

Lemma to_double_ge_2 (R : Z) : 2 <= R -> 2 <= to_double R.
Proof.
  intros HR. unfold to_double.
  destruct (Z.leb_spec (Z.log2 R + 1 - 53) 0) as [_|Hk]; [assumption|].
  set (k := Z.log2 R + 1 - 53) in *.
  pose proof (round_half_even_bounds R k) as [Hlo _].
  pose proof (Z.log2_spec R ltac:(lia)) as [Hlog _].
  assert (HK : 0 < 2 ^ k) by (apply Z.pow_pos_nonneg; lia).
  assert (2 ^ k <= R).
  { eapply Z.le_trans; [|exact Hlog]. apply Z.pow_le_mono_r; lia. }
  assert (1 <= R / 2 ^ k) by (apply Z.div_le_lower_bound; lia).
  assert (2 <= 2 ^ k).
  { change 2 with (2 ^ 1) at 1. apply Z.pow_le_mono_r; lia. }
  nia.
Qed.

Lemma Ok_inj {A : Type} (a b : A) : Ok a = Ok b -> a = b.
Proof. intros H; now inversion H. Qed.

(** The double [math.log2] works on is the one [float(R)] gives, whenever
    [R] fits a float. *)
Lemma of_int_to_double (R : Z) (x : spec_float) :
  1 <= R -> Float.of_int R = Ok x ->
  exists m e, x = S754_finite false m e
              /\ (if 0 <=? e then Zpos m * 2 ^ e else Zpos m / 2 ^ (- e)) = to_double R.
Proof.
  intros HR. destruct (Z.lt_ge_cases R (2 ^ 53)) as [Hs|Hb].
  - rewrite of_int_small by lia. intros H; apply Ok_inj in H; subst x.
    assert (Hlog : 0 <= Z.log2 R < 53).
    { split; [apply Z.log2_nonneg | apply Z.log2_lt_pow2; lia]. }
    assert (HP : 0 < 2 ^ (52 - Z.log2 R)) by (apply Z.pow_pos_nonneg; lia).
    eexists _, _. split; [reflexivity|].
    assert (0 < R * 2 ^ (52 - Z.log2 R)) by (apply Z.mul_pos_pos; lia).
    rewrite to_double_small, Z2Pos.id by lia.
    destruct (Z.leb_spec 0 (Z.log2 R - 52)).
    + replace (Z.log2 R - 52) with 0 by lia. replace (52 - Z.log2 R) with 0 by lia.
      rewrite Z.pow_0_r. lia.
    + replace (- (Z.log2 R - 52)) with (52 - Z.log2 R) by lia.
      apply Z.div_mul; lia.
  - destruct R as [|p|p]; try lia.
    assert (Hlog : 53 <= Z.log2 (Zpos p)).
    { replace 53 with (Z.log2 (2 ^ 53)) by (apply Z.log2_pow2; lia).
      apply Z.log2_le_mono; lia. }
    unfold Float.of_int, binary_normalize, binary_round, Float.prec, Float.emax.
    assert (Hal : shl_align p 0 (fexp 53 1024 (Zpos (digits2_pos p) + 0)) = (p, 0)).
    { unfold shl_align, fexp. change (emin 53 1024) with (-1074).
      rewrite digits2_pos_log2.
      destruct (Z.max (Z.log2 (Zpos p) + 1 + 0 - 53) (-1074) - 0) eqn:E; try reflexivity. lia. }
    rewrite Hal, binary_round_aux_spec. unfold round_to_float, to_double.
    set (k := Z.log2 (Zpos p) + 1 - 53).
    replace (Z.max (Z.log2 (Zpos p) + 1 + 0 - 53) (-1074) - 0) with k by lia.
    destruct (Z.leb_spec k 0) as [?|Hk]; [lia|].
    set (m := round_half_even (Zpos p) k).
    pose proof (Z.log2_spec (Zpos p) ltac:(lia)) as Hspec.
    assert (HK : 0 < 2 ^ k) by (apply Z.pow_pos_nonneg; lia).
    assert (Hm : 2 ^ 52 <= m).
    { pose proof (round_half_even_bounds (Zpos p) k) as [Hlo _]. fold m in Hlo.
      assert (2 ^ 52 <= Zpos p / 2 ^ k); [|lia].
      apply Z.div_le_lower_bound; [lia|]. rewrite <- Z.pow_add_r by lia.
      replace (k + 52) with (Z.log2 (Zpos p)) by lia. apply Hspec. }
    destruct (Z.eqb_spec m 0); [lia|].
    destruct (Z.eqb_spec m (2 ^ 53)) as [E|E].
    + destruct (0 + k + 1 <=? 971); intros H; [apply Ok_inj in H; subst x | discriminate H].
      eexists _, _. split; [reflexivity|].
      destruct (Z.leb_spec 0 (0 + k + 1)); [|lia].
      rewrite E. replace (0 + k + 1) with (1 + k) by lia.
      rewrite Z.pow_add_r by lia. change (Zpos (2 ^ 52) * (2 ^ 1 * 2 ^ k)) with (2 ^ 52 * (2 * 2 ^ k)).
      change (2 ^ 53) with (2 ^ 52 * 2). ring.
    + destruct (0 + k <=? 971); intros H; [apply Ok_inj in H; subst x | discriminate H].
      eexists _, _. split; [reflexivity|].
      destruct (Z.leb_spec 0 (0 + k)); [|lia].
      rewrite Z2Pos.id by lia. reflexivity.
Qed.

(** Every range size below [2^1024 - 2^970] converts to a float. *)
Lemma of_int_fits (R : Z) :
  0 <= R < 2 ^ 1024 - 2 ^ 970 -> exists x, Float.of_int R = Ok x.
Proof.
  intros HR. destruct (Z.lt_ge_cases R (2 ^ 53)) as [Hs|Hb].
  - destruct (Z.eq_dec R 0) as [->|H0]; [eexists; reflexivity|].
    rewrite of_int_small by lia. eexists; reflexivity.
  - destruct R as [|p|p]; try lia.
    assert (Hlog : 53 <= Z.log2 (Zpos p) < 1024).
    { split.
      - replace 53 with (Z.log2 (2 ^ 53)) by (apply Z.log2_pow2; lia).
        apply Z.log2_le_mono; lia.
      - apply Z.log2_lt_pow2; lia. }
    unfold Float.of_int, binary_normalize, binary_round, Float.prec, Float.emax.
    assert (Hal : shl_align p 0 (fexp 53 1024 (Zpos (digits2_pos p) + 0)) = (p, 0)).
    { unfold shl_align, fexp. change (emin 53 1024) with (-1074).
      rewrite digits2_pos_log2.
      destruct (Z.max (Z.log2 (Zpos p) + 1 + 0 - 53) (-1074) - 0) eqn:E; try reflexivity. lia. }
    rewrite Hal, binary_round_aux_spec. unfold round_to_float.
    set (k := Z.log2 (Zpos p) + 1 - 53).
    replace (Z.max (Z.log2 (Zpos p) + 1 + 0 - 53) (-1074) - 0) with k by lia.
    destruct (Z.leb_spec k 0) as [?|Hk]; [lia|].
    set (m := round_half_even (Zpos p) k).
    destruct (m =? 0); [eexists; reflexivity|].
    destruct (Z.eqb_spec m (2 ^ 53)) as [E|E].
    + (* a carry to 2^53 needs k < 971 *)
      destruct (Z.leb_spec (0 + k + 1) 971); [eexists; reflexivity|].
      exfalso. assert (Hk971 : k = 971) by lia.
      pose proof (round_half_even_near (Zpos p) k ltac:(lia)) as [Hup _].
      fold m in Hup. rewrite E, Hk971 in Hup.
      change (2 ^ 1024) with (2 ^ 971 * 2 ^ 53) in HR.
      change (2 ^ 970) with (2 ^ 971 / 2) in HR.
      assert (Hhalf : 2 ^ 971 = 2 * (2 ^ 971 / 2)) by reflexivity. lia.
    + destruct (Z.leb_spec (0 + k) 971); [eexists; reflexivity | lia].
Qed.


Lemma ceil_log2_ge_1 (R : Z) : 2 <= R -> exists b, ceil_log2 R = Ok b /\ 1 <= b.
Proof.
  intros HR. unfold ceil_log2. destruct (Z.leb_spec R 0); [lia|].
  eexists; split; [reflexivity|].
  pose proof (to_double_ge_2 R HR).
  pose proof (Z.log2_up_pos (to_double R) ltac:(lia)). lia.
Qed.

Lemma compute_attempts_ge_1 (lo hi : Z) (level : string) (override : option Z) :
  lo < hi -> exists n, compute_attempts lo hi level override = Ok n /\ 1 <= n.
Proof.
  intros Hrange. unfold compute_attempts. destruct override as [k|].
  - eexists; split; [reflexivity | lia].
  - destruct (ceil_log2_ge_1 (hi - lo + 1) ltac:(lia)) as [b [-> Hb]]. cbn [bind].
    destruct (level =? "easy")%string; [|destruct (level =? "normal")%string];
      eexists; split; try reflexivity; lia.
Qed.

Lemma compute_attempts_nonneg (lo hi : Z) (level : string) (override : option Z) (n : Z) :
  compute_attempts lo hi level override = Ok n -> 0 <= n.
Proof.
  unfold compute_attempts, ceil_log2. destruct override as [k|].
  - intros H; inversion H; lia.
  - destruct (hi - lo + 1 <=? 0); [discriminate|]. cbn [bind].
    pose proof (Z.log2_up_nonneg (to_double (hi - lo + 1))).
    destruct (level =? "easy")%string; [|destruct (level =? "normal")%string];
      intros H'; inversion H'; lia.
Qed.

(** ** The budget over a rounded log2 *)

(** Bernoulli's inequality on integers. *)
Lemma pow_succ_bernoulli (A N : Z) :
  0 <= A -> 0 <= N -> A ^ (N + 1) + (N + 1) * A ^ N <= (A + 1) ^ (N + 1).
Proof.
  intros HA. revert N. apply natlike_ind.
  - rewrite Z.pow_0_r. change (0 + 1) with 1. rewrite !Z.pow_1_r. lia.
  - intros N HN IH.
    replace (Z.succ N + 1) with (Z.succ (N + 1)) by lia.
    replace (Z.succ N) with (N + 1) at 2 by lia.
    rewrite !Z.pow_succ_r by lia.
    assert (HQ : 0 <= A ^ N) by (apply Z.pow_nonneg; lia).
    rewrite Z.pow_add_r, Z.pow_1_r in * by lia.
    nia.
Qed.

(** [math.ceil(float(k))] is [k] for a small int. *)
Lemma math_ceil_of_int (k : Z) (y : spec_float) :
  0 <= k < 2 ^ 52 -> Float.of_int k = Ok y -> math_ceil y = Ok k.
Proof.
  intros Hk. destruct (Z.eq_dec k 0) as [->|H0].
  - intros H. vm_compute in H. apply Ok_inj in H. subst y. reflexivity.
  - assert (H53 : 2 ^ 52 < 2 ^ 53) by reflexivity.
    rewrite of_int_small by lia. intros H. apply Ok_inj in H. subst y.
    assert (Hlog : 0 <= Z.log2 k < 52).
    { split; [apply Z.log2_nonneg | apply Z.log2_lt_pow2; lia]. }
    assert (HP : 0 < 2 ^ (52 - Z.log2 k)) by (apply Z.pow_pos_nonneg; lia).
    assert (0 < k * 2 ^ (52 - Z.log2 k)) by (apply Z.mul_pos_pos; lia).
    unfold math_ceil. destruct (Z.leb_spec 0 (Z.log2 k - 52)); [lia|].
    rewrite Z2Pos.id by lia.
    replace (- (Z.log2 k - 52)) with (52 - Z.log2 k) by lia.
    rewrite <- Z.mul_opp_l, Z.div_mul by lia. f_equal. lia.
Qed.

(** A bounded binary64 mantissa has 53 bits unless the exponent is the
    least one. *)
Lemma bounded_mantissa (m : positive) (e : Z) :
  bounded Float.prec Float.emax m e = true -> 2 ^ 52 <= Zpos m \/ e = -1074.
Proof.
  unfold bounded, canonical_mantissa, fexp, Float.prec, Float.emax.
  change (emin 53 1024) with (-1074).
  intros H. apply andb_prop in H. destruct H as [H _].
  apply Z.eqb_eq in H. rewrite digits2_pos_log2 in H.
  destruct (Z.max_spec (Z.log2 (Zpos m) + 1 + e - 53) (-1074)) as [[_ E]|[_ E]];
    rewrite E in H; [now right | left].
  assert (Hl : Z.log2 (Zpos m) = 52) by lia.
  pose proof (Z.log2_spec (Zpos m) ltac:(lia)) as [Hs _]. now rewrite Hl in Hs.
Qed.

(** The ceiling of a float within one unit in its last place of
    [log2(R)], when [R] lies strictly between [2^(k-1)] and [2^k] and
    [k <= 48]: the unit is then at most [2^-(k-1)], too small to cross
    [k - 1]. *)
Lemma ceil_within_ulp (R k : Z) (m : positive) (e : Z) :
  1 <= k <= 48 ->
  2 ^ (k - 1) < R < 2 ^ k ->
  bounded Float.prec Float.emax m e = true ->
  e < 0 ->
  2 ^ (Zpos m - 1) < R ^ (2 ^ (- e)) < 2 ^ (Zpos m + 1) ->
  math_ceil (S754_finite false m e) = Ok k.
Proof.
  intros Hk HR Hb He [Hlo Hhi].
  set (n := - e) in *. set (N := 2 ^ n) in *.
  assert (Hn : 0 < n) by (unfold n; lia).
  assert (HN : 0 < N) by (apply Z.pow_pos_nonneg; lia).
  (* above: m <= k * N *)
  assert (Hup : Zpos m <= k * N).
  { destruct (Z.le_gt_cases (Zpos m) (k * N)) as [?|Hgt]; [assumption | exfalso].
    assert (R ^ N < (2 ^ k) ^ N) by (apply Z.pow_lt_mono_l; lia).
    rewrite <- Z.pow_mul_r in H by lia.
    assert (2 ^ (k * N) <= 2 ^ (Zpos m - 1)) by (apply Z.pow_le_mono_r; lia).
    lia. }
  (* below: (k - 1) * N < m *)
  assert (Hdown : (k - 1) * N < Zpos m).
  { destruct (Z.lt_ge_cases ((k - 1) * N) (Zpos m)) as [?|Hle]; [assumption | exfalso].
    assert (Hnk : k - 1 <= n).
    { destruct (bounded_mantissa m e Hb) as [Hm|Hm]; [|unfold n; lia].
      destruct (Z.le_gt_cases (k - 1) n) as [?|Hgt]; [assumption | exfalso].
      assert (N <= 2 ^ 46).
      { unfold N. apply Z.pow_le_mono_r; lia. }
      assert ((k - 1) * N <= 47 * 2 ^ 46) by nia.
      assert (47 * 2 ^ 46 < 2 ^ 52) by reflexivity. lia. }
    set (A := 2 ^ (k - 1)) in *.
    assert (HA : 0 < A) by (apply Z.pow_pos_nonneg; lia).
    assert (HAN : A <= N) by (apply Z.pow_le_mono_r; lia).
    pose proof (pow_succ_bernoulli A (N - 1) ltac:(lia) ltac:(lia)) as Hbern.
    replace (N - 1 + 1) with N in Hbern by lia.
    assert (HAp : 0 < A ^ (N - 1)) by (apply Z.pow_pos_nonneg; lia).
    assert (HAsplit : A ^ N = A * A ^ (N - 1)).
    { replace N with (Z.succ (N - 1)) at 1 by lia. apply Z.pow_succ_r. lia. }
    assert (H2 : 2 * A ^ N <= (A + 1) ^ N) by nia.
    assert (H3 : (A + 1) ^ N <= R ^ N) by (apply Z.pow_le_mono_l; lia).
    assert (H4 : A ^ N = 2 ^ ((k - 1) * N)).
    { unfold A. rewrite <- Z.pow_mul_r by lia. reflexivity. }
    assert (H5 : 2 ^ (Zpos m + 1) <= 2 ^ ((k - 1) * N + 1)) by (apply Z.pow_le_mono_r; lia).
    assert (H6 : 2 ^ ((k - 1) * N + 1) = 2 ^ ((k - 1) * N) * 2).
    { rewrite Z.pow_add_r by nia. reflexivity. }
    lia. }
  unfold math_ceil. destruct (Z.leb_spec 0 e); [lia|]. fold n. fold N.
  assert (E : - Zpos m / N = - k).
  { symmetry. apply Z.div_unique with (r := k * N - Zpos m); lia. }
  rewrite E. f_equal. lia.
Qed.

Section LibmFacts.

Variable log2 : spec_float -> spec_float.

(** Up to [2^48] the rounding of [log2] does not show in the ceiling:
    with a library accurate at [float(R)], [math.ceil(math.log2(R))] is the
    exact [ceil(log2(R))]. *)
Lemma math_ceil_log2_exact (R : Z) :
  1 <= R <= 2 ^ 48 ->
  (forall x, Float.of_int R = Ok x -> log2_accurate R (log2 x)) ->
  math_ceil_log2 log2 R = Ok (Z.log2_up R).
Proof.
  intros HR Hacc. unfold math_ceil_log2, math_log2.
  destruct (Z.leb_spec R 0); [lia|].
  assert (H53 : 2 ^ 48 < 2 ^ 53) by reflexivity.
  rewrite of_int_small in * by lia.
  specialize (Hacc _ eq_refl). cbn [bind].
  set (y := log2 _) in *. clearbody y. unfold log2_accurate in Hacc.
  pose proof (Z.log2_spec R ltac:(lia)) as [Hl1 Hl2].
  assert (Hlog : 0 <= Z.log2 R <= 48).
  { split; [apply Z.log2_nonneg|]. 
    destruct (Z.le_gt_cases (Z.log2 R) 48) as [?|Hgt]; [assumption | exfalso].
    assert (2 ^ 49 <= 2 ^ Z.log2 R) by (apply Z.pow_le_mono_r; lia).
    assert (2 ^ 48 < 2 ^ 49) by reflexivity. lia. }
  destruct (Z.eqb_spec R (2 ^ Z.log2 R)) as [Epow|Enot].
  - rewrite Epow at 1. rewrite Z.log2_up_pow2 by lia.
    apply math_ceil_of_int with (k := Z.log2 R); [|exact Hacc].
    assert (48 < 2 ^ 52) by reflexivity. lia.
  - destruct y as [| | |[|] m e]; try contradiction.
    destruct Hacc as [Hb [He Hbr]].
    assert (HR2 : 1 < R).
    { destruct (Z.eq_dec R 1) as [->|]; [|lia]. exfalso. apply Enot. reflexivity. }
    pose proof (Z.log2_up_spec R HR2) as [Hu1 Hu2].
    assert (Hsucc : Z.log2_up R = Z.log2 R + 1).
    { destruct (Z.log2_log2_up_spec R ltac:(lia)) as [_ Hle].
      pose proof (Z.le_log2_up_succ_log2 R).
      pose proof (Z.le_log2_log2_up R).
      destruct (Z.eq_dec (Z.log2_up R) (Z.log2 R)) as [E|]; [|lia].
      exfalso. apply Enot. rewrite E in Hle. lia. }
    assert (Hl47 : Z.log2 R <= 47).
    { destruct (Z.eq_dec (Z.log2 R) 48) as [E|]; [|lia].
      exfalso. apply Enot. rewrite E in *. lia. }
    apply ceil_within_ulp with (R := R); try assumption.
    + pose proof (Z.log2_nonneg R). lia.
    + rewrite Hsucc. replace (Z.log2 R + 1 - 1) with (Z.log2 R) by lia.
      rewrite Z.add_1_r. lia. 
Qed.

(** There the budget over the rounded [log2] is the budget of
    [compute_attempts]. *)
Lemma compute_attempts_libm_exact (lo hi : Z) (level : string) (override : option Z) :
  lo <= hi -> hi - lo + 1 <= 2 ^ 48 ->
  (forall x, Float.of_int (hi - lo + 1) = Ok x -> log2_accurate (hi - lo + 1) (log2 x)) ->
  compute_attempts_libm log2 lo hi level override = compute_attempts lo hi level override.
Proof.
  intros Hr Hs Hacc. unfold compute_attempts_libm, compute_attempts.
  destruct override; [reflexivity|].
  rewrite (math_ceil_log2_exact (hi - lo + 1) ltac:(lia) Hacc). unfold ceil_log2.
  destruct (Z.leb_spec (hi - lo + 1) 0); [lia|].
  assert (2 ^ 48 < 2 ^ 53) by reflexivity.
  rewrite to_double_small by lia. reflexivity.
Qed.

End LibmFacts.

(** *** Checking a value of log2 *)

Lemma square_bounds_sound (p v l u e : Z) :
  0 <= l -> 0 <= e -> l * 2 ^ e <= v <= u * 2 ^ e ->
  let '(l', u', e') := square_bounds p (l, u, e) in
  0 <= l' /\ 0 <= e' /\ l' * 2 ^ e' <= v * v <= u' * 2 ^ e'.
Proof.
  intros Hl He [Hlo Hhi]. unfold square_bounds.
  set (s := Z.max 0 (Z.log2 (u * u) + 1 - p)).
  assert (Hs : 0 <= s) by (unfold s; lia).
  assert (HS : 0 < 2 ^ s) by (apply Z.pow_pos_nonneg; lia).
  assert (HE : 0 < 2 ^ e) by (apply Z.pow_pos_nonneg; lia).
  assert (Hpow : 2 ^ (2 * e + s) = 2 ^ e * 2 ^ e * 2 ^ s).
  { rewrite Z.pow_add_r, Z.pow_mul_r by lia. change (2 ^ 2) with 4.
    replace 4 with (2 * 2) by reflexivity. rewrite Z.pow_mul_l. reflexivity. }
  assert (Hv : 0 <= v) by nia.
  assert (Hu : 0 <= u) by nia.
  split; [apply Z.div_pos; nia|]. split; [lia|]. rewrite Hpow. split.
  - pose proof (Z.mul_div_le (l * l) (2 ^ s) HS).
    assert (l * 2 ^ e * (l * 2 ^ e) <= v * v) by (apply Z.mul_le_mono_nonneg; nia).
    nia.
  - assert (Hsq : v * v <= u * 2 ^ e * (u * 2 ^ e)) by (apply Z.mul_le_mono_nonneg; nia).
    destruct (Z.eqb_spec s 0) as [E|E].
    + rewrite E, Z.pow_0_r. nia.
    + pose proof (Z.mul_succ_div_gt (u * u) (2 ^ s) HS). nia.
Qed.

Lemma power_bounds_sound (p R : Z) (n : nat) :
  0 <= R ->
  let '(l, u, e) := power_bounds p R n in
  0 <= l /\ 0 <= e /\ l * 2 ^ e <= R ^ (2 ^ Z.of_nat n) <= u * 2 ^ e.
Proof.
  intros HR. induction n as [|n IH].
  - cbn [power_bounds]. change (2 ^ Z.of_nat 0) with 1.
    rewrite Z.pow_1_r, Z.pow_0_r. lia.
  - cbn [power_bounds]. destruct (power_bounds p R n) as [[l u] e].
    destruct IH as [Hl [He Hb]].
    pose proof (square_bounds_sound p _ l u e Hl He Hb) as H.
    replace (R ^ (2 ^ Z.of_nat (S n))) with (R ^ (2 ^ Z.of_nat n) * R ^ (2 ^ Z.of_nat n)).
    + exact H.
    + rewrite Nat2Z.inj_succ, Z.pow_succ_r by lia.
      rewrite <- Z.pow_add_r by (apply Z.pow_nonneg; lia). f_equal. lia.
Qed.

Lemma within_ulp_checked (p R m e : Z) :
  0 <= R -> e < 0 -> within_ulp_check p R m e = true ->
  2 ^ (m - 1) < R ^ (2 ^ (- e)) < 2 ^ (m + 1).
Proof.
  intros HR He. unfold within_ulp_check.
  pose proof (power_bounds_sound p R (Z.to_nat (- e)) HR) as H.
  destruct (power_bounds p R (Z.to_nat (- e))) as [[l u] x].
  rewrite Z2Nat.id in H by lia. destruct H as [Hl [Hx [Hlo Hhi]]].
  intros Hc. apply andb_prop in Hc. destruct Hc as [Hc H3].
  apply andb_prop in Hc. destruct Hc as [H1 H2].
  apply Z.leb_le in H1. apply Z.ltb_lt in H2. apply Z.ltb_lt in H3.
  assert (HX : 0 < 2 ^ x) by (apply Z.pow_pos_nonneg; lia).
  assert (E1 : 2 ^ (m - 1) = 2 ^ (m - 1 - x) * 2 ^ x).
  { rewrite <- Z.pow_add_r by lia. f_equal. lia. }
  assert (E2 : 2 ^ (m + 1) = 2 ^ (m + 1 - x) * 2 ^ x).
  { rewrite <- Z.pow_add_r by lia. f_equal. lia. }
  rewrite E1, E2. split; nia.
Qed.

(** glibc's values at 50, 100 and 1000 are within the unit. *)
Lemma sample_log2_accurate (R : Z) (x : spec_float) :
  R = 50 \/ R = 100 \/ R = 1000 ->
  Float.of_int R = Ok x -> log2_accurate R (SampleLibm.log2 x).
Proof.
  intros [-> | [-> | ->]] H; vm_compute in H; apply Ok_inj in H; subst x;
    unfold log2_accurate;
    match goal with
    | |- context [SampleLibm.log2 ?a] =>
        let y := eval vm_compute in (SampleLibm.log2 a) in
        change (SampleLibm.log2 a) with y
    end;
    match goal with
    | |- context [?a =? ?b] =>
        let c := eval vm_compute in (a =? b) in change (a =? b) with c
    end;
    cbv iota;
    (split; [vm_compute; reflexivity|]); (split; [lia|]);
    (apply within_ulp_checked with (p := 128); [lia | lia | vm_compute; reflexivity]).
Qed.

(** *** Past the bound *)

Lemma pow_succ_upper (A N : Z) :
  1 <= N <= A -> (A + 1) ^ N * (A - N) < A ^ N * A.
Proof.
  intros [HN HA]. replace N with (N - 1 + 1) in * by lia.
  assert (HM : 0 <= N - 1) by lia. clear HN. revert HM HA.
  generalize (N - 1). clear N.
  apply (natlike_ind (fun M => M + 1 <= A -> (A + 1) ^ (M + 1) * (A - (M + 1)) < A ^ (M + 1) * A)).
  - intros H1. change (0 + 1) with 1. rewrite !Z.pow_1_r. nia.
  - intros M HM IH HA. specialize (IH ltac:(lia)).
    replace (Z.succ M + 1) with (Z.succ (M + 1)) by lia.
    rewrite !Z.pow_succ_r by lia.
    assert (HP : 0 <= (A + 1) ^ (M + 1)) by (apply Z.pow_nonneg; lia).
    assert (H1 : (A + 1) * (A - Z.succ (M + 1)) <= A * (A - (M + 1))) by nia.
    assert (H2 : (A + 1) ^ (M + 1) * ((A + 1) * (A - Z.succ (M + 1)))
                 <= (A + 1) ^ (M + 1) * (A * (A - (M + 1))))
      by (apply Z.mul_le_mono_nonneg_l; assumption).
    nia.
Qed.

(** [(2^a + 1)^(2^n)] lies within a factor of two of [2^(a * 2^n)] when
    [n < a]: the float [a] is then within one unit of [log2(2^a + 1)] if
    the unit is [2^-n]. *)
Lemma next_to_pow2 (a n : Z) :
  0 <= n -> n + 1 <= a ->
  2 ^ (a * 2 ^ n - 1) < (2 ^ a + 1) ^ (2 ^ n) < 2 ^ (a * 2 ^ n + 1).
Proof.
  intros Hn Ha. set (N := 2 ^ n). set (A := 2 ^ a).
  assert (HN : 0 < N) by (apply Z.pow_pos_nonneg; lia).
  assert (HA : 0 < A) by (apply Z.pow_pos_nonneg; lia).
  assert (HAN : A ^ N = 2 ^ (a * N)).
  { unfold A. rewrite <- Z.pow_mul_r by lia. reflexivity. }
  assert (HANp : 0 < A ^ N) by (apply Z.pow_pos_nonneg; lia).
  assert (H2 : A = 2 * 2 ^ (a - 1)).
  { unfold A. replace a with (1 + (a - 1)) at 1 by lia.
    rewrite Z.pow_add_r by lia. reflexivity. }
  assert (HNle : N <= 2 ^ (a - 1)) by (apply Z.pow_le_mono_r; lia).
  split.
  - assert (2 ^ (a * N - 1) < 2 ^ (a * N)) by (apply Z.pow_lt_mono_r; nia).
    assert (A ^ N <= (A + 1) ^ N) by (apply Z.pow_le_mono_l; lia).
    lia.
  - pose proof (pow_succ_upper A N ltac:(lia)) as Hup.
    assert (HP : 0 < (A + 1) ^ N) by (apply Z.pow_pos_nonneg; lia).
    assert (E : 2 ^ (a * N + 1) = 2 ^ (a * N) * 2).
    { rewrite Z.pow_add_r by nia. reflexivity. }
    rewrite E, <- HAN. nia.
Qed.

(** Past the bound the rounding shows: for the range of [2^49 + 1]
    values the double 49.0, which glibc returns, is within one unit of
    [log2(2^49 + 1)], and its ceiling is 49 where [ceil(log2(R))] is 50. *)
Lemma rounded_log2_short :
  log2_accurate (2 ^ 49 + 1) (S754_finite false 0x18800000000000 (-47))
  /\ math_ceil (S754_finite false 0x18800000000000 (-47)) = Ok 49
  /\ Z.log2_up (2 ^ 49 + 1) = 50.
Proof.
  split; [|split; vm_compute; reflexivity].
  unfold log2_accurate.
  match goal with
  | |- context [?a =? ?b] =>
      let c := eval vm_compute in (a =? b) in change (a =? b) with c
  end.
  cbv iota. split; [vm_compute; reflexivity|]. split; [lia|].
  exact (next_to_pow2 49 47 ltac:(lia) ltac:(lia)).
Qed.

(** The bound cannot be raised: one value past it, at [2^48 + 1], the
    double 48.0 is within one unit of [log2(2^48 + 1)] too, and its
    ceiling is 48 where [ceil(log2(R))] is 49. *)
Lemma rounded_log2_bound_sharp :
  log2_accurate (2 ^ 48 + 1) (S754_finite false 0x18000000000000 (-47))
  /\ math_ceil (S754_finite false 0x18000000000000 (-47)) = Ok 48
  /\ Z.log2_up (2 ^ 48 + 1) = 49.
Proof.
  split; [|split; vm_compute; reflexivity].
  unfold log2_accurate.
  match goal with
  | |- context [?a =? ?b] =>
      let c := eval vm_compute in (a =? b) in change (a =? b) with c
  end.
  cbv iota. split; [vm_compute; reflexivity|]. split; [lia|].
  exact (next_to_pow2 48 47 ltac:(lia) ltac:(lia)).
Qed.

(** *** The budget formula *)

(** C3, as stated for every range, fails: [math.log2] is given the int
    [2^60 + 1] as the double [2^60], whose [log2] is exactly 60, and the hard
    budget is 60 where [ceil(log2(2^60 + 1))] is 61. *)
Lemma compute_attempts_rounds_range :
  ~ (exists base,
        2 ^ (base - 1) < (2 ^ 60 + 1) - 1 + 1 <= 2 ^ base
        /\ compute_attempts_libm SampleLibm.log2 1 (2 ^ 60 + 1) "hard" None = Ok base).
Proof.
  intros [base [Hb H]]. vm_compute in H. inversion H; subst base. lia.
Qed.

Section BudgetFacts.

Variable log2 : spec_float -> spec_float.

(** The same with every C library that is exact at [2^60]. *)
Lemma rounded_range_budget :
  log2_accurate (2 ^ 60) (log2 (S754_finite false (2 ^ 52) 8)) ->
  compute_attempts_libm log2 1 (2 ^ 60 + 1) "hard" None = Ok 60.
Proof.
  intros H. unfold compute_attempts_libm, math_ceil_log2, math_log2.
  replace (2 ^ 60 + 1 - 1 + 1) with (2 ^ 60 + 1) by lia.
  change (2 ^ 60 + 1 <=? 0) with false. cbv iota.
  replace (Float.of_int (2 ^ 60 + 1)) with (Ok (S754_finite false (2 ^ 52) 8))
    by (vm_compute; reflexivity).
  cbn [bind]. unfold log2_accurate in H.
  change (2 ^ 60 =? 2 ^ Z.log2 (2 ^ 60)) with true in H. cbv iota in H.
  change (Z.log2 (2 ^ 60)) with 60 in H.
  now rewrite (math_ceil_of_int 60 _ ltac:(split; [lia | reflexivity]) H).
Qed.

(** C3 (amended): an override gives [max(1, override)] whatever the range
    and difficulty; without one, on a range of [R <= 2^48] values with
    [min < max], and with a C library whose [log2] is exact at the powers of
    two and elsewhere less than one unit in the last place away, the
    budget is [ceil(log2(R))] plus 2 for easy, 1 for normal and 0 for hard;
    [min = 1], [max = 100], normal gives 8. *)
Theorem compute_attempts_budget (lo hi : Z)
    (Hrange : lo < hi) (Hsize : hi - lo + 1 <= 2 ^ 48)
    (Hlibm : forall x, Float.of_int (hi - lo + 1) = Ok x ->
                       log2_accurate (hi - lo + 1) (log2 x)) :
  (forall a b level k, compute_attempts_libm log2 a b level (Some k) = Ok (Z.max 1 k))
  /\ (exists base,
        2 ^ (base - 1) < hi - lo + 1 <= 2 ^ base
        /\ compute_attempts_libm log2 lo hi "easy" None = Ok (base + 2)
        /\ compute_attempts_libm log2 lo hi "normal" None = Ok (base + 1)
        /\ compute_attempts_libm log2 lo hi "hard" None = Ok base)
  /\ ((forall x, Float.of_int 100 = Ok x -> log2_accurate 100 (log2 x)) ->
      compute_attempts_libm log2 1 100 "normal" None = Ok 8).
Proof.
  split; [reflexivity|]. split.
  - exists (Z.log2_up (hi - lo + 1)). split.
    + pose proof (Z.log2_up_spec (hi - lo + 1) ltac:(lia)) as H.
      replace (Z.pred (Z.log2_up (hi - lo + 1))) with (Z.log2_up (hi - lo + 1) - 1) in H by lia.
      exact H.
    + unfold compute_attempts_libm.
      rewrite (math_ceil_log2_exact log2 (hi - lo + 1) ltac:(lia) Hlibm).
      repeat split; reflexivity.
  - intros H100. unfold compute_attempts_libm.
    change (100 - 1 + 1) with 100.
    rewrite (math_ceil_log2_exact log2 100 ltac:(split; [lia | discriminate]) H100).
    reflexivity.
Qed.

(** X11: with the same C library, on ranges of up to 2^48 values the
    budget does not shrink when the range grows, at every difficulty;
    and on every range, with any library, the three difficulties are
    ordered: normal is hard plus one, easy is hard plus two. *)
Theorem compute_attempts_monotone (lo1 hi1 lo2 hi2 : Z) (level : string)
    (Hvalid : lo1 <= hi1)
    (Hwider : hi1 - lo1 <= hi2 - lo2)
    (Hsize : hi2 - lo2 + 1 <= 2 ^ 48)
    (Hlibm1 : forall x, Float.of_int (hi1 - lo1 + 1) = Ok x ->
                        log2_accurate (hi1 - lo1 + 1) (log2 x))
    (Hlibm2 : forall x, Float.of_int (hi2 - lo2 + 1) = Ok x ->
                        log2_accurate (hi2 - lo2 + 1) (log2 x)) :
  (exists b1 b2,
      compute_attempts_libm log2 lo1 hi1 level None = Ok b1
      /\ compute_attempts_libm log2 lo2 hi2 level None = Ok b2
      /\ b1 <= b2)
  /\ (forall lo hi h,
        compute_attempts_libm log2 lo hi "hard" None = Ok h ->
        compute_attempts_libm log2 lo hi "normal" None = Ok (h + 1)
        /\ compute_attempts_libm log2 lo hi "easy" None = Ok (h + 2)).
Proof.
  split.
  - unfold compute_attempts_libm.
    rewrite (math_ceil_log2_exact log2 (hi1 - lo1 + 1) ltac:(lia) Hlibm1).
    rewrite (math_ceil_log2_exact log2 (hi2 - lo2 + 1) ltac:(lia) Hlibm2).
    cbn [bind].
    pose proof (Z.log2_up_le_mono (hi1 - lo1 + 1) (hi2 - lo2 + 1) ltac:(lia)).
    destruct (level =? "easy")%string; [|destruct (level =? "normal")%string];
      eexists _, _; (split; [reflexivity|]); (split; [reflexivity|]); lia.
  - intros lo hi h. unfold compute_attempts_libm.
    destruct (math_ceil_log2 log2 (hi - lo + 1)) as [b|e]; [|discriminate]. cbn.
    intros H; apply Ok_inj in H; subst h. split; reflexivity.
Qed.

End BudgetFacts.

Lemma compute_attempts_budget_witness :
  exists base,
    2 ^ (base - 1) < 100 - 1 + 1 <= 2 ^ base
    /\ compute_attempts_libm SampleLibm.log2 1 100 "easy" None = Ok (base + 2)
    /\ compute_attempts_libm SampleLibm.log2 1 100 "normal" None = Ok (base + 1)
    /\ compute_attempts_libm SampleLibm.log2 1 100 "hard" None = Ok base.
Proof.
  refine (proj1 (proj2 (compute_attempts_budget SampleLibm.log2 1 100 _ _ _))).
  - lia.
  - vm_compute; discriminate.
  - intros x Hx. apply (sample_log2_accurate 100 x); [right; left; reflexivity | exact Hx].
Defined.

Lemma compute_attempts_monotone_witness :
  exists b1 b2,
    compute_attempts_libm SampleLibm.log2 1 50 "easy" None = Ok b1
    /\ compute_attempts_libm SampleLibm.log2 1 1000 "easy" None = Ok b2
    /\ b1 <= b2.
Proof.
  refine (proj1 (compute_attempts_monotone SampleLibm.log2 1 50 1 1000 "easy" _ _ _ _ _)).
  - lia.
  - lia.
  - vm_compute; discriminate.
  - intros x Hx. apply (sample_log2_accurate 50 x); [left; reflexivity | exact Hx].
  - intros x Hx. apply (sample_log2_accurate 1000 x); [right; right; reflexivity | exact Hx].
Defined.

(** ** Score *)

Lemma score_formula_eq (total used : Z) :
  score_formula total used = 100 + 10 * Z.max 0 (total - used).
Proof. reflexivity. Qed.

Lemma score_formula_antitone (total u1 u2 : Z) :
  u1 <= u2 -> score_formula total u2 <= score_formula total u1.
Proof. unfold score_formula. lia. Qed.

(** Outside the domain of the operation, with a used count past the
    budget, the bonus is clamped at zero and the score stays at 100; no
    caller passes such a count ([play_round] leaves its loop with
    [used < attempts_total] on a win). *)
Lemma score_formula_not_strict :
  ~ (forall total u1 u2 : Z, u1 < u2 -> score_formula total u2 < score_formula total u1).
Proof.
  intros H. specialize (H 3 3 4 ltac:(lia)). vm_compute in H. discriminate.
Qed.

(** C4: the score is [100 + 10 * max(0, total - used)]; on the domain of
    the operation, a won round, where the used counts are within the
    budget, it is strictly decreasing as the used count grows (and
    everywhere it never grows); it is [100 + 10 * (total - 1)] at a used
    count of 1 under a budget of at least 1. *)
Theorem score_formula_decreasing (total u1 u2 : Z)
    (Hlt : u1 < u2) (Hbudget : u2 <= total) :
  (forall t u, score_formula t u = 100 + 10 * Z.max 0 (t - u))
  /\ (forall t a b, a <= b -> score_formula t b <= score_formula t a)
  /\ score_formula total u2 < score_formula total u1
  /\ (1 <= total -> score_formula total 1 = 100 + 10 * (total - 1)).
Proof.
  split; [|split; [|split]].
  - intros; apply score_formula_eq.
  - intros; now apply score_formula_antitone.
  - unfold score_formula; lia.
  - intros H1. unfold score_formula; lia.
Qed.

Lemma score_formula_decreasing_witness :
  (forall t u, score_formula t u = 100 + 10 * Z.max 0 (t - u))
  /\ (forall t a b, a <= b -> score_formula t b <= score_formula t a)
  /\ score_formula 8 3 < score_formula 8 2
  /\ (1 <= 8 -> score_formula 8 1 = 100 + 10 * (8 - 1)).
Proof. apply (score_formula_decreasing 8 2 3); lia. Defined.

(** ** Best-score store *)

Section StoreFacts.

Variable int_of_str : string -> option Z.

Lemma dict_get_nonempty (key : string) (kv : list (string * json)) (v : json) :
  dict_get key kv = Some v -> truthy (JObj kv) = true.
Proof. destruct kv; simpl; [discriminate | reflexivity]. Qed.

Lemma save_score_writable (obj : json) (s : store) :
  writable s = true -> load_score (save_score obj s) = Some obj.
Proof. unfold save_score, load_score. intros ->. reflexivity. Qed.

(** C8: with a stored record whose best score is at least the new score,
    the update reports no record, returns the stored best as the current
    best, and leaves the store as it was; so does every further such
    update. *)
Theorem update_not_improving (now new_score lo hi : Z) (s : store)
    (kv : list (string * json)) (best : Z)
    (Hfile : content s = Holds (JObj kv))
    (Hbest : dict_get "best_score" kv = Some (JInt best))
    (Hle : new_score <= best) :
  update_and_store_score int_of_str now new_score lo hi s
    = (Ok (false, Some (JInt best), best), s)
  /\ forall now' new_score' lo' hi', new_score' <= best ->
       snd (update_and_store_score int_of_str now' new_score' lo' hi'
              (snd (update_and_store_score int_of_str now new_score lo hi s))) = s.
Proof.
  assert (Hupd : forall t n a b, n <= best ->
            update_and_store_score int_of_str t n a b s
              = (Ok (false, Some (JInt best), best), s)).
  { intros t n a b Hn. unfold update_and_store_score, load_score.
    rewrite Hfile, (dict_get_nonempty _ _ _ Hbest). simpl. rewrite Hbest. simpl.
    destruct (n >? best) eqn:E; [lia | reflexivity]. }
  split.
  - now apply Hupd.
  - intros t n a b Hn. rewrite (Hupd now new_score lo hi Hle). simpl.
    now rewrite (Hupd t n a b Hn).
Qed.

End StoreFacts.

Lemma update_not_improving_witness :
  let s := {| content := Holds (record_of 1000 120 1 100); writable := true |} in
  update_and_store_score Sample.int_of_str 2000 110 1 100 s
    = (Ok (false, Some (JInt 120), 120), s)
  /\ forall now' new_score' lo' hi', new_score' <= 120 ->
       snd (update_and_store_score Sample.int_of_str now' new_score' lo' hi'
              (snd (update_and_store_score Sample.int_of_str 2000 110 1 100 s))) = s.
Proof.
  apply (update_not_improving Sample.int_of_str 2000 110 1 100 _
           [("best_score"%string, JInt 120);
            ("best_range"%string, JList [JInt 1; JInt 100]);
            ("timestamp"%string, JInt 1000)] 120);
    [reflexivity | reflexivity | lia].
Defined.

(** ** Reading guesses *)

Section RoundFacts.

Variable int_of_str : string -> option Z.
Variable rng : Type.
Variable randint : Z -> Z -> rng -> result (Z * rng).


Lemma read_int_accepts (p lo hi : Z) (raw : string) (v : Z) (rest : list console) :
  int_of_str raw = Some v -> lo <= v <= hi ->
  read_int int_of_str p lo hi (Line raw :: rest) = ([Prompt p], Ok v, rest).
Proof.
  intros Hraw Hin. simpl. rewrite Hraw.
  destruct (v <? lo) eqn:E1; [lia|]. destruct (v >? hi) eqn:E2; [lia|]. reflexivity.
Qed.

Lemma read_int_skips (p lo hi : Z) (junk inputs : list console) :
  Forall (rejected int_of_str lo hi) junk ->
  exists out,
    read_int int_of_str p lo hi (junk ++ inputs)
    = (out ++ fst (fst (read_int int_of_str p lo hi inputs)),
       snd (fst (read_int int_of_str p lo hi inputs)),
       snd (read_int int_of_str p lo hi inputs))
    /\ remainings out = [] /\ filter plain out = out.
Proof.
  induction 1 as [|c junk Hc _ [out [IH [Hr Hp]]]].
  - exists []. simpl. now destruct (read_int int_of_str p lo hi inputs) as [[? ?] ?].
  - destruct c as [raw|]; [|contradiction]. simpl in Hc |- *.
    destruct (int_of_str raw) as [v|].
    + assert (E : (v <? lo) || (v >? hi) = true).
      { apply orb_true_iff. destruct Hc; [left|right]; lia. }
      rewrite E, IH. exists (Prompt p :: OutOfRange lo hi :: out).
      simpl. now rewrite Hr, Hp.
    + rewrite IH. exists (Prompt p :: InvalidInt :: out). simpl. now rewrite Hr, Hp.
Qed.

Lemma read_int_plain (p lo hi : Z) (inputs : list console) :
  remainings (fst (fst (read_int int_of_str p lo hi inputs))) = []
  /\ filter plain (fst (fst (read_int int_of_str p lo hi inputs))) = fst (fst (read_int int_of_str p lo hi inputs)).
Proof.
  induction inputs as [|c inputs [IH1 IH2]]; [now split|].
  destruct c as [raw|]; [|now split]. simpl.
  destruct (int_of_str raw) as [v|].
  - destruct ((v <? lo) || (v >? hi)); [|now split].
    destruct (read_int int_of_str p lo hi inputs) as [[? ?] ?]. simpl in *. now rewrite IH1, IH2.
  - destruct (read_int int_of_str p lo hi inputs) as [[? ?] ?]. simpl in *. now rewrite IH1, IH2.
Qed.

Lemma remainings_app (a b : list message) :
  remainings (a ++ b) = remainings a ++ remainings b.
Proof.
  induction a as [|m a IH]; [reflexivity|]. destruct m; simpl; now rewrite ?IH.
Qed.

(** *** The loop *)

Section Loop.

Variable cfg : config.
Variables secret total : Z.

Lemma loop_body_right (used : Z) :
  loop_body cfg secret total used secret = ([], Ok (true, used)).
Proof. unfold loop_body. now rewrite Z.eqb_refl. Qed.

(** A wrong guess, when the hint (if asked for) is computed. *)
Lemma loop_body_wrong (used guess : Z) :
  guess <> secret ->
  (proximity cfg = false \/
   exists t, proximity_label guess secret (min_v cfg) (max_v cfg) = Ok t) ->
  exists out,
    loop_body cfg secret total used guess
    = (out ++ [Remaining (total - (used + 1))], Ok (false, used + 1))
    /\ remainings out = []
    /\ filter plain out = [if guess <? secret then TooLow else TooHigh]
    /\ (proximity cfg = false ->
        out = [if guess <? secret then TooLow else TooHigh]).
Proof.
  intros Hne Hhint. unfold loop_body.
  destruct (guess =? secret) eqn:E; [lia|].
  destruct (proximity cfg) eqn:Hp.
  - destruct Hhint as [Hoff | [t Ht]]; [discriminate|]. rewrite Ht. simpl.
    exists [if guess <? secret then TooLow else TooHigh; Proximity t].
    repeat split; try discriminate; destruct (guess <? secret); reflexivity.
  - exists [if guess <? secret then TooLow else TooHigh].
    repeat split; destruct (guess <? secret); reflexivity.
Qed.

(** What the body can leave behind: the break on the secret, one more
    used attempt and its remaining figure, or the exception of the
    hint. *)
Lemma loop_body_cases (used guess : Z) :
  (guess = secret /\ loop_body cfg secret total used guess = ([], Ok (true, used)))
  \/ (guess <> secret /\ exists out,
        loop_body cfg secret total used guess
        = (out ++ [Remaining (total - (used + 1))], Ok (false, used + 1))
        /\ remainings out = [])
  \/ (guess <> secret /\ proximity cfg = true /\ exists out e,
        loop_body cfg secret total used guess = (out, Raise e)
        /\ remainings out = []
        /\ proximity_label guess secret (min_v cfg) (max_v cfg) = Raise e).
Proof.
  destruct (Z.eq_dec guess secret) as [->|Hne].
  - left. split; [reflexivity | apply loop_body_right].
  - right. destruct (proximity cfg) eqn:Hp.
    + destruct (proximity_label guess secret (min_v cfg) (max_v cfg)) as [t|e] eqn:Ht.
      * left. split; [assumption|].
        destruct (loop_body_wrong used guess Hne) as [out [H1 [H2 _]]]; eauto.
      * right. repeat split; try assumption.
        exists [if guess <? secret then TooLow else TooHigh], e.
        unfold loop_body. destruct (guess =? secret) eqn:E; [lia|].
        rewrite Hp, Ht. simpl. repeat split; destruct (guess <? secret); reflexivity.
    + left. split; [assumption|].
      destruct (loop_body_wrong used guess Hne) as [out [H1 [H2 _]]]; eauto.
Qed.

(** The iteration bound is never met when it covers the attempts left. *)
Lemma guess_loop_fuel (fuel : nat) :
  forall used inputs,
    (Z.to_nat (total - used) <= fuel)%nat ->
    snd (guess_loop int_of_str cfg secret total fuel used inputs) <> Spinning.
Proof.
  induction fuel as [|fuel IH]; intros used inputs Hfuel; simpl.
  - destruct (used <? total) eqn:E; [lia | discriminate].
  - destruct (used <? total) eqn:E; [|discriminate].
    destruct (read_int int_of_str (used + 1) (min_v cfg) (max_v cfg) inputs) as [[out r] rest].
    destruct r as [guess|e]; [|discriminate].
    destruct (loop_body_cases used guess)
      as [[_ H] | [[_ [o [H _]]] | [_ [_ [o [e [H _]]]]]]]; rewrite H; try discriminate.
    specialize (IH (used + 1) rest ltac:(lia)).
    destruct (guess_loop int_of_str cfg secret total fuel (used + 1) rest). exact IH.
Qed.

(** The remaining figures printed by the loop count down by one from
    the attempts left, never below zero, and the loop leaves with as
    many more attempts used. *)
Lemma guess_loop_countdown (fuel : nat) :
  forall used inputs,
    0 <= used <= total ->
    exists n : nat,
      remainings (fst (guess_loop int_of_str cfg secret total fuel used inputs))
      = countdown (total - used) n
      /\ Z.of_nat n <= total - used
      /\ forall won u,
           snd (guess_loop int_of_str cfg secret total fuel used inputs) = Exited won u ->
           u = used + Z.of_nat n.
Proof.
  induction fuel as [|fuel IH]; intros used inputs Hused; simpl.
  - exists O. destruct (used <? total); simpl; repeat split; try lia;
      intros won u H; inversion H; lia.
  - destruct (used <? total) eqn:E.
    2:{ exists O. simpl. repeat split; try lia. intros won u H; inversion H; lia. }
    pose proof (read_int_plain (used + 1) (min_v cfg) (max_v cfg) inputs) as [Hr _].
    destruct (read_int int_of_str (used + 1) (min_v cfg) (max_v cfg) inputs) as [[out r] rest].
    simpl in Hr. destruct r as [guess|e].
    2:{ exists O. simpl. rewrite Hr. repeat split; try lia. discriminate. }
    destruct (loop_body_cases used guess)
      as [[_ H] | [[_ [o [H Ho]]] | [_ [_ [o [e [H [Ho _]]]]]]]]; rewrite H.
    + exists O. simpl. rewrite remainings_app, Hr. simpl.
      repeat split; try lia. intros won u H'; inversion H'; lia.
    + destruct (IH (used + 1) rest ltac:(lia)) as [n [H1 [H2 H3]]].
      destruct (guess_loop int_of_str cfg secret total fuel (used + 1) rest) as [out'' fin].
      simpl in *. exists (S n).
      rewrite !remainings_app, Hr, Ho, H1. simpl.
      replace (total - used - 1) with (total - (used + 1)) by lia.
      repeat split; try lia. intros won u Hfin. rewrite (H3 won u Hfin). lia.
    + exists O. simpl. rewrite remainings_app, Hr, Ho.
      repeat split; try lia. discriminate.
Qed.

End Loop.

(** *** Rounds *)

Lemma play_round_finishes (cfg : config) (g : rng) (inputs : list console) :
  snd (play_round int_of_str rng randint cfg g inputs) <> Unfinished.
Proof.
  unfold play_round.
  destruct (pick_secret rng randint (min_v cfg) (max_v cfg) g) as [[secret g']|e];
    [|discriminate].
  destruct (compute_attempts _ _ _ _) as [total|e]; [|discriminate].
  pose proof (guess_loop_fuel cfg secret total (Z.to_nat total) 0 inputs ltac:(lia)) as H.
  destruct (guess_loop int_of_str cfg secret total (Z.to_nat total) 0 inputs) as [out fin].
  destruct fin as [[|] used|e|]; simpl in *; try discriminate. contradiction.
Qed.

(** C2: when the first guess read is the secret, the loop leaves with its
    counter still at 0 and the round reports one used attempt (never
    zero), in the win message, in the returned count and as the count the
    score is computed from. *)
Theorem first_guess_wins (cfg : config) (g g' : rng) (secret total : Z)
    (junk : list console) (raw : string) (rest : list console)
    (Hsecret : pick_secret rng randint (min_v cfg) (max_v cfg) g = Ok (secret, g'))
    (Hin : min_v cfg <= secret <= max_v cfg)
    (Htotal : compute_attempts (min_v cfg) (max_v cfg) (difficulty cfg) (attempts cfg)
              = Ok total)
    (Hpos : 1 <= total)
    (Hjunk : Forall (rejected int_of_str (min_v cfg) (max_v cfg)) junk)
    (Hraw : int_of_str raw = Some secret) :
  snd (guess_loop int_of_str cfg secret total (Z.to_nat total) 0
         (junk ++ Line raw :: rest)) = Exited true 0
  /\ exists out,
       play_round int_of_str rng randint cfg g (junk ++ Line raw :: rest)
       = (out ++ [Win 1 true], Returned true 1 (score_formula total 1)).
Proof.
  unfold play_round. rewrite Hsecret, Htotal.
  destruct (Z.to_nat total) as [|fuel] eqn:Ef; [lia|].
  cbn [guess_loop].
  destruct (Z.ltb_spec 0 total) as [_|?]; [|lia].
  destruct (read_int_skips (0 + 1) (min_v cfg) (max_v cfg) junk (Line raw :: rest) Hjunk)
    as [out [-> _]].
  rewrite (read_int_accepts _ _ _ raw secret rest Hraw Hin). cbn [fst snd].
  rewrite loop_body_right. cbn [Z.eqb negb]. split; [reflexivity|].
  eexists. rewrite !app_assoc. reflexivity.
Qed.

(** *** Hints are advisory *)

Lemma guess_loop_hints (cfg : config) (secret total : Z)
    (Hhint : forall guess,
        exists t, proximity_label guess secret (min_v cfg) (max_v cfg) = Ok t)
    (fuel : nat) :
  forall used inputs,
    snd (guess_loop int_of_str (with_proximity true cfg) secret total fuel used inputs)
    = snd (guess_loop int_of_str (with_proximity false cfg) secret total fuel used inputs)
    /\ filter plain (fst (guess_loop int_of_str (with_proximity true cfg) secret total fuel used inputs))
       = fst (guess_loop int_of_str (with_proximity false cfg) secret total fuel used inputs).
Proof.
  induction fuel as [|fuel IH]; intros used inputs; cbn [guess_loop].
  - destruct (used <? total); split; reflexivity.
  - destruct (used <? total); [|split; reflexivity].
    change (min_v (with_proximity true cfg)) with (min_v cfg).
    change (max_v (with_proximity true cfg)) with (max_v cfg).
    change (min_v (with_proximity false cfg)) with (min_v cfg).
    change (max_v (with_proximity false cfg)) with (max_v cfg).
    pose proof (read_int_plain (used + 1) (min_v cfg) (max_v cfg) inputs) as [_ Hp].
    destruct (read_int int_of_str (used + 1) (min_v cfg) (max_v cfg) inputs) as [[out r] rest].
    cbn [fst snd] in Hp. destruct r as [guess|e]; [|split; [reflexivity | exact Hp]].
    destruct (Z.eq_dec guess secret) as [->|Hne].
    + rewrite !loop_body_right. cbn [fst snd]. split; [reflexivity|].
      now rewrite app_nil_r, Hp.
    + destruct (loop_body_wrong (with_proximity true cfg) secret total used guess Hne)
        as [o1 [-> [_ [Ho1 _]]]]; [right; apply Hhint|].
      destruct (loop_body_wrong (with_proximity false cfg) secret total used guess Hne)
        as [o2 [-> [_ [_ Eo2]]]]; [left; reflexivity|].
      specialize (Eo2 eq_refl).
      specialize (IH (used + 1) rest).
      destruct (guess_loop int_of_str (with_proximity true cfg) secret total fuel (used + 1) rest)
        as [out1 fin1].
      destruct (guess_loop int_of_str (with_proximity false cfg) secret total fuel (used + 1) rest)
        as [out2 fin2].
      cbn [fst snd] in *. destruct IH as [-> IHo]. split; [reflexivity|].
      rewrite !filter_app, Hp, Ho1, IHo, Eo2. reflexivity.
Qed.

(** C6 (amended): on a range whose size converts to a float, a round
    with the proximity hints on and the same round with the hints off
    end alike: same exception or same won flag, used count and score,
    and, the hint messages left out, the same messages (so the same
    prompts and remaining-attempt figures). *)
Theorem hints_advisory (cfg : config) (g : rng) (inputs : list console)
    (x : spec_float) (Hfloat : Float.of_int (range_size cfg) = Ok x) :
  snd (play_round int_of_str rng randint (with_proximity true cfg) g inputs)
  = snd (play_round int_of_str rng randint (with_proximity false cfg) g inputs)
  /\ filter plain (fst (play_round int_of_str rng randint (with_proximity true cfg) g inputs))
     = fst (play_round int_of_str rng randint (with_proximity false cfg) g inputs).
Proof.
  unfold play_round.
  cbn [with_proximity min_v max_v difficulty attempts proximity quiet].
  destruct (pick_secret rng randint (min_v cfg) (max_v cfg) g) as [[secret g']|e];
    [|split; reflexivity].
  destruct (compute_attempts _ _ _ _) as [total|e]; [|split; reflexivity].
  assert (Hhint : forall guess,
             exists t, proximity_label guess secret (min_v cfg) (max_v cfg) = Ok t).
  { intros guess. exact (proximity_label_defined guess secret _ _ x Hfloat). }
  destruct (guess_loop_hints cfg secret total Hhint (Z.to_nat total) 0 inputs)
    as [Hfin Hout].
  destruct (guess_loop int_of_str (with_proximity true cfg) secret total (Z.to_nat total) 0 inputs)
    as [out1 fin1].
  destruct (guess_loop int_of_str (with_proximity false cfg) secret total (Z.to_nat total) 0 inputs)
    as [out2 fin2].
  cbn [fst snd] in Hfin, Hout. subst fin2 out2.
  assert (Hintro :
    filter plain
      (if negb (quiet cfg)
       then [Title; Intro (min_v cfg) (max_v cfg) total] ++ [HelpProximity]
            ++ (if quiet cfg then [HelpQuiet] else [])
       else [])
    = (if negb (quiet cfg)
       then [Title; Intro (min_v cfg) (max_v cfg) total] ++ []
            ++ (if quiet cfg then [HelpQuiet] else [])
       else [])).
  { destruct (quiet cfg); reflexivity. }
  destruct fin1 as [[|] used|e|]; cbn [fst snd]; (split; [reflexivity|]);
    rewrite ?filter_app, Hintro; reflexivity.
Qed.


Lemma guess_loop_misses (cfg : config) (secret total : Z)
    (Hhint : proximity cfg = false
             \/ exists x, Float.of_int (range_size cfg) = Ok x)
    (raw : string) (rest : list console)
    (Hraw : int_of_str raw = Some secret)
    (Hin : min_v cfg <= secret <= max_v cfg)
    (misses : list console) :
  Forall (miss int_of_str (min_v cfg) (max_v cfg) secret) misses ->
  forall fuel used,
    used + Z.of_nat (List.length misses) < total ->
    (List.length misses < fuel)%nat ->
    snd (guess_loop int_of_str cfg secret total fuel used (misses ++ Line raw :: rest))
    = Exited true (used + Z.of_nat (List.length misses)).
Proof.
  induction 1 as [|c misses Hc _ IH]; intros fuel used Hlt Hfuel;
    (destruct fuel as [|fuel]; [simpl in Hfuel; lia|]); cbn [guess_loop app].
  - destruct (Z.ltb_spec used total); [|simpl in Hlt; lia].
    rewrite (read_int_accepts _ _ _ raw secret rest Hraw Hin).
    rewrite loop_body_right. cbn [snd List.length Z.of_nat]. f_equal. lia.
  - destruct (Z.ltb_spec used total); [|simpl in Hlt; lia].
    destruct c as [r|]; [|contradiction]. destruct Hc as [v [Hv [Hvin Hne]]].
    rewrite (read_int_accepts _ _ _ r v _ Hv Hvin).
    destruct (loop_body_wrong cfg secret total used v Hne) as [out [-> _]].
    { destruct Hhint as [Hoff | [x Hx]]; [now left | right].
      exact (proximity_label_defined v secret _ _ x Hx). }
    specialize (IH fuel (used + 1)).
    destruct (guess_loop int_of_str cfg secret total fuel (used + 1)
                (misses ++ Line raw :: rest)) as [out' fin].
    cbn [snd] in *. rewrite IH.
    + f_equal. cbn [List.length]. lia.
    + cbn [List.length] in Hlt. lia.
    + cbn [List.length] in Hfuel. lia.
Qed.

(** What the code reports for a win after [k] wrong guesses: [max(1, k)]
    used attempts, and the score of that count. *)
Lemma win_after_misses (cfg : config) (g g' : rng) (secret total : Z)
    (misses : list console) (raw : string) (rest : list console)
    (Hhint : proximity cfg = false
             \/ exists x, Float.of_int (range_size cfg) = Ok x)
    (Hsecret : pick_secret rng randint (min_v cfg) (max_v cfg) g = Ok (secret, g'))
    (Hin : min_v cfg <= secret <= max_v cfg)
    (Htotal : compute_attempts (min_v cfg) (max_v cfg) (difficulty cfg) (attempts cfg)
              = Ok total)
    (Hmisses : Forall (miss int_of_str (min_v cfg) (max_v cfg) secret) misses)
    (Hbudget : Z.of_nat (List.length misses) < total)
    (Hraw : int_of_str raw = Some secret) :
  snd (play_round int_of_str rng randint cfg g (misses ++ Line raw :: rest))
  = Returned true (Z.max 1 (Z.of_nat (List.length misses)))
      (score_formula total (Z.max 1 (Z.of_nat (List.length misses)))).
Proof.
  unfold play_round. rewrite Hsecret, Htotal.
  pose proof (guess_loop_misses cfg secret total Hhint raw rest Hraw Hin misses Hmisses
                (Z.to_nat total) 0 ltac:(lia) ltac:(lia)) as H.
  destruct (guess_loop int_of_str cfg secret total (Z.to_nat total) 0
              (misses ++ Line raw :: rest)) as [out fin].
  cbn [snd] in H. subst fin. cbn [snd]. 
  replace (0 + Z.of_nat (List.length misses)) with (Z.of_nat (List.length misses)) by lia.
  destruct (Z.eqb_spec (Z.of_nat (List.length misses)) 0) as [E|E].
  - rewrite E. reflexivity.
  - replace (Z.max 1 (Z.of_nat (List.length misses))) with (Z.of_nat (List.length misses)) by lia.
    reflexivity.
Qed.

End RoundFacts.


(** C6, as stated for every round, fails: on the range [0 .. 2^1024] the
    round with hints ends in OverflowError at the first wrong guess, the
    round without hints is won at the second guess. *)
Lemma hints_abort_round :
  snd (play_round Sample.int_of_str Sample.rng Sample.randint
         (with_proximity true (Sample.cfg 0 (2 ^ 1024) "hard" false)) [1]
         [Line "0"; Line "1"])
  <> snd (play_round Sample.int_of_str Sample.rng Sample.randint
            (with_proximity false (Sample.cfg 0 (2 ^ 1024) "hard" false)) [1]
            [Line "0"; Line "1"]).
Proof. vm_compute. discriminate. Qed.

Lemma first_guess_wins_witness :
  exists out,
    play_round Sample.int_of_str Sample.rng Sample.randint
      (Sample.cfg 1 10 "hard" true) [7] ([Line "x"; Line "11"] ++ Line "7" :: [])
    = (out ++ [Win 1 true], Returned true 1 (score_formula 4 1)).
Proof.
  refine (proj2 (first_guess_wins Sample.int_of_str Sample.rng Sample.randint
                   (Sample.cfg 1 10 "hard" true) [7] [] 7 4 [Line "x"; Line "11"] "7" []
                   _ _ _ _ _ _)).
  - reflexivity.
  - simpl; lia.
  - reflexivity.
  - lia.
  - repeat constructor; simpl; lia.
  - reflexivity.
Defined.

Lemma hints_advisory_witness :
  snd (play_round Sample.int_of_str Sample.rng Sample.randint
         (with_proximity true (Sample.cfg 1 100 "normal" false)) [42]
         [Line "50"; Line "40"; Line "42"])
  = snd (play_round Sample.int_of_str Sample.rng Sample.randint
           (with_proximity false (Sample.cfg 1 100 "normal" false)) [42]
           [Line "50"; Line "40"; Line "42"]).
Proof.
  refine (proj1 (hints_advisory Sample.int_of_str Sample.rng Sample.randint
                   (Sample.cfg 1 100 "normal" false) [42]
                   [Line "50"; Line "40"; Line "42"]
                   (S754_finite false 7036874417766400 (-46)) _)).
  reflexivity.
Defined.


(** C1, as stated, fails on the code: the winning guess is not counted.
    One wrong guess and then the secret, under a budget of 4, returns a
    used count of 1 and the score 130 of a first-guess win, where the claim
    has 2 and [100 + 10 * (4 - 2) = 120]; the prompt of the winning
    guess was numbered 2. *)
Theorem second_guess_reports_one :
  play_round Sample.int_of_str Sample.rng Sample.randint
    (Sample.cfg 1 10 "hard" false) [7] [Line "5"; Line "7"]
  = ([Title; Intro 1 10 4; Prompt 1; TooLow; Remaining 3; Prompt 2; Win 1 false],
     Returned true 1 130).
Proof. reflexivity. Qed.

(** ** Start of main *)

(** C10: with [min < max] the attempt budget is at least 1 for every
    difficulty and override, and [main] starts the session with it; no
    arguments make [main] leave through the attempts configuration
    error. *)
Theorem attempts_error_unreachable (args : config)
    (Hrange : min_v args < max_v args) :
  (exists n,
      compute_attempts (min_v args) (max_v args) (difficulty args) (attempts args) = Ok n
      /\ 1 <= n
      /\ (version args = false -> main_startup args = Start n))
  /\ (forall lo hi level override,
         lo < hi -> exists n, compute_attempts lo hi level override = Ok n /\ 1 <= n)
  /\ forall a status, main_startup a <> Exit ConfigErrorAttempts status.
Proof.
  split; [|split].
  - destruct (compute_attempts_ge_1 (min_v args) (max_v args) (difficulty args)
                (attempts args) Hrange) as [n [Hn H1]].
    exists n. repeat split; try assumption.
    intros Hv. unfold main_startup. rewrite Hv, Hn.
    destruct (Z.ltb_spec (min_v args) (max_v args)); [|lia].
    destruct (Z.ltb_spec n 1); [lia | reflexivity].
  - intros lo hi level override H. now apply compute_attempts_ge_1.
  - intros a status. unfold main_startup.
    destruct (version a); [discriminate|].
    destruct (Z.ltb_spec (min_v a) (max_v a)) as [H|H]; [|discriminate].
    destruct (compute_attempts_ge_1 (min_v a) (max_v a) (difficulty a) (attempts a) H)
      as [n [-> H1]].
    cbn [negb]. destruct (Z.ltb_spec n 1); [lia | discriminate].
Qed.

Lemma attempts_error_unreachable_witness :
  exists n,
    compute_attempts 1 2 "hard" None = Ok n /\ 1 <= n
    /\ (false = false -> main_startup (Sample.cfg 1 2 "hard" false) = Start n).
Proof.
  exact (proj1 (attempts_error_unreachable (Sample.cfg 1 2 "hard" false)
                  ltac:(simpl; lia))).
Defined.

(** ** Scenarios *)

Example budget_normal_1_100 : compute_attempts 1 100 "normal" None = Ok 8.
Proof. reflexivity. Qed.

Example budget_override :
  compute_attempts 1 1000 "easy" (Some 3) = Ok 3
  /\ compute_attempts 1 1000 "hard" (Some (-2)) = Ok 1.
Proof. split; reflexivity. Qed.

Example budget_empty_range : compute_attempts 5 4 "hard" None = Raise ValueError.
Proof. reflexivity. Qed.

Example conversion_rounds :
  Float.of_int (2 ^ 60 + 1) = Ok (S754_finite false (2 ^ 52) 8)
  /\ to_double (2 ^ 60 + 1) = 2 ^ 60.
Proof. split; vm_compute; reflexivity. Qed.

Example hint_on_small_range : proximity_label 40 47 1 100 = Ok Warm.
Proof. vm_compute. reflexivity. Qed.

Example hint_overflow : proximity_label 0 1 0 (2 ^ 1024) = Raise OverflowError.
Proof. vm_compute. reflexivity. Qed.

Example round_lost :
  play_round Sample.int_of_str Sample.rng Sample.randint
    (Sample.cfg 1 10 "hard" false) [7]
    [Line "1"; Line "2"; Line "3"; Line "4"; Line "7"]
  = ([Title; Intro 1 10 4;
      Prompt 1; TooLow; Remaining 3; Prompt 2; TooLow; Remaining 2;
      Prompt 3; TooLow; Remaining 1; Prompt 4; TooLow; Remaining 0; Lose 7],
     Returned false 4 0).
Proof. reflexivity. Qed.

Example round_input_ends :
  snd (play_round Sample.int_of_str Sample.rng Sample.randint
         (Sample.cfg 1 10 "hard" false) [7] [Line "1"; Line "seven"])
  = Raised EOFError.
Proof. reflexivity. Qed.

Example two_wins_120_then_110 :
  let s0 := {| content := Missing; writable := true |} in
  let '(r1, s1) := update_and_store_score Sample.int_of_str 1000 120 1 100 s0 in
  let '(r2, s2) := update_and_store_score Sample.int_of_str 2000 110 1 100 s1 in
  r1 = Ok (true, None, 120) /\ r2 = Ok (false, Some (JInt 120), 120) /\ s2 = s1.
Proof. repeat split; reflexivity. Qed.

Example stored_list_is_no_dict :
  fst (update_and_store_score Sample.int_of_str 1000 120 1 100
         {| content := Holds (JList [JInt 1]); writable := true |})
  = Raise AttributeError.
Proof. reflexivity. Qed.

(** * Further properties of the code *)

(** ** What [read_int] hands back *)

Section ReadFacts.

Variable int_of_str : string -> option Z.

Lemma read_int_ok (p lo hi : Z) (inputs : list console) :
  forall out v rest,
    read_int int_of_str p lo hi inputs = (out, Ok v, rest) ->
    lo <= v <= hi
    /\ exists junk raw,
         inputs = junk ++ Line raw :: rest
         /\ Forall (rejected int_of_str lo hi) junk
         /\ int_of_str raw = Some v
         /\ List.length out = S (2 * List.length junk).
Proof.
  induction inputs as [|c inputs IH]; intros out v rest; cbn [read_int].
  - discriminate.
  - destruct c as [raw|]; [|discriminate].
    destruct (int_of_str raw) as [val|] eqn:Eraw.
    + destruct (Z.ltb_spec val lo) as [Hlo|Hlo]; cbn [orb].
      * destruct (read_int int_of_str p lo hi inputs) as [[o r] rest'] eqn:E.
        intros H; inversion H; subst.
        destruct (IH _ _ _ eq_refl) as [Hv [junk [raw' [-> [Hj [Hr Hlen]]]]]].
        split; [exact Hv|]. exists (Line raw :: junk), raw'.
        repeat split; try assumption.
        -- constructor; [|exact Hj]. cbn [rejected]. rewrite Eraw. now left.
        -- cbn [List.length]. rewrite Hlen. lia.
      * destruct (Z.gtb_spec val hi) as [Hhi|Hhi].
        -- destruct (read_int int_of_str p lo hi inputs) as [[o r] rest'] eqn:E.
           intros H; inversion H; subst.
           destruct (IH _ _ _ eq_refl) as [Hv [junk [raw' [-> [Hj [Hr Hlen]]]]]].
           split; [exact Hv|]. exists (Line raw :: junk), raw'.
           repeat split; try assumption.
           ++ constructor; [|exact Hj]. cbn [rejected]. rewrite Eraw. right; lia.
           ++ cbn [List.length]. rewrite Hlen. lia.
        -- intros H; inversion H; subst. split; [lia|].
           exists [], raw. repeat split; try assumption. constructor.
    + destruct (read_int int_of_str p lo hi inputs) as [[o r] rest'] eqn:E.
      intros H; inversion H; subst.
      destruct (IH _ _ _ eq_refl) as [Hv [junk [raw' [-> [Hj [Hr Hlen]]]]]].
      split; [exact Hv|]. exists (Line raw :: junk), raw'.
      repeat split; try assumption.
      * constructor; [|exact Hj]. cbn [rejected]. now rewrite Eraw.
      * cbn [List.length]. rewrite Hlen. lia.
Qed.


Lemma read_int_raises (p lo hi : Z) (inputs : list console) (e : exn) :
  snd (fst (read_int int_of_str p lo hi inputs)) = Raise e ->
  (e = EOFError /\ Forall (rejected int_of_str lo hi) inputs
   /\ snd (read_int int_of_str p lo hi inputs) = [])
  \/ (e = KeyboardInterrupt /\ In CtrlC inputs).
Proof.
  induction inputs as [|c inputs IH]; cbn [read_int].
  - intros H; inversion H. left. repeat split. constructor.
  - destruct c as [raw|].
    2:{ intros H; inversion H. right. split; [reflexivity | now left]. }
    destruct (int_of_str raw) as [val|] eqn:Eraw.
    + destruct (Z.ltb_spec val lo) as [Hlo|Hlo]; cbn [orb].
      * destruct (read_int int_of_str p lo hi inputs) as [[o r] rest'].
        cbn [fst snd] in *. intros H.
        destruct (IH H) as [[-> [Hj Hrest]] | [-> Hin]]; [left | right].
        -- repeat split; try assumption. constructor; [|exact Hj].
           cbn [rejected]. rewrite Eraw. now left.
        -- split; [reflexivity | now right].
      * destruct (Z.gtb_spec val hi) as [Hhi|Hhi]; [|discriminate].
        destruct (read_int int_of_str p lo hi inputs) as [[o r] rest'].
        cbn [fst snd] in *. intros H.
        destruct (IH H) as [[-> [Hj Hrest]] | [-> Hin]]; [left | right].
        -- repeat split; try assumption. constructor; [|exact Hj].
           cbn [rejected]. rewrite Eraw. right; lia.
        -- split; [reflexivity | now right].
    + destruct (read_int int_of_str p lo hi inputs) as [[o r] rest'].
      cbn [fst snd] in *. intros H.
      destruct (IH H) as [[-> [Hj Hrest]] | [-> Hin]]; [left | right].
      * repeat split; try assumption. constructor; [|exact Hj].
        cbn [rejected]. now rewrite Eraw.
      * split; [reflexivity | now right].
Qed.

Lemma read_int_all_rejected (p lo hi : Z) (inputs : list console) :
  Forall (rejected int_of_str lo hi) inputs ->
  snd (fst (read_int int_of_str p lo hi inputs)) = Raise EOFError.
Proof.
  induction 1 as [|c inputs Hc _ IH]; [reflexivity|].
  destruct c as [raw|]; [|contradiction]. cbn [read_int]. cbn [rejected] in Hc.
  destruct (int_of_str raw) as [val|].
  - assert (E : (val <? lo) || (val >? hi) = true).
    { apply orb_true_iff. destruct Hc; [left|right]; lia. }
    rewrite E. destruct (read_int int_of_str p lo hi inputs) as [[o r] rest']. exact IH.
  - destruct (read_int int_of_str p lo hi inputs) as [[o r] rest']. exact IH.
Qed.

(** X2: [read_int] fails in two ways only. It raises EOFError exactly
    when every line of the input is turned down (so always on an empty
    range, [max < min], unless Ctrl-C comes first), and
    KeyboardInterrupt only when the input holds a Ctrl-C. *)
Theorem read_int_failures (p lo hi : Z) (inputs : list console) :
  (snd (fst (read_int int_of_str p lo hi inputs)) = Raise EOFError
   <-> Forall (rejected int_of_str lo hi) inputs)
  /\ (forall e, snd (fst (read_int int_of_str p lo hi inputs)) = Raise e ->
        e = EOFError \/ (e = KeyboardInterrupt /\ In CtrlC inputs))
  /\ (hi < lo -> forall v, snd (fst (read_int int_of_str p lo hi inputs)) <> Ok v).
Proof.
  split; [|split].
  - split.
    + intros H. destruct (read_int_raises p lo hi inputs EOFError H)
        as [[_ [Hj _]] | [Habs _]]; [exact Hj | discriminate].
    + apply read_int_all_rejected.
  - intros e H. destruct (read_int_raises p lo hi inputs e H) as [[-> _] | [-> Hin]];
      [now left | right; now split].
  - intros Hempty v H.
    destruct (read_int int_of_str p lo hi inputs) as [[out r] rest] eqn:E.
    cbn [fst snd] in H. subst r.
    destruct (read_int_ok p lo hi inputs out v rest E) as [Hv _]. lia.
Qed.

End ReadFacts.


(** ** How a round ends *)

Section EndFacts.

Variable int_of_str : string -> option Z.
Variable rng : Type.
Variable randint : Z -> Z -> rng -> result (Z * rng).

Lemma countdown_length (r : Z) (n : nat) : List.length (countdown r n) = n.
Proof. revert r; induction n as [|n IH]; intros r; simpl; [reflexivity | now rewrite IH]. Qed.

(** The loop is left on a win only within the budget, and without one
    only when the budget is spent. *)
Lemma guess_loop_exit (cfg : config) (secret total : Z) (fuel : nat) :
  forall used inputs won u,
    snd (guess_loop int_of_str cfg secret total fuel used inputs) = Exited won u ->
    if won then u < total else total <= u.
Proof.
  induction fuel as [|fuel IH]; intros used inputs won u; cbn [guess_loop].
  - destruct (Z.ltb_spec used total) as [Hlt|Hge]; [discriminate|].
    intros H; inversion H; subst. exact Hge.
  - destruct (Z.ltb_spec used total) as [Hlt|Hge].
    2:{ intros H; inversion H; subst. exact Hge. }
    destruct (read_int int_of_str (used + 1) (min_v cfg) (max_v cfg) inputs) as [[out r] rest].
    destruct r as [guess|e]; [|discriminate].
    destruct (loop_body_cases cfg secret total used guess)
      as [[_ H] | [[_ [o [H _]]] | [_ [_ [o [e [H _]]]]]]]; rewrite H.
    + intros H'; inversion H'; subst. exact Hlt.
    + specialize (IH (used + 1) rest won u).
      destruct (guess_loop int_of_str cfg secret total fuel (used + 1) rest). exact IH.
    + discriminate.
Qed.

Lemma read_int_no_intro (p lo hi : Z) (inputs : list console) :
  Forall (fun m => intro_message m = false)
         (fst (fst (read_int int_of_str p lo hi inputs))).
Proof.
  induction inputs as [|c inputs IH]; cbn [read_int].
  - repeat constructor.
  - destruct c as [raw|]; [|repeat constructor].
    destruct (int_of_str raw) as [v|].
    + destruct ((v <? lo) || (v >? hi)); [|repeat constructor].
      destruct (read_int int_of_str p lo hi inputs) as [[? ?] ?].
      repeat constructor. exact IH.
    + destruct (read_int int_of_str p lo hi inputs) as [[? ?] ?].
      repeat constructor. exact IH.
Qed.

Lemma loop_body_no_intro (cfg : config) (secret total used guess : Z) :
  Forall (fun m => intro_message m = false)
         (fst (loop_body cfg secret total used guess)).
Proof.
  unfold loop_body. destruct (guess =? secret); [constructor|].
  destruct (proximity cfg).
  - destruct (proximity_label _ _ _ _); cbn [bind fst];
      destruct (guess <? secret); repeat constructor.
  - destruct (guess <? secret); repeat constructor.
Qed.

Lemma guess_loop_no_intro (cfg : config) (secret total : Z) (fuel : nat) :
  forall used inputs,
    Forall (fun m => intro_message m = false)
           (fst (guess_loop int_of_str cfg secret total fuel used inputs)).
Proof.
  induction fuel as [|fuel IH]; intros used inputs; cbn [guess_loop].
  - destruct (used <? total); constructor.
  - destruct (used <? total); [|constructor].
    pose proof (read_int_no_intro (used + 1) (min_v cfg) (max_v cfg) inputs) as Hr.
    destruct (read_int int_of_str (used + 1) (min_v cfg) (max_v cfg) inputs) as [[out r] rest].
    cbn [fst] in Hr. destruct r as [guess|e]; [|exact Hr].
    pose proof (loop_body_no_intro cfg secret total used guess) as Hb.
    destruct (loop_body cfg secret total used guess) as [out' r'].
    cbn [fst] in Hb. destruct r' as [[[|] u]|e]; cbn [fst];
      try (apply Forall_app; split; assumption).
    specialize (IH u rest).
    destruct (guess_loop int_of_str cfg secret total fuel u rest) as [out'' fin].
    cbn [fst] in *. repeat (apply Forall_app; split; try assumption).
Qed.

Lemma filter_none {A : Type} (f : A -> bool) (l : list A) :
  Forall (fun x => f x = false) l -> filter (fun x => negb (f x)) l = l.
Proof.
  induction 1 as [|x l Hx _ IH]; [reflexivity|]. cbn [filter]. now rewrite Hx, IH.
Qed.

Lemma no_intro_remainings (l : list message) :
  Forall (fun m => intro_message m = true) l -> remainings l = [].
Proof.
  induction 1 as [|m l Hm _ IH]; [reflexivity|]. destruct m; try discriminate; exact IH.
Qed.

(** The intro block of [play_round]. *)
Lemma intro_block (cfg : config) (total : Z) :
  Forall (fun m => intro_message m = true)
    (if negb (quiet cfg)
     then [Title; Intro (min_v cfg) (max_v cfg) total]
          ++ (if proximity cfg then [HelpProximity] else [])
          ++ (if quiet cfg then [HelpQuiet] else [])
     else [])
  /\ ~ In HelpQuiet
       (if negb (quiet cfg)
        then [Title; Intro (min_v cfg) (max_v cfg) total]
             ++ (if proximity cfg then [HelpProximity] else [])
             ++ (if quiet cfg then [HelpQuiet] else [])
        else []).
Proof.
  destruct (quiet cfg), (proximity cfg); cbn; split; repeat constructor;
    intros H; repeat (destruct H as [H|H]; try discriminate); exact H.
Qed.

(** X3: a round that is lost has spent the whole budget: the used count
    returned is the budget, the score is 0, the remaining figures have
    counted down from the budget to 0, and the last message gives the
    secret away. *)
Theorem lost_round_spends_budget (cfg : config) (g : rng) (inputs : list console)
    (out : list message) (used score : Z)
    (Hlost : play_round int_of_str rng randint cfg g inputs
             = (out, Returned false used score)) :
  exists secret g' total out',
    pick_secret rng randint (min_v cfg) (max_v cfg) g = Ok (secret, g')
    /\ compute_attempts (min_v cfg) (max_v cfg) (difficulty cfg) (attempts cfg) = Ok total
    /\ used = total /\ score = 0
    /\ out = out' ++ [Lose secret]
    /\ remainings out = countdown total (Z.to_nat total).
Proof.
  revert Hlost. unfold play_round.
  destruct (pick_secret rng randint (min_v cfg) (max_v cfg) g) as [[secret g']|e];
    [|discriminate].
  destruct (compute_attempts _ _ _ _) as [total|e] eqn:Et; [|discriminate].
  pose proof (compute_attempts_nonneg _ _ _ _ _ Et) as Hpos.
  destruct (guess_loop_countdown int_of_str cfg secret total (Z.to_nat total) 0 inputs
              ltac:(lia)) as [n [Hrem [Hn Hu]]].
  pose proof (guess_loop_exit cfg secret total (Z.to_nat total) 0 inputs) as Hexit.
  destruct (intro_block cfg total) as [Hintro _].
  apply no_intro_remainings in Hintro. cbv zeta.
  set (intro := if negb (quiet cfg) then _ else _) in *.
  destruct (guess_loop int_of_str cfg secret total (Z.to_nat total) 0 inputs) as [o fin].
  cbn [fst snd] in *.
  destruct fin as [[|] u|e|]; intros H; inversion H; subst used score out; clear H.
  specialize (Hu false u eq_refl). specialize (Hexit false u eq_refl). cbn in Hexit.
  assert (Hnt : n = Z.to_nat total) by lia.
  exists secret, g', total, (intro ++ o).
  split; [reflexivity|]. split; [reflexivity|].
  split; [destruct (Z.eqb_spec u 0); lia|]. split; [reflexivity|].
  split; [now rewrite app_assoc|].
  rewrite !remainings_app, Hintro, Hrem, <- Hnt.
  cbn [remainings app]. rewrite app_nil_r. f_equal. lia.
Qed.

(** X4: a round that is won reports as used count the number of wrong
    guesses made, or 1 when there was none: the winning guess itself is
    counted only in a first-guess win. The count is between 1 and the
    budget, the score is [100 + 10 * (budget - count)], at least 100,
    and the last message is the win message with that count. *)
Theorem won_round_counts_misses (cfg : config) (g : rng) (inputs : list console)
    (out : list message) (used score : Z)
    (Hwon : play_round int_of_str rng randint cfg g inputs
            = (out, Returned true used score)) :
  exists total out',
    compute_attempts (min_v cfg) (max_v cfg) (difficulty cfg) (attempts cfg) = Ok total
    /\ used = Z.max 1 (Z.of_nat (List.length (remainings out)))
    /\ Z.of_nat (List.length (remainings out)) < total
    /\ 1 <= used <= total
    /\ score = 100 + 10 * (total - used)
    /\ 100 <= score
    /\ out = out' ++ [Win used (negb (Z.of_nat (List.length (remainings out)) =? 1))].
Proof.
  revert Hwon. unfold play_round.
  destruct (pick_secret rng randint (min_v cfg) (max_v cfg) g) as [[secret g']|e];
    [|discriminate].
  destruct (compute_attempts _ _ _ _) as [total|e] eqn:Et; [|discriminate].
  destruct (guess_loop_countdown int_of_str cfg secret total (Z.to_nat total) 0 inputs
              ltac:(pose proof (compute_attempts_nonneg _ _ _ _ _ Et); lia))
    as [n [Hrem [Hn Hu]]].
  pose proof (guess_loop_exit cfg secret total (Z.to_nat total) 0 inputs) as Hexit.
  destruct (intro_block cfg total) as [Hintro _].
  apply no_intro_remainings in Hintro. cbv zeta.
  set (intro := if negb (quiet cfg) then _ else _) in *.
  destruct (guess_loop int_of_str cfg secret total (Z.to_nat total) 0 inputs) as [o fin].
  cbn [fst snd] in *.
  destruct fin as [[|] u|e|]; intros H; inversion H; subst used score out; clear H.
  specialize (Hu true u eq_refl). specialize (Hexit true u eq_refl). cbn in Hexit.
  assert (Hlen : Z.of_nat (List.length
             (remainings
                (intro ++ o ++ [Win (if u =? 0 then 1 else u) (negb (u =? 1))]))) = u).
  { rewrite !remainings_app, Hintro, Hrem.
    cbn [remainings app]. rewrite app_nil_r, countdown_length. lia. }
  rewrite Hlen. exists total, (intro ++ o).
  unfold score_formula.
  destruct (Z.eqb_spec u 0) as [E|E]; repeat split; try lia;
    rewrite app_assoc; do 2 f_equal; lia.
Qed.

Lemma guess_loop_quiet (b : bool) (cfg : config) (secret total : Z) (fuel : nat) :
  forall used inputs,
    guess_loop int_of_str (with_quiet b cfg) secret total fuel used inputs
    = guess_loop int_of_str cfg secret total fuel used inputs.
Proof. reflexivity. Qed.

(** The messages of a round with and without [cfg.quiet]. *)
Lemma play_round_quiet (cfg : config) (g : rng) (inputs : list console) :
  snd (play_round int_of_str rng randint (with_quiet true cfg) g inputs)
  = snd (play_round int_of_str rng randint (with_quiet false cfg) g inputs)
  /\ fst (play_round int_of_str rng randint (with_quiet true cfg) g inputs)
     = filter (fun m => negb (intro_message m))
         (fst (play_round int_of_str rng randint (with_quiet false cfg) g inputs))
  /\ ~ In HelpQuiet (fst (play_round int_of_str rng randint cfg g inputs)).
Proof.
  split; [|split].
  - unfold play_round. cbn [with_quiet min_v max_v difficulty attempts proximity quiet negb].
    destruct (pick_secret rng randint (min_v cfg) (max_v cfg) g) as [[secret g']|e];
      [|reflexivity].
    destruct (compute_attempts _ _ _ _) as [total|e]; [|reflexivity].
    rewrite !guess_loop_quiet.
    destruct (guess_loop int_of_str cfg secret total (Z.to_nat total) 0 inputs) as [o fin].
    destruct fin as [[|] u|e|]; reflexivity.
  - unfold play_round. cbn [with_quiet min_v max_v difficulty attempts proximity quiet negb].
    destruct (pick_secret rng randint (min_v cfg) (max_v cfg) g) as [[secret g']|e];
      [|reflexivity].
    destruct (compute_attempts _ _ _ _) as [total|e]; [|reflexivity].
    rewrite !guess_loop_quiet.
    pose proof (guess_loop_no_intro cfg secret total (Z.to_nat total) 0 inputs) as Hno.
    destruct (guess_loop int_of_str cfg secret total (Z.to_nat total) 0 inputs) as [o fin].
    cbn [fst] in Hno. apply filter_none in Hno.
    destruct fin as [[|] u|e|], (proximity cfg);
      cbn [fst app filter intro_message negb]; rewrite ?filter_app, Hno; reflexivity.
  - unfold play_round.
    destruct (pick_secret rng randint (min_v cfg) (max_v cfg) g) as [[secret g']|e];
      [|intros []].
    destruct (compute_attempts _ _ _ _) as [total|e]; [|intros []].
    pose proof (guess_loop_no_intro cfg secret total (Z.to_nat total) 0 inputs) as Hno.
    destruct (intro_block cfg total) as [_ Hintro].
    destruct (guess_loop int_of_str cfg secret total (Z.to_nat total) 0 inputs) as [o fin].
    cbn [fst] in Hno.
    assert (Ho : ~ In HelpQuiet o).
    { intros Hin. rewrite Forall_forall in Hno. specialize (Hno _ Hin). discriminate. }
    destruct fin as [[|] u|e|]; cbn [fst]; rewrite ?in_app_iff; cbn [In];
      intros H; repeat (destruct H as [H|H]); try discriminate; tauto.
Qed.

(** X5: what [--quiet] does to a round. The round ends the same way.
    Its messages are those of the round without the flag, less the
    title, the intro line and the help on hints; the prompts, the
    feedback, the remaining figures and the result stay. [main] also
    turns colour off under the flag, so the lines printed are those
    messages unpainted, whatever the terminal; at one and the same
    [color_on] the lines differ by the intro block only. The quiet-mode
    help line is printed in no mode. *)
Theorem quiet_drops_intro_and_colour (text : message -> string)
    (stdout : option bool) (os_name : string) (args : arguments)
    (g : rng) (inputs : list console) :
  let run b :=
    play_round int_of_str rng randint (settings (quiet_arguments b args)) g inputs in
  let kept := filter (fun m => negb (intro_message m)) (fst (run false)) in
  snd (run true) = snd (run false)
  /\ fst (run true) = kept
  /\ color_on stdout os_name (quiet_arguments true args) = false
  /\ map (line text (color_on stdout os_name (quiet_arguments true args))) (fst (run true))
     = map text kept
  /\ (forall c, map (line text c) (fst (run true)) = map (line text c) kept)
  /\ ~ In HelpQuiet (fst (play_round int_of_str rng randint (settings args) g inputs)).
Proof.
  cbv zeta. cbn [quiet_arguments settings].
  destruct (play_round_quiet (settings args) g inputs) as [Hend [Hout _]].
  destruct (play_round_quiet (settings args) g inputs) as [_ [_ Hnever]].
  assert (Hoff : color_on stdout os_name (quiet_arguments true args) = false).
  { unfold color_on. cbn [quiet_arguments settings with_quiet quiet negb].
    now rewrite andb_false_r. }
  split; [exact Hend|]. split; [exact Hout|]. split; [exact Hoff|].
  split; [|split; [|exact Hnever]].
  - rewrite Hoff, Hout. apply map_ext. intros m. unfold line, paint.
    destruct (style_of m); reflexivity.
  - intros c. now rewrite Hout.
Qed.

End EndFacts.

Lemma lost_round_spends_budget_witness :
  exists secret g' total out',
    pick_secret Sample.rng Sample.randint 1 10 [7] = Ok (secret, g')
    /\ compute_attempts 1 10 "hard" None = Ok total
    /\ 4 = total /\ 0 = 0
    /\ [Title; Intro 1 10 4;
        Prompt 1; TooLow; Remaining 3; Prompt 2; TooLow; Remaining 2;
        Prompt 3; TooLow; Remaining 1; Prompt 4; TooLow; Remaining 0; Lose 7]
       = out' ++ [Lose secret]
    /\ remainings
         [Title; Intro 1 10 4;
          Prompt 1; TooLow; Remaining 3; Prompt 2; TooLow; Remaining 2;
          Prompt 3; TooLow; Remaining 1; Prompt 4; TooLow; Remaining 0; Lose 7]
       = countdown total (Z.to_nat total).
Proof.
  apply (lost_round_spends_budget Sample.int_of_str Sample.rng Sample.randint
           (Sample.cfg 1 10 "hard" false) [7]
           [Line "1"; Line "2"; Line "3"; Line "4"; Line "7"]).
  reflexivity.
Defined.

Lemma won_round_counts_misses_witness :
  exists total out',
    compute_attempts 1 10 "hard" None = Ok total
    /\ 2 = Z.max 1 (Z.of_nat (List.length (remainings
             [Title; Intro 1 10 4; Prompt 1; TooLow; Remaining 3;
              Prompt 2; TooHigh; Remaining 2; Prompt 3; Win 2 true])))
    /\ Z.of_nat (List.length (remainings
             [Title; Intro 1 10 4; Prompt 1; TooLow; Remaining 3;
              Prompt 2; TooHigh; Remaining 2; Prompt 3; Win 2 true])) < total
    /\ 1 <= 2 <= total
    /\ 120 = 100 + 10 * (total - 2)
    /\ 100 <= 120
    /\ [Title; Intro 1 10 4; Prompt 1; TooLow; Remaining 3;
        Prompt 2; TooHigh; Remaining 2; Prompt 3; Win 2 true]
       = out' ++ [Win 2 (negb (Z.of_nat (List.length (remainings
             [Title; Intro 1 10 4; Prompt 1; TooLow; Remaining 3;
              Prompt 2; TooHigh; Remaining 2; Prompt 3; Win 2 true])) =? 1))].
Proof.
  apply (won_round_counts_misses Sample.int_of_str Sample.rng Sample.randint
           (Sample.cfg 1 10 "hard" false) [7]
           [Line "5"; Line "9"; Line "7"]).
  reflexivity.
Defined.

(** ** The hints, whatever the range *)

(** The label as the cascade over the three thresholds. *)
Lemma proximity_label_cascade (guess secret lo hi : Z) (t : tier) :
  proximity_label guess secret lo hi = Ok t ->
  exists t1, threshold Float.c001 (hi - lo + 1) = Ok t1 /\ 1 <= t1
    /\ (Z.abs (guess - secret) <= t1 -> t = VeryHot)
    /\ (t1 < Z.abs (guess - secret) -> t <> VeryHot).
Proof.
  unfold proximity_label.
  destruct (threshold Float.c001 (hi - lo + 1)) as [t1|e] eqn:E1; [|discriminate].
  cbn [bind]. intros H. exists t1. split; [reflexivity|]. split.
  - revert E1. unfold threshold.
    destruct (Float.mul_int Float.c001 (hi - lo + 1)) as [x|]; [|discriminate].
    cbn [bind]. destruct (Float.to_int x) as [n|]; [|discriminate].
    cbn [bind]. intros E; apply Ok_inj in E. lia.
  - destruct (Z.leb_spec (Z.abs (guess - secret)) t1) as [Hle|Hgt].
    + apply Ok_inj in H. split; [now intros _ | lia].
    + split; [lia|]. intros _.
      destruct (threshold Float.c003 (hi - lo + 1)) as [t3|]; [|discriminate].
      cbn [bind] in H. destruct (_ <=? t3); [apply Ok_inj in H; subst t; discriminate|].
      destruct (threshold Float.c007 (hi - lo + 1)) as [t7|]; [|discriminate].
      cbn [bind] in H. destruct (_ <=? t7); apply Ok_inj in H; subst t; discriminate.
Qed.

(** X6: a closer guess never gets a colder label: on the same range and
    secret, the label of the guess at the smaller distance is at least as
    hot, whatever the three float thresholds come to. *)
Theorem proximity_label_closer_hotter (g1 g2 secret lo hi : Z) (t1 t2 : tier)
    (Hfirst : proximity_label g1 secret lo hi = Ok t1)
    (Hsecond : proximity_label g2 secret lo hi = Ok t2)
    (Hcloser : Z.abs (g1 - secret) <= Z.abs (g2 - secret)) :
  heat t2 <= heat t1.
Proof.
  revert Hfirst Hsecond. unfold proximity_label.
  destruct (threshold Float.c001 (hi - lo + 1)) as [a|]; [|discriminate]. cbn [bind].
  destruct (Z.leb_spec (Z.abs (g1 - secret)) a) as [La1|La1].
  { intros E1 _. apply Ok_inj in E1. subst t1. destruct t2; cbn; lia. }
  destruct (Z.leb_spec (Z.abs (g2 - secret)) a) as [La2|La2]; [lia|].
  destruct (threshold Float.c003 (hi - lo + 1)) as [b|]; [|discriminate]. cbn [bind].
  destruct (Z.leb_spec (Z.abs (g1 - secret)) b) as [Lb1|Lb1].
  { intros E1 E2. apply Ok_inj in E1. subst t1.
    destruct (Z.leb_spec (Z.abs (g2 - secret)) b) as [Lb2|Lb2].
    - apply Ok_inj in E2. subst t2. cbn; lia.
    - destruct (threshold Float.c007 (hi - lo + 1)) as [c|]; [|discriminate].
      cbn [bind] in E2. destruct (_ <=? c); apply Ok_inj in E2; subst t2; cbn; lia. }
  destruct (Z.leb_spec (Z.abs (g2 - secret)) b) as [Lb2|Lb2]; [lia|].
  destruct (threshold Float.c007 (hi - lo + 1)) as [c|]; [|discriminate]. cbn [bind].
  destruct (Z.leb_spec (Z.abs (g1 - secret)) c) as [Lc1|Lc1].
  { intros E1 E2. apply Ok_inj in E1. subst t1.
    destruct (_ <=? c); apply Ok_inj in E2; subst t2; cbn; lia. }
  destruct (Z.leb_spec (Z.abs (g2 - secret)) c) as [Lc2|Lc2]; [lia|].
  intros E1 E2. apply Ok_inj in E1. apply Ok_inj in E2. subst t1 t2. cbn; lia.
Qed.

Lemma proximity_label_closer_hotter_witness :
  proximity_label 45 47 1 100 = Ok Hot
  /\ proximity_label 40 47 1 100 = Ok Warm
  /\ heat Warm <= heat Hot.
Proof.
  split; [vm_compute; reflexivity|]. split; [vm_compute; reflexivity|].
  apply (proximity_label_closer_hotter 45 40 47 1 100 Hot Warm);
    [vm_compute; reflexivity | vm_compute; reflexivity | lia].
Defined.

(** X7: a guess next to the secret is very hot on every range: the
    thresholds are floored at 1, so whenever the hint is computed, a
    distance of at most 1 is labelled very hot and nothing else. *)
Theorem proximity_label_adjacent (guess secret lo hi : Z) (t : tier)
    (Hlabel : proximity_label guess secret lo hi = Ok t)
    (Hnear : Z.abs (guess - secret) <= 1) :
  proximity_label guess secret lo hi = Ok VeryHot.
Proof.
  destruct (proximity_label_cascade guess secret lo hi t Hlabel) as [t1 [_ [Hpos [Hhot _]]]].
  rewrite Hlabel. f_equal. apply Hhot. lia.
Qed.

Lemma proximity_label_adjacent_witness : proximity_label 8 7 1 10 = Ok VeryHot.
Proof.
  apply (proximity_label_adjacent 8 7 1 10 VeryHot); [vm_compute; reflexivity | lia].
Defined.

(** X8: small ranges have fewer tiers. With at most 66 values in the
    range (the easy preset has 50) no guess is labelled hot; with at
    most 28 values the label is very hot at a distance of at most 1 and
    cold otherwise. *)
Theorem proximity_label_small_range (guess secret lo hi : Z)
    (Hrange : lo < hi) (Hsize : hi - lo + 1 <= 66) :
  proximity_label guess secret lo hi <> Ok Hot
  /\ (hi - lo + 1 <= 28 ->
      proximity_label guess secret lo hi
      = Ok (if Z.abs (guess - secret) <=? 1 then VeryHot else Cold)).
Proof.
  assert (Hb : 1 <= hi - lo + 1 < 2 ^ 49).
  { split; [lia|]. apply Z.le_lt_trans with 66; [lia | reflexivity]. }
  unfold proximity_label.
  rewrite threshold_001, threshold_003, threshold_007 by exact Hb. cbn [bind].
  assert (E1 : (hi - lo + 1) / 100 = 0) by (apply Z.div_small; lia).
  assert (E3 : 3 * (hi - lo + 1) / 100 <= 1).
  { assert (3 * (hi - lo + 1) / 100 < 2); [|lia]. apply Z.div_lt_upper_bound; lia. }
  rewrite E1. replace (Z.max 1 0) with 1 by reflexivity.
  replace (Z.max 1 (3 * (hi - lo + 1) / 100)) with 1 by lia.
  split.
  - destruct (_ <=? 1); [discriminate|].
    destruct (_ <=? Z.max 1 (7 * (hi - lo + 1) / 100)); discriminate.
  - intros H28.
    assert (E7 : 7 * (hi - lo + 1) / 100 <= 1).
    { assert (7 * (hi - lo + 1) / 100 < 2); [|lia]. apply Z.div_lt_upper_bound; lia. }
    replace (Z.max 1 (7 * (hi - lo + 1) / 100)) with 1 by lia.
    destruct (_ <=? 1); reflexivity.
Qed.

Lemma proximity_label_small_range_witness :
  proximity_label 30 10 1 50 <> Ok Hot.
Proof.
  apply (proximity_label_small_range 30 10 1 50); [lia | lia].
Defined.

Lemma proximity_label_raises (guess secret lo hi : Z) (e : exn) :
  proximity_label guess secret lo hi = Raise e ->
  e = OverflowError
  /\ forall guess' secret', proximity_label guess' secret' lo hi = Raise OverflowError.
Proof.
  intros He.
  destruct (Float.of_int (hi - lo + 1)) as [x|e'] eqn:Ex.
  - destruct (proximity_label_defined guess secret lo hi x Ex) as [t Ht]. congruence.
  - assert (He' : e' = OverflowError).
    { revert Ex. unfold Float.of_int.
      destruct (binary_normalize _ _ _ _ _); intros H; inversion H; reflexivity. }
    subst e'.
    assert (Hall : forall a b, proximity_label a b lo hi = Raise OverflowError).
    { intros a b. unfold proximity_label, threshold, Float.mul_int. now rewrite Ex. }
    split; [|exact Hall]. rewrite Hall in He. now inversion He.
Qed.

(** X9: the hint of a guess fails in one way only, an OverflowError
    from [0.01 * R], and then for every guess and secret of the range;
    on a range of fewer than [2^1024 - 2^970] values it never fails. *)
Theorem proximity_label_failure (guess secret lo hi : Z) :
  (forall e, proximity_label guess secret lo hi = Raise e ->
     e = OverflowError
     /\ forall guess' secret', proximity_label guess' secret' lo hi = Raise OverflowError)
  /\ (0 <= hi - lo + 1 < 2 ^ 1024 - 2 ^ 970 ->
      exists t, proximity_label guess secret lo hi = Ok t).
Proof.
  split.
  - intros e. apply proximity_label_raises.
  - intros Hfit. destruct (of_int_fits _ Hfit) as [x Hx].
    exact (proximity_label_defined guess secret lo hi x Hx).
Qed.

(** ** The budget, across ranges and difficulties *)

Lemma compute_attempts_raises (lo hi : Z) (level : string) (override : option Z) (e : exn) :
  compute_attempts lo hi level override = Raise e ->
  e = ValueError /\ override = None /\ hi < lo.
Proof.
  unfold compute_attempts, ceil_log2. destruct override as [k|]; [discriminate|].
  destruct (Z.leb_spec (hi - lo + 1) 0) as [Hle|Hgt]; cbn [bind].
  - intros H; inversion H. repeat split. lia.
  - destruct (level =? "easy")%string; [|destruct (level =? "normal")%string]; discriminate.
Qed.

(** X10: without an override [compute_attempts] raises exactly when the
    range is empty ([max < min]), and then ValueError; an override hides
    an empty range. On a range of one value the budget is 0 for hard, 1
    for normal and 2 for easy. *)
Theorem compute_attempts_failure (lo hi : Z) (level : string) :
  ((exists e, compute_attempts lo hi level None = Raise e) <-> hi < lo)
  /\ (forall e, compute_attempts lo hi level None = Raise e -> e = ValueError)
  /\ (forall k, compute_attempts lo hi level (Some k) = Ok (Z.max 1 k))
  /\ compute_attempts lo lo "hard" None = Ok 0
  /\ compute_attempts lo lo "normal" None = Ok 1
  /\ compute_attempts lo lo "easy" None = Ok 2.
Proof.
  assert (Hone : forall l, compute_attempts lo lo l None
                 = if (l =? "easy")%string then Ok 2
                   else if (l =? "normal")%string then Ok 1 else Ok 0).
  { intros l. unfold compute_attempts, ceil_log2.
    replace (lo - lo + 1) with 1 by lia. reflexivity. }
  repeat split; try (rewrite Hone; reflexivity).
  - intros [e He]. revert He. unfold compute_attempts, ceil_log2.
    destruct (Z.leb_spec (hi - lo + 1) 0); [lia|]. cbn [bind].
    destruct (level =? "easy")%string; [|destruct (level =? "normal")%string]; discriminate.
  - intros Hempty. exists ValueError. unfold compute_attempts, ceil_log2.
    destruct (Z.leb_spec (hi - lo + 1) 0); [reflexivity | lia].
  - intros e. unfold compute_attempts, ceil_log2.
    destruct (hi - lo + 1 <=? 0); cbn [bind].
    + intros H; now inversion H.
    + destruct (level =? "easy")%string; [|destruct (level =? "normal")%string]; discriminate.
Qed.

(** ** The score file over a session *)

Section FileFacts.

Variable int_of_str : string -> option Z.

Lemma py_int_raises (v : json) (e : exn) :
  py_int int_of_str v = Raise e -> e = TypeError \/ e = ValueError \/ e = OverflowError.
Proof.
  destruct v as [|b|n|x|t|l|kv]; cbn [py_int]; try (intros H; inversion H; tauto).
  - destruct x; cbn [Float.to_int]; intros H; inversion H; tauto.
  - destruct (int_of_str t); intros H; inversion H; tauto.
Qed.

(** The update on a store without a record. *)
Lemma update_no_record (now new_score lo hi : Z) (s : store) :
  no_record s ->
  update_and_store_score int_of_str now new_score lo hi s
  = (Ok (true, None, new_score), save_score (record_of now new_score lo hi) s).
Proof.
  unfold no_record, update_and_store_score, load_score.
  destruct (content s) as [| | |j]; try reflexivity.
  intros [Hf | [kv [-> Hkey]]].
  - rewrite Hf. reflexivity.
  - destruct (truthy (JObj kv)); [|reflexivity].
    cbn [get_best_score]. destruct Hkey as [-> | ->]; reflexivity.
Qed.

(** The update on a store whose record has an int best score. *)
Lemma update_with_best (now new_score lo hi : Z) (s : store) (b : Z) :
  stored_best s = Some b ->
  update_and_store_score int_of_str now new_score lo hi s
  = if new_score >? b
    then (Ok (true, Some (JInt b), new_score),
          save_score (record_of now new_score lo hi) s)
    else (Ok (false, Some (JInt b), b), s).
Proof.
  unfold stored_best, update_and_store_score, load_score.
  destruct (content s) as [| | |j]; try discriminate.
  destruct j as [| | | | | |kv]; try discriminate.
  destruct (dict_get "best_score" kv) as [v|] eqn:Ev; [|discriminate].
  destruct v; try discriminate. intros H; inversion H; subst.
  rewrite (dict_get_nonempty _ _ _ Ev). cbn [get_best_score]. rewrite Ev.
  cbn [py_int]. reflexivity.
Qed.

Lemma stored_best_saved (now new_score lo hi : Z) (s : store) :
  writable s = true ->
  stored_best (save_score (record_of now new_score lo hi) s) = Some new_score
  /\ writable (save_score (record_of now new_score lo hi) s) = true.
Proof. unfold save_score. intros ->. split; reflexivity. Qed.

Lemma update_writable (now new_score lo hi : Z) (s : store) :
  writable (snd (update_and_store_score int_of_str now new_score lo hi s)) = writable s.
Proof.
  assert (Hsave : forall obj, writable (save_score obj s) = writable s).
  { intros obj. unfold save_score. destruct (writable s) eqn:E; [reflexivity | exact E]. }
  unfold update_and_store_score.
  destruct (get_best_score _) as [[v|]|e]; cbn [snd]; try reflexivity; try apply Hsave.
  destruct (py_int int_of_str v) as [p|e]; cbn [snd]; [|reflexivity].
  destruct (new_score >? p); cbn [snd]; [apply Hsave | reflexivity].
Qed.

(** X12: the update calls [save_score] only when it reports a record,
    and then with the record of the new score, the range and the time:
    the store afterwards is what [save_score] makes of it. A result
    without a record names a best score at least the new one and leaves
    the store alone; so does an update that raises. A reported record
    means there was no previous best or one below the new score. *)
Theorem update_saves_only_records (now new_score lo hi : Z) (s : store) :
  let u := update_and_store_score int_of_str now new_score lo hi s in
  (forall prev best, fst u = Ok (false, prev, best) ->
     snd u = s /\ new_score <= best)
  /\ (forall e, fst u = Raise e -> snd u = s)
  /\ (forall prev best, fst u = Ok (true, prev, best) ->
        best = new_score
        /\ snd u = save_score (record_of now new_score lo hi) s
        /\ (prev = None
            \/ exists v p, prev = Some v /\ py_int int_of_str v = Ok p /\ p < new_score)).
Proof.
  cbv zeta. unfold update_and_store_score.
  fold (record_of now new_score lo hi).
  destruct (get_best_score _) as [[v|]|e]; cbn [fst snd].
  - destruct (py_int int_of_str v) as [p|e] eqn:Ep; cbn [fst snd].
    + destruct (Z.gtb_spec new_score p) as [Hgt|Hle]; cbn [fst snd].
      * split; [discriminate|]. split; [discriminate|].
        intros prev best H; inversion H; subst. repeat split.
        right. exists v, p. repeat split; [exact Ep | lia].
      * split; [|split; [reflexivity | discriminate]].
        intros prev best H; inversion H; subst. split; [reflexivity | lia].
    + split; [discriminate|]. split; [reflexivity | discriminate].
  - split; [discriminate|]. split; [discriminate|].
    intros prev best H; inversion H; subst. repeat split. now left.
  - split; [discriminate|]. split; [reflexivity | discriminate].
Qed.

(** An update that raises: which exceptions, and that the score plays no
    part. *)
Lemma update_raises (now new_score lo hi : Z) (s : store) (e : exn) :
  fst (update_and_store_score int_of_str now new_score lo hi s) = Raise e ->
  (e = AttributeError \/ e = TypeError \/ e = ValueError \/ e = OverflowError)
  /\ is_Exception e = true
  /\ forall now' new_score' lo' hi',
       update_and_store_score int_of_str now' new_score' lo' hi' s = (Raise e, s).
Proof.
  unfold update_and_store_score.
  destruct (get_best_score _) as [[v|]|e'] eqn:Eg; cbn [fst snd].
  - destruct (py_int int_of_str v) as [p|e'] eqn:Ep; cbn [fst snd].
    + destruct (new_score >? p); discriminate.
    + intros H; inversion H; subst e'.
      destruct (py_int_raises v e Ep) as [-> | [-> | ->]];
        (split; [tauto|]); (split; [reflexivity|]); reflexivity.
  - discriminate.
  - intros H; inversion H; subst e'.
    assert (e = AttributeError).
    { revert Eg. unfold get_best_score.
      destruct (match load_score s with
                | Some j => if truthy j then j else JObj []
                | None => JObj []
                end); try (intros H'; now inversion H').
      destruct (dict_get "best_score" kv) as [[]|]; discriminate. }
    subst e. split; [tauto|]. split; reflexivity.
Qed.

(** X13: a score file the update cannot read as a record stays broken.
    When the update raises, the exception is AttributeError, TypeError,
    ValueError or OverflowError (one that [except Exception] catches),
    the file is left as it is, and the update raises the same exception
    again for every later score. *)
Theorem update_failure_persists (now new_score lo hi : Z) (s : store) (e : exn)
    (Hraise : fst (update_and_store_score int_of_str now new_score lo hi s) = Raise e) :
  (e = AttributeError \/ e = TypeError \/ e = ValueError \/ e = OverflowError)
  /\ is_Exception e = true
  /\ forall now' new_score' lo' hi',
       update_and_store_score int_of_str now' new_score' lo' hi' s = (Raise e, s).
Proof. exact (update_raises now new_score lo hi s e Hraise). Qed.

(** X14: the first win on a store without a record is a record. A file
    that is missing, unreadable or corrupt, one that holds a falsy value
    (null, false, 0, an empty string, list or object) and a dict without
    a [best_score] or with a null one all count as no record: the update
    reports a record with no previous best and, when the file can be
    written, the file then holds the new score as its best. *)
Theorem update_first_record (now new_score lo hi : Z) (s : store)
    (Hnone : no_record s) :
  update_and_store_score int_of_str now new_score lo hi s
  = (Ok (true, None, new_score), save_score (record_of now new_score lo hi) s)
  /\ (writable s = true ->
      stored_best (snd (update_and_store_score int_of_str now new_score lo hi s))
      = Some new_score).
Proof.
  rewrite (update_no_record now new_score lo hi s Hnone). split; [reflexivity|].
  intros Hw. cbn [snd]. now apply stored_best_saved.
Qed.

(** X15: a writable score file keeps the best score. From a record with
    best score [b], after any run of wins scored one after the other, no
    update has raised and the file holds as best score the largest of [b]
    and the scores of the wins. *)
Theorem store_keeps_best (lo hi : Z) (wins : list (Z * Z)) (s : store) (b : Z)
    (Hwritable : writable s = true) (Hbest : stored_best s = Some b) :
  exists s',
    record_wins int_of_str lo hi wins s = Some s'
    /\ stored_best s' = Some (best_of b wins)
    /\ writable s' = true.
Proof.
  revert s b Hwritable Hbest.
  induction wins as [|[now score] wins IH]; intros s b Hw Hb.
  - exists s. repeat split; assumption.
  - cbn [record_wins]. rewrite (update_with_best now score lo hi s b Hb).
    unfold best_of. cbn [fold_left snd].
    destruct (Z.gtb_spec score b) as [Hgt|Hle].
    + destruct (stored_best_saved now score lo hi s Hw) as [Hb' Hw'].
      replace (Z.max b score) with score by lia.
      exact (IH _ score Hw' Hb').
    + replace (Z.max b score) with b by lia. exact (IH s b Hw Hb).
Qed.

End FileFacts.

Lemma update_failure_persists_witness :
  let s := {| content := Holds (JObj [("best_score"%string, JStr "high")]);
              writable := true |} in
  fst (update_and_store_score Sample.int_of_str 1000 120 1 100 s) = Raise ValueError
  /\ update_and_store_score Sample.int_of_str 2000 150 1 50 s = (Raise ValueError, s).
Proof.
  split; [reflexivity|].
  exact (proj2 (proj2 (update_failure_persists Sample.int_of_str 1000 120 1 100
                         {| content := Holds (JObj [("best_score"%string, JStr "high")]);
                            writable := true |}
                         ValueError eq_refl)) 2000 150 1 50).
Defined.

Lemma update_first_record_witness :
  let s := {| content := Holds (JObj [("best_range"%string, JList [JInt 1; JInt 9])]);
              writable := true |} in
  update_and_store_score Sample.int_of_str 1000 120 1 100 s
  = (Ok (true, None, 120), save_score (record_of 1000 120 1 100) s).
Proof.
  refine (proj1 (update_first_record Sample.int_of_str 1000 120 1 100
                   {| content := Holds (JObj [("best_range"%string, JList [JInt 1; JInt 9])]);
                      writable := true |} _)).
  right. eexists. split; [reflexivity | left; reflexivity].
Defined.

Lemma store_keeps_best_witness :
  exists s',
    record_wins Sample.int_of_str 1 100 [(2000, 110); (3000, 150); (4000, 130)]
      {| content := Holds (record_of 1000 120 1 100); writable := true |} = Some s'
    /\ stored_best s' = Some (best_of 120 [(2000, 110); (3000, 150); (4000, 130)])
    /\ writable s' = true.
Proof.
  apply (store_keeps_best Sample.int_of_str 1 100 [(2000, 110); (3000, 150); (4000, 130)]
           {| content := Holds (record_of 1000 120 1 100); writable := true |} 120);
    reflexivity.
Defined.

(** ** Presets of the command line *)

(** X16: when [--min] or [--max] is left out, [parse_args] takes both
    bounds from the difficulty (a lone [--min] or [--max] is dropped):
    1 to 50 for easy, 1 to 100 for normal, 1 to 1000 otherwise. The
    range check of [main] then passes, and without [--attempts] the
    budget is 8 for easy, 8 for normal and 10 for hard. Bounds given
    both are kept as they are. *)
Theorem parse_args_presets (ns : namespace)
    (Hmissing : ns_min_v ns = None \/ ns_max_v ns = None) :
  let cfg := settings (parse_args ns) in
  min_v cfg = 1
  /\ max_v cfg = (if (ns_difficulty ns =? "easy")%string then 50
                  else if (ns_difficulty ns =? "normal")%string then 100
                  else 1000)
  /\ (forall status, main_startup cfg <> Exit ConfigErrorRange status)
  /\ (ns_attempts ns = None ->
      compute_attempts (min_v cfg) (max_v cfg) (difficulty cfg) (attempts cfg)
      = Ok (if (ns_difficulty ns =? "easy")%string then 8
            else if (ns_difficulty ns =? "normal")%string then 8
            else 10))
  /\ (forall ns' lo hi, ns_min_v ns' = Some lo -> ns_max_v ns' = Some hi ->
        min_v (settings (parse_args ns')) = lo
        /\ max_v (settings (parse_args ns')) = hi).
Proof.
  cbv zeta.
  assert (Hpre : match ns_min_v ns, ns_max_v ns with
                 | Some lo, Some hi => (lo, hi)
                 | _, _ =>
                     if (ns_difficulty ns =? "easy")%string then (1, 50)
                     else if (ns_difficulty ns =? "normal")%string then (1, 100)
                     else (1, 1000)
                 end
                 = (1, if (ns_difficulty ns =? "easy")%string then 50
                       else if (ns_difficulty ns =? "normal")%string then 100
                       else 1000)).
  { destruct Hmissing as [-> | ->]; [|destruct (ns_min_v ns)];
      destruct (ns_difficulty ns =? "easy")%string;
      try destruct (ns_difficulty ns =? "normal")%string; reflexivity. }
  unfold parse_args. cbv zeta. rewrite Hpre.
  cbn [settings min_v max_v difficulty attempts fst snd].
  split; [reflexivity|]. split; [reflexivity|]. split; [|split].
  - intros status. unfold main_startup. cbn [version min_v max_v difficulty attempts].
    destruct (ns_version ns); [discriminate|].
    assert (Hlt : (1 <? (if (ns_difficulty ns =? "easy")%string then 50
                         else if (ns_difficulty ns =? "normal")%string then 100
                         else 1000)) = true).
    { destruct (ns_difficulty ns =? "easy")%string;
        [|destruct (ns_difficulty ns =? "normal")%string]; reflexivity. }
    rewrite Hlt. cbn [negb].
    destruct (compute_attempts _ _ _ _) as [n|e]; [|discriminate].
    destruct (n <? 1); discriminate.
  - intros ->. unfold compute_attempts.
    destruct (ns_difficulty ns =? "easy")%string; [reflexivity|].
    destruct (ns_difficulty ns =? "normal")%string; reflexivity.
  - intros ns' lo hi Hlo Hhi. unfold parse_args. rewrite Hlo, Hhi. split; reflexivity.
Qed.

Lemma parse_args_presets_witness :
  min_v (settings (parse_args (SampleSession.options (Some 500) None "hard"))) = 1
  /\ max_v (settings (parse_args (SampleSession.options (Some 500) None "hard"))) = 1000.
Proof.
  pose proof (parse_args_presets (SampleSession.options (Some 500) None "hard")
                (or_intror eq_refl)) as [H1 [H2 _]].
  split; [exact H1 | exact H2].
Defined.

(** ** Colour *)

Lemma substring_middle (a b c : string) :
  substring (String.length a) (String.length b) (a ++ b ++ c) = b.
Proof.
  induction a as [|x a IH]; cbn [String.length append substring]; [|exact IH].
  induction b as [|y b IHb]; cbn [String.length append substring].
  - destruct c; reflexivity.
  - now rewrite IHb.
Qed.

(** X17: colour is off, and every painted text is printed as it is,
    when standard output is no terminal, with [--no-color] and with
    [--quiet]. When colour is on, the text sits unchanged between the
    code of the style (nothing for an unknown style) and the reset code,
    and can be read back from there. *)
Theorem paint_keeps_text (stdout : option bool) (os_name : string) (args : arguments)
    (text style : string) :
  (stdout <> Some true \/ no_color args = true \/ quiet (settings args) = true ->
   paint text style (color_on stdout os_name args) = text)
  /\ (stdout = Some true -> no_color args = false -> quiet (settings args) = false ->
      color_on stdout os_name args = true)
  /\ exists code,
       paint text style true = (code ++ text ++ (esc ++ "0m"))%string
       /\ (styles style = None -> code = EmptyString)
       /\ substring (String.length code) (String.length text) (paint text style true) = text.
Proof.
  split; [|split].
  - intros H. unfold color_on, supports_color.
    destruct stdout as [[|]|]; try reflexivity.
    destruct H as [H | [-> | ->]]; [congruence | |];
      destruct (os_name =? "nt")%string; cbn [negb andb paint];
      rewrite ?andb_false_r; reflexivity.
  - intros -> Hc Hq. unfold color_on, supports_color. rewrite Hc, Hq.
    destruct (os_name =? "nt")%string; reflexivity.
  - exists (match styles style with Some c => c | None => EmptyString end).
    unfold paint. cbn [negb]. split; [reflexivity|]. split.
    + intros ->. reflexivity.
    + apply substring_middle.
Qed.

(** ** Yes or no *)

Section AnswerFacts.

Variable first_char : string -> option Z.

Lemma ask_yes_no_skips {A : Type} (prompt : A) (default_yes : bool) (lang : string)
    (junk rest : list console) :
  Forall (undecided first_char lang) junk ->
  ask_yes_no first_char prompt default_yes lang (junk ++ rest)
  = (repeat prompt (List.length junk)
       ++ fst (fst (ask_yes_no first_char prompt default_yes lang rest)),
     snd (fst (ask_yes_no first_char prompt default_yes lang rest)),
     snd (ask_yes_no first_char prompt default_yes lang rest)).
Proof.
  induction 1 as [|c junk Hc _ IH].
  - cbn [app List.length repeat].
    now destruct (ask_yes_no first_char prompt default_yes lang rest) as [[? ?] ?].
  - destruct c as [resp|]; [|contradiction].
    destruct Hc as [ch [Hch [Hy Hn]]].
    cbn [app ask_yes_no]. rewrite Hch, Hy, Hn, IH. reflexivity.
Qed.

(** What is left of the input after the question, and that a yes has
    read a line. *)
Lemma ask_yes_no_rest {A : Type} (prompt : A) (default_yes : bool) (lang : string)
    (inputs : list console) :
  (List.length (snd (ask_yes_no first_char prompt default_yes lang inputs))
   <= List.length inputs)%nat
  /\ (snd (fst (ask_yes_no first_char prompt default_yes lang inputs)) = true ->
      (List.length (snd (ask_yes_no first_char prompt default_yes lang inputs))
       < List.length inputs)%nat)
  /\ (forall c, In c (snd (ask_yes_no first_char prompt default_yes lang inputs)) ->
        In c inputs).
Proof.
  induction inputs as [|c inputs [IH1 [IH2 IH3]]]; cbn [ask_yes_no].
  - cbn. repeat split; [lia | discriminate | tauto].
  - destruct c as [resp|]; [|cbn; repeat split; [lia | discriminate | tauto]].
    destruct (first_char resp) as [ch|]; [|cbn; repeat split; [lia | lia | tauto]].
    destruct (char_in ch (chars_for YES_CHARS lang));
      [cbn; repeat split; [lia | lia | tauto]|].
    destruct (char_in ch (chars_for NO_CHARS lang));
      [cbn; repeat split; [lia | discriminate | tauto]|].
    destruct (ask_yes_no first_char prompt default_yes lang inputs) as [[o a] r].
    cbn [fst snd List.length] in *. repeat split; [lia | intros H; specialize (IH2 H); lia |].
    intros c Hc. right. now apply IH3.
Qed.

(** X18: [ask_yes_no] asks again, with the same prompt, after every
    answer that starts with a character of neither set, and is settled
    by what comes next. When the input then ends, or Ctrl-C comes, the
    answer is no whatever the default; a blank line gives the default. *)
Theorem ask_yes_no_asks_again {A : Type} (prompt : A) (default_yes : bool)
    (lang : string) (junk : list console)
    (Hjunk : Forall (undecided first_char lang) junk) :
  (forall rest,
      ask_yes_no first_char prompt default_yes lang (junk ++ rest)
      = (repeat prompt (List.length junk)
           ++ fst (fst (ask_yes_no first_char prompt default_yes lang rest)),
         snd (fst (ask_yes_no first_char prompt default_yes lang rest)),
         snd (ask_yes_no first_char prompt default_yes lang rest)))
  /\ ask_yes_no first_char prompt default_yes lang junk
     = (repeat prompt (S (List.length junk)), false, [])
  /\ (forall rest,
        ask_yes_no first_char prompt default_yes lang (junk ++ CtrlC :: rest)
        = (repeat prompt (S (List.length junk)), false, rest))
  /\ (forall blank rest, first_char blank = None ->
        ask_yes_no first_char prompt default_yes lang (junk ++ Line blank :: rest)
        = (repeat prompt (S (List.length junk)), default_yes, rest)).
Proof.
  assert (Hrep : forall n, repeat prompt n ++ [prompt] = repeat prompt (S n)).
  { intros n. now rewrite <- repeat_cons. }
  split; [|split; [|split]].
  - intros rest. now apply ask_yes_no_skips.
  - rewrite <- (app_nil_r junk) at 1. rewrite (ask_yes_no_skips _ _ _ _ _ Hjunk).
    cbn [ask_yes_no fst snd]. now rewrite Hrep.
  - intros rest. rewrite (ask_yes_no_skips _ _ _ _ _ Hjunk).
    cbn [ask_yes_no fst snd]. now rewrite Hrep.
  - intros blank rest Hb. rewrite (ask_yes_no_skips _ _ _ _ _ Hjunk).
    cbn [ask_yes_no fst snd]. rewrite Hb. cbn [fst snd]. now rewrite Hrep.
Qed.

End AnswerFacts.

Lemma ask_yes_no_asks_again_witness :
  ask_yes_no SampleSession.first_char PlayAgain true "en" [Line "maybe"; Line "what?"]
  = (repeat PlayAgain 3, false, []).
Proof.
  refine (proj1 (proj2 (ask_yes_no_asks_again SampleSession.first_char PlayAgain true "en"
                          [Line "maybe"; Line "what?"] _))).
  repeat constructor; eexists; (split; [reflexivity|]); split; reflexivity.
Defined.

Ltac split_char_tests :=
  repeat match goal with
         | |- context [?a =? ?b] => destruct (Z.eqb_spec a b); try subst a
         end.

(** X19: no character means both yes and no, in any language. The
    English answers are understood in every language: a first character
    that is yes (or no) for [en] is yes (or no) for every [lang], and a
    language without a table of its own uses the English sets. *)
Theorem yes_no_chars_consistent (lang : string) (ch : Z) :
  char_in ch (chars_for YES_CHARS lang) && char_in ch (chars_for NO_CHARS lang) = false
  /\ (char_in ch (chars_for YES_CHARS "en") = true ->
      char_in ch (chars_for YES_CHARS lang) = true)
  /\ (char_in ch (chars_for NO_CHARS "en") = true ->
      char_in ch (chars_for NO_CHARS lang) = true)
  /\ (lang <> "es"%string ->
      chars_for YES_CHARS lang = chars_for YES_CHARS "en"
      /\ chars_for NO_CHARS lang = chars_for NO_CHARS "en").
Proof.
  unfold chars_for, YES_CHARS, NO_CHARS.
  destruct (String.eqb_spec lang "es") as [Es|Es].
  - repeat split; try contradiction; cbv - [Z.eqb]; split_char_tests;
      try reflexivity; try discriminate; intros; try reflexivity; try discriminate.
  - destruct (lang =? "en")%string;
      repeat split; try reflexivity; try (intros H; exact H);
      cbv - [Z.eqb]; split_char_tests; try reflexivity; try discriminate.
Qed.

(** ** The session *)

Section SessionFacts.

Variable int_of_str : string -> option Z.
Variable rng : Type.
Variable randint : Z -> Z -> rng -> result (Z * rng).
Variable first_char : string -> option Z.
Variable clock : nat -> Z.

Lemma read_int_rest (p lo hi : Z) (inputs : list console) :
  (List.length (snd (read_int int_of_str p lo hi inputs)) <= List.length inputs)%nat
  /\ forall c, In c (snd (read_int int_of_str p lo hi inputs)) -> In c inputs.
Proof.
  induction inputs as [|c inputs [IH1 IH2]]; cbn [read_int].
  - cbn. split; [lia | tauto].
  - destruct c as [raw|]; [|cbn; split; [lia | tauto]].
    destruct (int_of_str raw) as [v|].
    + destruct ((v <? lo) || (v >? hi)); [|cbn; split; [lia | tauto]].
      destruct (read_int int_of_str p lo hi inputs) as [[o r] rest].
      cbn [snd List.length] in *. split; [lia|]. intros c Hc. right. now apply IH2.
    + destruct (read_int int_of_str p lo hi inputs) as [[o r] rest].
      cbn [snd List.length] in *. split; [lia|]. intros c Hc. right. now apply IH2.
Qed.

(** The loop with its input is the loop of [guess_loop]; what it leaves
    unread was in the input. *)
Lemma guess_loop_io_loop (cfg : config) (secret total : Z) (fuel : nat) :
  forall used inputs,
    fst (guess_loop_io int_of_str cfg secret total fuel used inputs)
    = guess_loop int_of_str cfg secret total fuel used inputs
    /\ (List.length (snd (guess_loop_io int_of_str cfg secret total fuel used inputs))
        <= List.length inputs)%nat
    /\ forall c, In c (snd (guess_loop_io int_of_str cfg secret total fuel used inputs)) ->
                 In c inputs.
Proof.
  induction fuel as [|fuel IH]; intros used inputs; cbn [guess_loop_io guess_loop].
  - destruct (used <? total); cbn; repeat split; try lia; tauto.
  - destruct (used <? total); [|cbn; repeat split; try lia; tauto].
    pose proof (read_int_rest (used + 1) (min_v cfg) (max_v cfg) inputs) as [Hl Hi].
    destruct (read_int int_of_str (used + 1) (min_v cfg) (max_v cfg) inputs) as [[out r] rest].
    cbn [snd] in Hl, Hi.
    destruct r as [guess|e]; [|cbn [fst snd]; repeat split; assumption].
    destruct (loop_body cfg secret total used guess) as [out' [[[|] u]|e]];
      try (cbn [fst snd]; repeat split; assumption).
    destruct (IH u rest) as [IH1 [IH2 IH3]].
    destruct (guess_loop_io int_of_str cfg secret total fuel u rest) as [[out'' fin] rest'].
    destruct (guess_loop int_of_str cfg secret total fuel u rest) as [o2 f2].
    cbn [fst snd] in *. inversion IH1; subst. repeat split; [lia|].
    intros c Hc. apply Hi. now apply IH3.
Qed.

(** The round of a session is the round of [play_round]; what it leaves
    unread was in the input. *)
Lemma play_round_io_round (cfg : config) (g : rng) (inputs : list console) :
  fst (fst (play_round_io int_of_str rng randint cfg g inputs))
  = play_round int_of_str rng randint cfg g inputs
  /\ (List.length (snd (fst (play_round_io int_of_str rng randint cfg g inputs)))
      <= List.length inputs)%nat
  /\ forall c, In c (snd (fst (play_round_io int_of_str rng randint cfg g inputs))) ->
               In c inputs.
Proof.
  unfold play_round_io, play_round.
  destruct (pick_secret rng randint (min_v cfg) (max_v cfg) g) as [[secret g']|e];
    [|cbn; repeat split; try lia; tauto].
  destruct (compute_attempts _ _ _ _) as [total|e]; [|cbn; repeat split; try lia; tauto].
  destruct (guess_loop_io_loop cfg secret total (Z.to_nat total) 0 inputs) as [H1 [H2 H3]].
  destruct (guess_loop_io int_of_str cfg secret total (Z.to_nat total) 0 inputs)
    as [[out fin] rest].
  cbn [fst snd] in *. rewrite <- H1.
  destruct fin as [[|] u|e|]; cbn [fst snd]; repeat split; assumption.
Qed.

(** A loop interrupted by Ctrl-C has read one. *)
Lemma guess_loop_interrupted (cfg : config) (secret total : Z) (fuel : nat) :
  forall used inputs,
    snd (guess_loop int_of_str cfg secret total fuel used inputs)
    = Aborted KeyboardInterrupt ->
    In CtrlC inputs.
Proof.
  induction fuel as [|fuel IH]; intros used inputs; cbn [guess_loop].
  - destruct (used <? total); discriminate.
  - destruct (used <? total); [|discriminate].
    pose proof (read_int_raises int_of_str (used + 1) (min_v cfg) (max_v cfg) inputs) as Hr.
    pose proof (read_int_rest (used + 1) (min_v cfg) (max_v cfg) inputs) as [_ Hi].
    destruct (read_int int_of_str (used + 1) (min_v cfg) (max_v cfg) inputs) as [[out r] rest].
    cbn [fst snd] in Hr, Hi. destruct r as [guess|e].
    + destruct (loop_body_cases cfg secret total used guess)
        as [[_ H] | [[_ [o [H _]]] | [_ [_ [o [e [H [_ He]]]]]]]]; rewrite H.
      * discriminate.
      * specialize (IH (used + 1) rest).
        destruct (guess_loop int_of_str cfg secret total fuel (used + 1) rest).
        cbn [snd] in *. intros Hk. apply Hi. now apply IH.
      * cbn [snd]. intros Hk. inversion Hk; subst e.
        destruct (proximity_label_raises _ _ _ _ _ He) as [Habs _]. discriminate.
    + cbn [snd]. intros Hk. inversion Hk; subst e.
      destruct (Hr KeyboardInterrupt eq_refl) as [[Habs _] | [_ Hin]];
        [discriminate | exact Hin].
Qed.

(** The score report of [main]: the score is shown, whether the file can
    be written does not change, and an exception of the update is one
    [except Exception] catches. *)
Lemma report_score_cases (now : Z) (args : arguments) (score : Z) (s : store) :
  writable (snd (report_score int_of_str now args score s)) = writable s
  /\ In (Score score) (fst (fst (report_score int_of_str now args score s)))
  /\ forall e, snd (fst (report_score int_of_str now args score s)) = Raise e ->
               is_Exception e = true.
Proof.
  unfold report_score.
  pose proof (update_writable int_of_str now score (min_v (settings args))
                (max_v (settings args)) s) as Hw.
  pose proof (update_raises int_of_str now score (min_v (settings args))
                (max_v (settings args)) s) as Hr.
  destruct (update_and_store_score int_of_str now score (min_v (settings args))
              (max_v (settings args)) s) as [r s'].
  cbn [fst snd] in *. destruct r as [[[is_record prev] best]|e]; cbn [fst snd].
  - repeat split; [exact Hw | now left | discriminate].
  - repeat split; [exact Hw | now left |].
    intros e' H; inversion H; subst e'. now destruct (Hr e eq_refl) as [_ [He _]].
Qed.

(** What every session comes to, given rounds enough for its input. *)
Lemma session_ends (args : arguments) (fuel : nat) :
  forall round g s inputs,
    (List.length inputs < fuel)%nat ->
    exists out code s',
      session int_of_str rng randint first_char clock fuel round args g s inputs
      = (out, Status code, s')
      /\ (code = 0 \/ code = 1 \/ code = 130)
      /\ writable s' = writable s
      /\ (no_score args = true -> s' = s)
      /\ (code = 130 ->
          (forall a b g0, randint a b g0 <> Raise KeyboardInterrupt) ->
          In CtrlC inputs).
Proof.
  induction fuel as [|fuel IH]; intros round g s inputs Hfuel; [lia|].
  cbn [session].
  destruct (play_round_io_round (settings args) g inputs) as [Hround [Hlen Hin]].
  pose proof (play_round_finishes int_of_str rng randint (settings args) g inputs) as Hfin.
  assert (Hki : snd (play_round int_of_str rng randint (settings args) g inputs)
                = Raised KeyboardInterrupt ->
                (forall a b g0, randint a b g0 <> Raise KeyboardInterrupt) ->
                In CtrlC inputs).
  { unfold play_round, pick_secret.
    destruct (randint (min_v (settings args)) (max_v (settings args)) g)
      as [[secret g']|e] eqn:Er.
    - destruct (compute_attempts _ _ _ _) as [total|e] eqn:Et.
      + pose proof (guess_loop_interrupted (settings args) secret total
                      (Z.to_nat total) 0 inputs) as Hk.
        destruct (guess_loop int_of_str (settings args) secret total (Z.to_nat total) 0 inputs)
          as [o fin].
        cbn [snd] in *. destruct fin as [[|] u|e|]; cbn [snd]; try discriminate.
        intros H _. inversion H; subst e. now apply Hk.
      + cbn [snd]. intros H _. inversion H; subst e. exfalso.
        destruct (compute_attempts_raises _ _ _ _ _ Et) as [Habs _]. discriminate.
    - cbn [snd]. intros H Hrand. inversion H; subst e. now apply Hrand in Er. }
  destruct (play_round_io int_of_str rng randint (settings args) g inputs)
    as [[[out res] rest] g'].
  cbn [fst snd] in Hround, Hlen, Hin. rewrite <- Hround in Hfin, Hki. cbn [snd] in Hfin, Hki.
  destruct res as [won used score|e|]; [| |contradiction].
  - (* the round returned *)
    assert (Hrep : exists out1 r s1,
               (if won && negb (no_score args)
                then report_score int_of_str (clock round) args score s
                else ([], Ok tt, s)) = (out1, r, s1)
               /\ writable s1 = writable s
               /\ (forall e, r = Raise e -> is_Exception e = true)
               /\ (no_score args = true -> s1 = s)).
    { destruct (won && negb (no_score args)) eqn:Ew.
      - destruct (report_score_cases (clock round) args score s) as [Hw [_ He]].
        destruct (report_score int_of_str (clock round) args score s) as [[out1 r] s1].
        cbn [fst snd] in *. exists out1, r, s1. repeat split; try assumption.
        intros Hn. rewrite Hn, andb_false_r in Ew. discriminate.
      - exists [], (Ok tt), s. repeat split; try reflexivity; discriminate. }
    destruct Hrep as [out1 [r [s1 [-> [Hw1 [Hex Hns]]]]]].
    destruct r as [[]|e].
    + pose proof (ask_yes_no_rest first_char PlayAgain true (lang args) rest)
        as [Ha1 [Ha2 Ha3]].
      destruct (ask_yes_no first_char PlayAgain true (lang args) rest)
        as [[prompts again] rest'].
      cbn [fst snd] in Ha1, Ha2, Ha3. destruct again; cbn [negb].
      * specialize (Ha2 eq_refl).
        destruct (IH (S round) g' s1 rest' ltac:(lia))
          as [out2 [code [s2 [-> [Hcode [Hw2 [Hns2 Hk2]]]]]]].
        eexists _, code, s2. split; [reflexivity|]. split; [exact Hcode|].
        split; [congruence|]. split.
        -- intros Hn. rewrite (Hns2 Hn). exact (Hns Hn).
        -- intros Hc Hrand. apply Hin, Ha3. now apply Hk2.
      * eexists _, 0, s1. split; [reflexivity|]. split; [now left|].
        split; [exact Hw1|]. split; [exact Hns | discriminate].
    + rewrite (Hex e eq_refl).
      eexists _, 1, s1. split; [reflexivity|]. split; [now right; left|].
      split; [exact Hw1|]. split; [exact Hns | discriminate].
  - (* the round raised *)
    destruct e; cbn [is_Exception];
      try (eexists _, 1, s; split; [reflexivity|]; split; [now right; left|];
           split; [reflexivity|]; split; [reflexivity | discriminate]).
    eexists _, 130, s. split; [reflexivity|]. split; [now right; right|].
    split; [reflexivity|]. split; [reflexivity|]. intros _. now apply Hki.
Qed.

(** How [main] starts: the version, the range error, or a session with a
    budget of at least 1. *)
Lemma main_startup_cases (cfg : config) :
  (version cfg = true /\ main_startup cfg = Exit VersionText 0)
  \/ (version cfg = false /\ max_v cfg <= min_v cfg
      /\ main_startup cfg = Exit ConfigErrorRange 2)
  \/ (version cfg = false /\ min_v cfg < max_v cfg
      /\ exists n, 1 <= n
           /\ compute_attempts (min_v cfg) (max_v cfg) (difficulty cfg) (attempts cfg) = Ok n
           /\ main_startup cfg = Start n).
Proof.
  unfold main_startup. destruct (version cfg); [now left|]. right.
  destruct (Z.ltb_spec (min_v cfg) (max_v cfg)) as [Hlt|Hge]; cbn [negb].
  - right. split; [reflexivity|]. split; [exact Hlt|].
    destruct (compute_attempts_ge_1 (min_v cfg) (max_v cfg) (difficulty cfg) (attempts cfg) Hlt)
      as [n [Hn H1]].
    exists n. rewrite Hn. destruct (Z.ltb_spec n 1); [lia|]. repeat split; assumption.
  - left. repeat split. exact Hge.
Qed.

(** X20: [main] always comes to an end on a finite input, and by
    returning: no exception leaves it, whatever the arguments, the
    score file and the input, and its status is 0, 1, 2 or 130. *)
Theorem main_exit_status (ns : namespace) (g : rng) (s : store) (inputs : list console) :
  exists out code s',
    main int_of_str rng randint first_char clock ns g s inputs = (out, Status code, s')
    /\ (code = 0 \/ code = 1 \/ code = 2 \/ code = 130).
Proof.
  unfold main.
  destruct (main_startup_cases (settings (parse_args ns)))
    as [[_ ->] | [[_ [_ ->]] | [_ [_ [n [_ [_ ->]]]]]]].
  - eexists _, 0, s. split; [reflexivity | now left].
  - eexists _, 2, s. split; [reflexivity | now right; right; left].
  - destruct (session_ends (parse_args ns) (S (List.length inputs)) 0 g s inputs ltac:(lia))
      as [out [code [s' [-> [Hcode _]]]]].
    exists out, code, s'. split; [reflexivity | tauto].
Qed.


(** X22: the status is 2 exactly when [--version] is not given and both
    bounds are given with [max <= min]; nothing but the range error is
    then printed. With [--version] only the version is printed and the
    status is 0, whatever the other arguments. *)
Theorem main_config_error (ns : namespace) (g : rng) (s : store) (inputs : list console) :
  (snd (fst (main int_of_str rng randint first_char clock ns g s inputs)) = Status 2
   <-> ns_version ns = false
       /\ exists lo hi, ns_min_v ns = Some lo /\ ns_max_v ns = Some hi /\ hi <= lo)
  /\ (snd (fst (main int_of_str rng randint first_char clock ns g s inputs)) = Status 2 ->
      main int_of_str rng randint first_char clock ns g s inputs
      = ([Diagnostic ConfigErrorRange], Status 2, s))
  /\ (ns_version ns = true ->
      main int_of_str rng randint first_char clock ns g s inputs
      = ([Diagnostic VersionText], Status 0, s)).
Proof.
  assert (Hrange : max_v (settings (parse_args ns)) <= min_v (settings (parse_args ns))
                   <-> exists lo hi, ns_min_v ns = Some lo /\ ns_max_v ns = Some hi /\ hi <= lo).
  { unfold parse_args.
    destruct (ns_min_v ns) as [lo|], (ns_max_v ns) as [hi|]; cbn [settings min_v max_v fst snd].
    - split; [intros H; exists lo, hi; now repeat split|].
      intros [lo' [hi' [E1 [E2 H]]]]. inversion E1; inversion E2; subst. exact H.
    - destruct (ns_difficulty ns =? "easy")%string;
        [|destruct (ns_difficulty ns =? "normal")%string];
        cbn [settings min_v max_v fst snd]; (split; [lia | intros [? [? [_ [? _]]]]; discriminate]).
    - destruct (ns_difficulty ns =? "easy")%string;
        [|destruct (ns_difficulty ns =? "normal")%string];
        cbn [settings min_v max_v fst snd]; (split; [lia | intros [? [? [? _]]]; discriminate]).
    - destruct (ns_difficulty ns =? "easy")%string;
        [|destruct (ns_difficulty ns =? "normal")%string];
        cbn [settings min_v max_v fst snd]; (split; [lia | intros [? [? [? _]]]; discriminate]). }
  unfold main.
  change (ns_version ns) with (version (settings (parse_args ns))).
  destruct (main_startup_cases (settings (parse_args ns)))
    as [[Hv ->] | [[Hv [Hr ->]] | [Hv [Hr [n [_ [_ ->]]]]]]]; cbn [fst snd].
  - split; [|split]; [|discriminate | reflexivity].
    split; [discriminate | intros [H _]; congruence].
  - split; [|split]; [|reflexivity | congruence].
    split; [intros _; split; [exact Hv | now apply Hrange] | reflexivity].
  - destruct (session_ends (parse_args ns) (S (List.length inputs)) 0 g s inputs ltac:(lia))
      as [out [code [s' [-> [Hcode _]]]]].
    cbn [fst snd].
    assert (Hne : Status code <> Status 2).
    { intros H; inversion H; lia. }
    split; [|split]; [|contradiction | congruence].
    split; [contradiction|]. intros [_ H]. apply Hrange in H. lia.
Qed.

(** X23: a status of 130 means Ctrl-C was pressed: with a generator
    that does not itself raise KeyboardInterrupt, [main] returns 130
    only when the input holds a Ctrl-C. *)
Theorem main_interrupted (ns : namespace) (g : rng) (s : store) (inputs : list console)
    (Hrandint : forall a b g0, randint a b g0 <> Raise KeyboardInterrupt)
    (Hstatus : snd (fst (main int_of_str rng randint first_char clock ns g s inputs))
               = Status 130) :
  In CtrlC inputs.
Proof.
  revert Hstatus. unfold main.
  destruct (main_startup_cases (settings (parse_args ns)))
    as [[_ ->] | [[_ [_ ->]] | [_ [_ [n [_ [_ ->]]]]]]]; cbn [fst snd]; try discriminate.
  destruct (session_ends (parse_args ns) (S (List.length inputs)) 0 g s inputs ltac:(lia))
    as [out [code [s' [-> [_ [_ [_ Hk]]]]]]].
  cbn [fst snd]. intros H; inversion H; subst code. now apply Hk.
Qed.

(** A round whose first read fails. *)
Lemma first_read_fails (cfg : config) (g g' : rng) (secret n : Z) (inputs : list console)
    (e : exn) :
  randint (min_v cfg) (max_v cfg) g = Ok (secret, g') ->
  compute_attempts (min_v cfg) (max_v cfg) (difficulty cfg) (attempts cfg) = Ok n ->
  1 <= n ->
  snd (fst (read_int int_of_str (0 + 1) (min_v cfg) (max_v cfg) inputs)) = Raise e ->
  exists out,
    play_round_io int_of_str rng randint cfg g inputs
    = (out, Raised e, snd (read_int int_of_str (0 + 1) (min_v cfg) (max_v cfg) inputs), g').
Proof.
  intros Hg Hn H1 Hr. unfold play_round_io, pick_secret. rewrite Hg, Hn.
  destruct (Z.to_nat n) as [|fuel] eqn:Ef; [lia|]. cbn [guess_loop_io].
  destruct (Z.ltb_spec 0 n); [|lia].
  destruct (read_int int_of_str (0 + 1) (min_v cfg) (max_v cfg) inputs) as [[out r] rest].
  cbn [fst snd] in *. subst r. eexists. reflexivity.
Qed.

(** X24: what happens before the first valid guess. With a valid range
    and a generator that yields a secret, if the input ends while only
    lines that [read_int] turns down have been read, [main] reports the
    end of input and returns 1; if Ctrl-C comes after such lines, it
    reports the interruption and returns 130. The score file is left as
    it is. *)
Theorem main_first_guess_fails (ns : namespace) (g g' : rng) (secret : Z) (s : store)
    (junk : list console)
    (Hversion : ns_version ns = false)
    (Hrange : min_v (settings (parse_args ns)) < max_v (settings (parse_args ns)))
    (Hsecret : randint (min_v (settings (parse_args ns)))
                 (max_v (settings (parse_args ns))) g = Ok (secret, g'))
    (Hjunk : Forall (rejected int_of_str (min_v (settings (parse_args ns)))
                       (max_v (settings (parse_args ns)))) junk) :
  (exists out,
      main int_of_str rng randint first_char clock ns g s junk
      = (out ++ [InputEnded], Status 1, s))
  /\ (forall rest, exists out,
        main int_of_str rng randint first_char clock ns g s (junk ++ CtrlC :: rest)
        = (out ++ [AbortedByUser], Status 130, s)).
Proof.
  unfold main.
  destruct (main_startup_cases (settings (parse_args ns)))
    as [[Hv _] | [[_ [Hr _]] | [_ [_ [n [H1 [Hn ->]]]]]]].
  - change (version (settings (parse_args ns))) with (ns_version ns) in Hv. congruence.
  - lia.
  - split.
    + destruct (first_read_fails (settings (parse_args ns)) g g' secret n junk EOFError
                  Hsecret Hn H1) as [out Hout].
      { now apply read_int_all_rejected. }
      cbn [session]. rewrite Hout. eexists. reflexivity.
    + intros rest.
      destruct (first_read_fails (settings (parse_args ns)) g g' secret n
                  (junk ++ CtrlC :: rest) KeyboardInterrupt Hsecret Hn H1) as [out Hout].
      { destruct (read_int_skips int_of_str (0 + 1) (min_v (settings (parse_args ns)))
                    (max_v (settings (parse_args ns))) junk (CtrlC :: rest) Hjunk)
          as [o [-> _]]. reflexivity. }
      cbn [session]. rewrite Hout. eexists. reflexivity.
Qed.

(** X25: the end of input at the play-again question is a normal end.
    When a round of a session without scoring returns having read all the
    input, the question finds the input ended, counts it as a no, and
    [main] says goodbye (unless quiet) and returns 0. *)
Theorem main_ends_after_round (ns : namespace) (g g' : rng) (s : store)
    (inputs : list console) (n : Z) (out : list message) (won : bool) (used score : Z)
    (Hstart : main_startup (settings (parse_args ns)) = Start n)
    (Hnoscore : ns_no_score ns = true)
    (Hround : play_round_io int_of_str rng randint (settings (parse_args ns)) g inputs
              = (out, Returned won used score, [], g')) :
  main int_of_str rng randint first_char clock ns g s inputs
  = (map InRound out ++ [PlayAgain] ++ (if negb (ns_quiet ns) then [Goodbye] else []),
     Status 0, s).
Proof.
  unfold main. rewrite Hstart. cbn [session]. rewrite Hround.
  change (no_score (parse_args ns)) with (ns_no_score ns). rewrite Hnoscore.
  rewrite andb_false_r. cbn [ask_yes_no negb app].
  change (quiet (settings (parse_args ns))) with (ns_quiet ns). reflexivity.
Qed.


(** X27: a score file that cannot be read as a record ends the session
    at the first win. When the update raises after a won round, [main]
    has shown the score, reports the unexpected error and returns 1; the
    file is left as it is and the rest of the input is not read. *)
Theorem main_broken_score_file (ns : namespace) (g g' : rng) (s : store)
    (inputs rest : list console) (n : Z) (out : list message) (used score : Z) (e : exn)
    (Hstart : main_startup (settings (parse_args ns)) = Start n)
    (Hscoring : ns_no_score ns = false)
    (Hround : play_round_io int_of_str rng randint (settings (parse_args ns)) g inputs
              = (out, Returned true used score, rest, g'))
    (Hraise : fst (update_and_store_score int_of_str (clock 0%nat) score
                     (min_v (settings (parse_args ns)))
                     (max_v (settings (parse_args ns))) s) = Raise e) :
  main int_of_str rng randint first_char clock ns g s inputs
  = (map InRound out ++ [Score score] ++ [UnexpectedError e], Status 1, s).
Proof.
  destruct (update_raises int_of_str _ _ _ _ s e Hraise) as [_ [Hex Hupd]].
  unfold main. rewrite Hstart. cbn [session]. rewrite Hround.
  change (no_score (parse_args ns)) with (ns_no_score ns). rewrite Hscoring.
  cbn [andb negb]. unfold report_score. rewrite Hupd, Hex. reflexivity.
Qed.

End SessionFacts.
Lemma main_interrupted_witness :
  snd (fst (main Sample.int_of_str Sample.rng Sample.randint
              SampleSession.first_char SampleSession.clock
              (SampleSession.options (Some 1) (Some 10) "hard") [7]
              {| content := Missing; writable := true |}
              [Line "5"; CtrlC; Line "7"])) = Status 130
  /\ In CtrlC [Line "5"; CtrlC; Line "7"].
Proof.
  split; [reflexivity|].
  apply (main_interrupted Sample.int_of_str Sample.rng Sample.randint
           SampleSession.first_char SampleSession.clock
           (SampleSession.options (Some 1) (Some 10) "hard") [7]
           {| content := Missing; writable := true |}).
  - intros a b [|x g0]; discriminate.
  - reflexivity.
Defined.

Lemma main_first_guess_fails_witness :
  exists out,
    main Sample.int_of_str Sample.rng Sample.randint
      SampleSession.first_char SampleSession.clock
      (SampleSession.options (Some 1) (Some 10) "hard") [7]
      {| content := Missing; writable := true |} [Line "x"; Line "11"]
    = (out ++ [InputEnded], Status 1, {| content := Missing; writable := true |}).
Proof.
  refine (proj1 (main_first_guess_fails Sample.int_of_str Sample.rng Sample.randint
                   SampleSession.first_char SampleSession.clock
                   (SampleSession.options (Some 1) (Some 10) "hard") [7] [] 7
                   {| content := Missing; writable := true |} [Line "x"; Line "11"]
                   _ _ _ _)).
  - reflexivity.
  - simpl; lia.
  - reflexivity.
  - repeat constructor; simpl; lia.
Defined.

Lemma main_ends_after_round_witness :
  main Sample.int_of_str Sample.rng Sample.randint
    SampleSession.first_char SampleSession.clock
    {| ns_difficulty := "hard"; ns_min_v := Some 1; ns_max_v := Some 10;
       ns_attempts := None; ns_proximity := false; ns_seed := None;
       ns_no_score := true; ns_lang := "en"; ns_no_color := false;
       ns_quiet := false; ns_version := false |} [7]
    {| content := Missing; writable := true |} [Line "5"; Line "7"]
  = (map InRound [Title; Intro 1 10 4; Prompt 1; TooLow; Remaining 3; Prompt 2; Win 1 false]
       ++ [PlayAgain] ++ [Goodbye],
     Status 0, {| content := Missing; writable := true |}).
Proof.
  apply (main_ends_after_round Sample.int_of_str Sample.rng Sample.randint
           SampleSession.first_char SampleSession.clock
           {| ns_difficulty := "hard"; ns_min_v := Some 1; ns_max_v := Some 10;
              ns_attempts := None; ns_proximity := false; ns_seed := None;
              ns_no_score := true; ns_lang := "en"; ns_no_color := false;
              ns_quiet := false; ns_version := false |} [7] []
           {| content := Missing; writable := true |} [Line "5"; Line "7"] 4
           [Title; Intro 1 10 4; Prompt 1; TooLow; Remaining 3; Prompt 2; Win 1 false]
           true 1 130);
    reflexivity.
Defined.

Lemma main_broken_score_file_witness :
  main Sample.int_of_str Sample.rng Sample.randint
    SampleSession.first_char SampleSession.clock
    (SampleSession.options (Some 1) (Some 10) "hard") [7]
    {| content := Holds (JList [JInt 130]); writable := true |}
    [Line "7"; Line "y"; Line "7"]
  = (map InRound [Title; Intro 1 10 4; Prompt 1; Win 1 true]
       ++ [Score 130] ++ [UnexpectedError AttributeError],
     Status 1, {| content := Holds (JList [JInt 130]); writable := true |}).
Proof.
  apply (main_broken_score_file Sample.int_of_str Sample.rng Sample.randint
           SampleSession.first_char SampleSession.clock
           (SampleSession.options (Some 1) (Some 10) "hard") [7] []
           {| content := Holds (JList [JInt 130]); writable := true |}
           [Line "7"; Line "y"; Line "7"] [Line "y"; Line "7"] 4
           [Title; Intro 1 10 4; Prompt 1; Win 1 true] 1 130 AttributeError);
    reflexivity.
Defined.

(** ** A score file that is no record *)

(** C9, as the claim states it, fails on the code by a missed case: a
    score file that holds JSON which is no record. [load_score] does not
    return absent for it; the update then raises ([.get] on a list,
    [int] on a string) and [main], after a won round, reports an
    unexpected error and returns 1, where the claim has corrupt storage
    count as no record and the update report a record. *)
Theorem non_record_file_fails :
  let listed := {| content := Holds (JList [JInt 130]); writable := true |} in
  let worded := {| content := Holds (JObj [("best_score"%string, JStr "high")]);
                   writable := true |} in
  load_score listed = Some (JList [JInt 130])
  /\ update_and_store_score Sample.int_of_str 1000 130 1 10 listed
     = (Raise AttributeError, listed)
  /\ update_and_store_score Sample.int_of_str 1000 130 1 10 worded
     = (Raise ValueError, worded)
  /\ main Sample.int_of_str Sample.rng Sample.randint
       SampleSession.first_char SampleSession.clock
       (SampleSession.options (Some 1) (Some 10) "hard") [7] listed [Line "7"]
     = (map InRound [Title; Intro 1 10 4; Prompt 1; Win 1 true]
          ++ [Score 130; UnexpectedError AttributeError],
        Status 1, listed).
Proof. repeat split; reflexivity. Qed.
